(** * The Idempotent Wallet: a shallow embedding of the transfer pipeline

    The development follows [src/services/TransferService.ts] and
    [src/services/RedisService.ts], together with the two stores they talk
    to: the ledger (PostgreSQL through Sequelize: the [wallets] and
    [transaction_logs] relations of the migrations and of
    [models/TransactionLog.ts]) and the cache (Redis through ioredis).

    - [Utf8]: strings, kept as the octets of their UTF-8 encoding.
    - [JSNumber]: the JavaScript numbers of the money path ([parseFloat],
      [<], [-], [+], [toFixed(4)]) as IEEE 754 binary64 values, and the
      DECIMAL(19,4) column type of the ledger.
    - [Ledger], [Redis]: the two stores, and [Env], what a request takes
      from outside them (clock, identifiers, faults of the connections).
    - [Thread]: a request as a sequence of atomic store operations, one per
      [await], run alone ([Thread.run]) or interleaved with others
      ([Concurrent.play]).
    - [RedisService], [Validators] (those of the two models, as Sequelize
      defines them), [TransferService]: the code.
    - [Examples]: the stores and requests of the scenarios.
    - Properties: atomicity, lock order, lease release, the fallback after
      an exhausted retry budget, over-long keys, the log of a failed
      transfer, arithmetic and conservation, terminal states, replays. *)

From Stdlib Require Import ZArith String Ascii List Bool Lia DecimalString.
From Stdlib Require Import Floats.SpecFloat.
From stdpp Require Import base option list gmap strings.

Local Open Scope string_scope.
Local Open Scope Z_scope.

(** ** Strings

    A string of the program is kept as the octets of its UTF-8 encoding.
    Lengths that the code counts in characters are counted here on the
    octets that start a character. *)

Module Utf8.

(** An octet [10xxxxxx], which continues a character. *)
Definition continuation (c : ascii) : bool :=
  let n := N_of_ascii c in ((128 <=? n) && (n <=? 191))%N.

(** The number of characters (code points) of a string. *)
Fixpoint code_points (s : string) : nat :=
  match s with
  | String c r => if continuation c then code_points r else S (code_points r)
  | EmptyString => O
  end.

(** U+FE0E and U+FE0F, the variation selectors [EF B8 8E] and [EF B8 8F]. *)
Definition is_variation_selector (c1 c2 c3 : ascii) : bool :=
  ((N_of_ascii c1 =? 239) && (N_of_ascii c2 =? 184)
   && ((N_of_ascii c3 =? 142) || (N_of_ascii c3 =? 143)))%N.

Fixpoint variation_selectors (s : string) : nat :=
  match s with
  | String c1 r1 =>
      match r1 with
      | String c2 (String c3 r3) =>
          if is_variation_selector c1 c2 c3 then S (variation_selectors r3)
          else variation_selectors r1
      | _ => variation_selectors r1
      end
  | EmptyString => O
  end.

(** Whether the string holds U+0000. *)
Fixpoint has_nul (s : string) : bool :=
  match s with
  | String c r => ((N_of_ascii c =? 0)%N || has_nul r)%bool
  | EmptyString => false
  end.

(** The double quote, for the messages that quote a name. *)
Definition dquote : string := String (ascii_of_N 34) EmptyString.

End Utf8.

(** ** JavaScript numbers and SQL decimals *)

Module JSNumber.

(** A JS Number is a binary64 value: 53 bits of mantissa, [emax = 1024]. *)
Definition prec : Z := 53.
Definition emax : Z := 1024.
Definition Number : Type := spec_float.

Definition NaN : Number := S754_nan.
Definition isNaN (x : Number) : bool :=
  match x with S754_nan => true | _ => false end.

(** [a < b], [a <= b], [a - b], [a + b] on Numbers. *)
Definition lt (a b : Number) : bool := SFltb a b.
Definition le (a b : Number) : bool := SFleb a b.
Definition sub (a b : Number) : Number := SFsub prec emax a b.
Definition add (a b : Number) : Number := SFadd prec emax a b.

(** The Number nearest to the rational [n / d] (ties to even), for
    [0 <= n] and [0 < d]: the value a decimal literal or a parsed string
    denotes. *)
Definition of_ratio (neg : bool) (n d : Z) : Number :=
  if n =? 0 then S754_zero neg
  else
    let '(q, e, l) := SFdiv_core_binary prec emax n 0 d 0 in
    binary_round_aux prec emax neg q e l.

(** [of_decimal neg n k] is the Number nearest to [n * 10^k]. *)
Definition of_decimal (neg : bool) (n k : Z) : Number :=
  if 0 <=? k then of_ratio neg (n * 10 ^ k) 1
  else of_ratio neg n (10 ^ (- k)).

Definition zero : Number := S754_zero false.

(** The literal [0.0001] of [validateTransferRequest]. *)
Definition lit_0_0001 : Number := of_decimal false 1 (-4).

(** *** Reading digits *)

Definition is_digit (c : ascii) : bool :=
  let n := N_of_ascii c in ((48 <=? n) && (n <=? 57))%N.

Definition digit_value (c : ascii) : Z := Z.of_N (N_of_ascii c) - 48.

Fixpoint span_digits (s : string) : string * string :=
  match s with
  | String c r =>
      if is_digit c then
        let '(d, t) := span_digits r in (String c d, t)
      else (EmptyString, s)
  | EmptyString => (EmptyString, EmptyString)
  end.

Fixpoint digits_value (acc : Z) (s : string) : Z :=
  match s with
  | String c r => digits_value (10 * acc + digit_value c) r
  | EmptyString => acc
  end.

Definition is_empty (s : string) : bool :=
  match s with EmptyString => true | _ => false end.

Definition str_length (s : string) : Z := Z.of_nat (String.length s).

(** White space as [parseFloat] skips it and as [\s] matches it
    (StrWhiteSpaceChar: WhiteSpace and LineTerminator). In one octet: TAB,
    LF, VT, FF, CR, SP. *)
Definition is_space (c : ascii) : bool :=
  let n := N_of_ascii c in (((9 <=? n) && (n <=? 13)) || (n =? 32))%N.

(** In two octets: U+00A0 ([C2 A0]). *)
Definition is_space2 (c1 c2 : ascii) : bool :=
  ((N_of_ascii c1 =? 194) && (N_of_ascii c2 =? 160))%N.

(** In three octets: U+1680 ([E1 9A 80]), U+2000 to U+200A ([E2 80 80] to
    [E2 80 8A]), U+2028, U+2029 and U+202F ([E2 80 A8], [E2 80 A9],
    [E2 80 AF]), U+205F ([E2 81 9F]), U+3000 ([E3 80 80]) and U+FEFF
    ([EF BB BF]). *)
Definition is_space3 (c1 c2 c3 : ascii) : bool :=
  let n1 := N_of_ascii c1 in
  let n2 := N_of_ascii c2 in
  let n3 := N_of_ascii c3 in
  (((n1 =? 225) && (n2 =? 154) && (n3 =? 128))
   || ((n1 =? 226) && (n2 =? 128)
       && (((128 <=? n3) && (n3 <=? 138))
           || (n3 =? 168) || (n3 =? 169) || (n3 =? 175)))
   || ((n1 =? 226) && (n2 =? 129) && (n3 =? 159))
   || ((n1 =? 227) && (n2 =? 128) && (n3 =? 128))
   || ((n1 =? 239) && (n2 =? 187) && (n3 =? 191)))%N.

Fixpoint skip_space (s : string) : string :=
  match s with
  | String c1 r1 =>
      if is_space c1 then skip_space r1
      else
        match r1 with
        | String c2 r2 =>
            if is_space2 c1 c2 then skip_space r2
            else
              match r2 with
              | String c3 r3 =>
                  if is_space3 c1 c2 c3 then skip_space r3 else s
              | EmptyString => s
              end
        | EmptyString => s
        end
  | EmptyString => s
  end.

Definition take_sign (s : string) : bool * string :=
  match s with
  | String "-" r => (true, r)
  | String "+" r => (false, r)
  | _ => (false, s)
  end.

(** The ExponentPart of a StrDecimalLiteral, when one is present: [e] or
    [E], an optional sign and at least one digit. Without a digit the
    literal ends before the [e]. *)
Definition exponent_part (s : string) : Z :=
  match s with
  | String c r =>
      if (Ascii.eqb c "e" || Ascii.eqb c "E")%bool then
        let '(neg, r') := take_sign r in
        let '(ds, _) := span_digits r' in
        if is_empty ds then 0
        else if neg then - digits_value 0 ds else digits_value 0 ds
      else 0
  | EmptyString => 0
  end.

(** [parseFloat(s)]: the longest prefix of the trimmed string that is a
    StrDecimalLiteral, rounded to the nearest Number; [NaN] when there is
    no such prefix. *)
Definition parseFloat (s : string) : Number :=
  let '(neg, s1) := take_sign (skip_space s) in
  if String.prefix "Infinity" s1 then S754_infinity neg
  else
    let '(ip, s2) := span_digits s1 in
    let '(fp, s3) :=
      match s2 with
      | String "." r => span_digits r
      | _ => (EmptyString, s2)
      end in
    if (is_empty ip && is_empty fp)%bool then NaN
    else
      of_decimal neg (digits_value 0 (ip +:+ fp))
                 (exponent_part s3 - str_length fp).

(** *** Writing digits *)

Definition nat_digits (n : Z) : string :=
  NilZero.string_of_uint (N.to_uint (Z.to_N n)).

Fixpoint zeros (n : nat) : string :=
  match n with
  | O => EmptyString
  | S n' => String "0" (zeros n')
  end.

Definition pad4 (n : Z) : string :=
  let d := nat_digits n in
  zeros (4 - String.length d)%nat +:+ d.

(** A non-negative count of ten-thousandths written with exactly four
    fractional digits: [fixed4 1234567 = "123.4567"]. *)
Definition fixed4 (n : Z) : string :=
  nat_digits (n / 10000) +:+ "." +:+ pad4 (n mod 10000).

(** The integer [n] for which [n / 10^4 - m * 2^e] is as close to zero as
    possible, the larger one when there are two (step 10.a of
    Number.prototype.toFixed). *)
Definition nearest_ten_thousandth (m : positive) (e : Z) : Z :=
  if 0 <=? e then Z.pos m * 2 ^ e * 10000
  else (2 * (Z.pos m * 10000) + 2 ^ (- e)) / (2 * 2 ^ (- e)).

(** [x.toFixed(4)]. From [10^21] on JavaScript switches to exponent
    notation; the ledger refuses both renderings of such a value (see
    [numeric_in]), and this model keeps the positional digits there. *)
Definition toFixed4 (x : Number) : string :=
  match x with
  | S754_nan => "NaN"
  | S754_infinity s => if s then "-Infinity" else "Infinity"
  | S754_zero _ => "0.0000"
  | S754_finite s m e =>
      (if s then "-" else "") +:+ fixed4 (nearest_ten_thousandth m e)
  end.

(** *** DECIMAL(19,4) *)

(** A DECIMAL(19,4) value is kept as its count of ten-thousandths. *)
Definition decimal_max : Z := 10 ^ 19.

(** What the store returns for a DECIMAL(19,4) column: a string with
    exactly four fractional digits. *)
Definition numeric_out (v : Z) : string :=
  (if v <? 0 then "-" else "") +:+ fixed4 (Z.abs v).

(** The exponent of a numeric literal: nothing, or [e] or [E], an optional
    sign and at least one digit, up to the end of the string. *)
Definition numeric_exponent (s : string) : option Z :=
  match s with
  | EmptyString => Some 0
  | String c r =>
      if (Ascii.eqb c "e" || Ascii.eqb c "E")%bool then
        let '(neg, r') := take_sign r in
        let '(ds, t) := span_digits r' in
        if (is_empty ds || negb (is_empty t))%bool then None
        else Some (if neg then - digits_value 0 ds else digits_value 0 ds)
      else None
  end.

(** What the store accepts into a DECIMAL(19,4) column, for the strings
    that come to it (those [isDecimal] lets through): a sign, digits with
    an optional point, at least one digit, and an optional exponent. The
    value is rounded half away from zero to four fractional digits; [None]
    is the store's error (invalid input syntax, an exponent beyond
    [INT_MAX / 2], or numeric field overflow from 10^15 on). *)
Definition numeric_in (s : string) : option Z :=
  let '(neg, s1) := take_sign s in
  let '(ip, s2) := span_digits s1 in
  let '(fp, s3) :=
    match s2 with
    | String "." r => span_digits r
    | _ => (EmptyString, s2)
    end in
  if (is_empty ip && is_empty fp)%bool then None
  else
    match numeric_exponent s3 with
    | None => None
    | Some e =>
        if 1073741823 <=? Z.abs e then None
        else
          let n := digits_value 0 (ip +:+ fp) in
          let k := e - str_length fp + 4 in
          let v :=
            if 0 <=? k then n * 10 ^ k
            else (n + 5 * 10 ^ (- k - 1)) / 10 ^ (- k) in
          if decimal_max <=? v then None
          else Some (if neg then - v else v)
    end.

End JSNumber.

(** ** Errors, requests and responses ([src/types]) *)

Inductive TransactionStatus : Type := PENDING | SUCCESS | FAILED.

Definition TransactionStatus_eqb (a b : TransactionStatus) : bool :=
  match a, b with
  | PENDING, PENDING | SUCCESS, SUCCESS | FAILED, FAILED => true
  | _, _ => false
  end.

(** SUCCESS and FAILED are the terminal states of a log. *)
Definition terminal (s : TransactionStatus) : bool :=
  match s with
  | PENDING => false
  | SUCCESS | FAILED => true
  end.

(** A thrown value: a [TransferError] with its status code and code, or any
    other [Error] object, of which the service reads [name] and [message]. *)
Inductive Error : Type :=
| TransferError (message : string) (statusCode : Z) (code : string)
| OtherError (name : string) (message : string).

Definition error_message (e : Error) : string :=
  match e with
  | TransferError m _ _ => m
  | OtherError _ m => m
  end.

Definition error_name (e : Error) : string :=
  match e with
  | TransferError _ _ _ => "TransferError"
  | OtherError n _ => n
  end.

Record TransferRequest : Type := mkRequest {
  fromWalletId : string;
  toWalletId : string;
  amount : string;
  idempotencyKey : string
}.

Record TransferResponse : Type := mkResponse {
  success : bool;
  transactionId : string;
  message : string;
  fromBalance : option string;
  toBalance : option string
}.

(** [{ ...request, idempotencyKey: key }] *)
Definition with_key (request : TransferRequest) (key : string) : TransferRequest :=
  mkRequest (fromWalletId request) (toWalletId request) (amount request) key.

(** [{ ...r, message: m }] *)
Definition with_message (r : TransferResponse) (m : string) : TransferResponse :=
  mkResponse (success r) (transactionId r) m (fromBalance r) (toBalance r).

(** ** The ledger store *)

Module Wallet.
(** A row of [wallets], as the migration creates the relation. The
    primary key [id] is the key of the row in [Ledger.wallets]; the
    timestamps, which nothing in the service reads, are left out. *)
Record t : Type := mk {
  userId : string;
  balance : Z;          (* DECIMAL(19,4), in ten-thousandths *)
  version : Z           (* INTEGER *)
}.
End Wallet.

Module TransactionLog.
(** A row of [transaction_logs]. [metadata] is a nullable JSONB object
    whose values, in this service, are all strings. *)
Record t : Type := mk {
  id : string;
  fromWalletId : string;
  toWalletId : string;
  amount : Z;           (* DECIMAL(19,4), in ten-thousandths *)
  status : TransactionStatus;
  idempotencyKey : string;
  errorMessage : option string;
  metadata : option (gmap string string)
}.

Definition set_status_metadata (s : TransactionStatus)
    (md : option (gmap string string)) (l : t) : t :=
  mk (id l) (fromWalletId l) (toWalletId l) (amount l) s
     (idempotencyKey l) (errorMessage l) md.
End TransactionLog.

(** The statements of the ledger that the service can run, as far as the
    environment can make one of them fail on its own (a lost connection, a
    pool time-out, a deadline). *)
Inductive DbOp : Type :=
| OpFallbackLookup | OpLookup | OpBegin | OpInsertLog | OpLockFirst
| OpLockSecond | OpUpdateFrom | OpUpdateTo | OpUpdateLog | OpCommit
| OpMarkFailed.

Inductive RedisOp : Type :=
| OpGet | OpSetNX (attempt : nat) | OpSetex | OpDel.

(** What one request takes from outside the two stores: the clock, the
    identifier generator, the client configuration, and the faults of the
    two connections. *)
Record Env : Type := mkEnv {
  lockStamp : nat → string;       (* Date.now().toString(), per attempt *)
  isoNow : DbOp → string;         (* new Date().toISOString(), per statement *)
  uuidv4 : string;                (* DataTypes.UUIDV4 *)
  keyPrefix : string;             (* REDIS_KEY_PREFIX, 'wallet:' by default *)
  redisFault : RedisOp → bool;
  dbFault : DbOp → option Error
}.

Module Ledger.

Record t : Type := mk {
  wallets : gmap string Wallet.t;      (* by primary key *)
  logs : list TransactionLog.t         (* the rows, oldest first *)
}.

Definition set_wallets (ws : gmap string Wallet.t) (L : t) : t :=
  mk ws (logs L).
Definition set_logs (ls : list TransactionLog.t) (L : t) : t :=
  mk (wallets L) ls.

(** The [uuid] column type folds the case of the hexadecimal digits. *)
Definition lower (c : ascii) : ascii :=
  let n := N_of_ascii c in
  if ((65 <=? n) && (n <=? 90))%N then ascii_of_N (n + 32) else c.

Fixpoint uuid_in (s : string) : string :=
  match s with
  | String c r => String (lower c) (uuid_in r)
  | EmptyString => EmptyString
  end.

(** A statement of a transaction: it runs on the ledger as the
    transaction sees it and either yields a value or raises. On a raise
    the ledger it leaves behind is the uncommitted one. *)
Definition Tx (A : Type) : Type := t → t * (Error + A).

Definition ret {A} (a : A) : Tx A := fun L => (L, inr a).
Definition throw {A} (e : Error) : Tx A := fun L => (L, inl e).
Definition bind {A B} (m : Tx A) (k : A → Tx B) : Tx B :=
  fun L =>
    match m L with
    | (L', inr a) => k a L'
    | (L', inl e) => (L', inl e)
    end.

(** [try { m } catch (error) { h error }] inside a transaction. *)
Definition catch {A} (m : Tx A) (h : Error → Tx A) : Tx A :=
  fun L =>
    match m L with
    | (L', inr a) => (L', inr a)
    | (L', inl e) => h e L'
    end.

(** The environment's own failure of a statement. *)
Definition fault (env : Env) (op : DbOp) : Tx unit :=
  fun L =>
    match dbFault env op with
    | Some e => (L, inl e)
    | None => (L, inr tt)
    end.

(** The first row with the given [idempotencyKey]. *)
Definition lookup_key (key : string) (L : t) : option TransactionLog.t :=
  List.find (fun l => String.eqb (TransactionLog.idempotencyKey l) key)
            (logs L).

(** [TransactionLog.findOne({ where: { idempotencyKey } })] *)
Definition findOne (env : Env) (op : DbOp) (key : string)
  : Tx (option TransactionLog.t) :=
  bind (fault env op) (fun _ L => (L, inr (lookup_key key L))).

(** [Wallet.findByPk(id, { lock: UPDATE, transaction })]: the instance
    found, with the [id] it is stored under. *)
Definition findByPk (env : Env) (op : DbOp) (id : string)
  : Tx (option (string * Wallet.t)) :=
  bind (fault env op) (fun _ L =>
    (L, inr (pair (uuid_in id) <$> wallets L !! uuid_in id))).

Definition has_log_id (id : string) (L : t) : bool :=
  existsb (fun l => String.eqb (TransactionLog.id l) id) (logs L).

Definition has_log_key (key : string) (L : t) : bool :=
  existsb (fun l => String.eqb (TransactionLog.idempotencyKey l) key)
          (logs L).

Definition has_wallet (id : string) (L : t) : bool :=
  bool_decide (is_Some (wallets L !! uuid_in id)).

(** INSERT INTO transaction_logs: the text the store takes (no U+0000),
    the range of DECIMAL(19,4), the 255 characters of the VARCHAR column,
    the primary key and the unique index on [idempotencyKey], and the two
    foreign keys to [wallets]. (The store cuts a key whose characters past
    the 255th are all blanks instead of refusing it; the [len] validator
    lets no such key come here unless variation selectors make up for the
    excess, and this model then refuses it like any other.) *)
Definition insert_log (env : Env) (id from to amount key : string)
    (md : gmap string string) : Tx TransactionLog.t :=
  bind (fault env OpInsertLog) (fun _ L =>
    if Utf8.has_nul key then
      (L, inl (OtherError "SequelizeDatabaseError"
                 ("invalid byte sequence for encoding " +:+ Utf8.dquote
                  +:+ "UTF8" +:+ Utf8.dquote +:+ ": 0x00")))
    else
    match JSNumber.numeric_in amount with
    | None =>
        (L, inl (OtherError "SequelizeDatabaseError" "numeric field overflow"))
    | Some a =>
        if (255 <? Utf8.code_points key)%nat then
          (L, inl (OtherError "SequelizeDatabaseError"
                     "value too long for type character varying(255)"))
        else if (has_log_id id L || has_log_key key L)%bool then
          (L, inl (OtherError "SequelizeUniqueConstraintError" "Validation error"))
        else if negb (has_wallet from L && has_wallet to L)%bool then
          (L, inl (OtherError "SequelizeForeignKeyConstraintError"
                     "insert or update on table violates foreign key constraint"))
        else
          let row := TransactionLog.mk id (uuid_in from) (uuid_in to) a
                                       PENDING key None (Some md) in
          (set_logs (logs L ++ [row]) L, inr row)
    end).

(** The statement of [wallet.update({ balance, version }, { transaction })]:
    UPDATE wallets SET balance, version WHERE id. The validators of the
    model run before it ([Wallet_update]). *)
Definition update_wallet (env : Env) (op : DbOp) (id : string)
    (balance : string) (version : Z) : Tx unit :=
  bind (fault env op) (fun _ L =>
    match JSNumber.numeric_in balance with
    | None =>
        (L, inl (OtherError "SequelizeDatabaseError" "numeric field overflow"))
    | Some b =>
        if 2147483647 <? version then
          (L, inl (OtherError "SequelizeDatabaseError" "integer out of range"))
        else
          (set_wallets
             (alter (fun r => Wallet.mk (Wallet.userId r) b version)
                    id (wallets L)) L,
           inr tt)
    end).

Definition map_log_id (id : string) (f : TransactionLog.t → TransactionLog.t)
    (ls : list TransactionLog.t) : list TransactionLog.t :=
  List.map (fun l => if String.eqb (TransactionLog.id l) id then f l else l) ls.

Definition map_log_key (key : string) (f : TransactionLog.t → TransactionLog.t)
    (ls : list TransactionLog.t) : list TransactionLog.t :=
  List.map (fun l => if String.eqb (TransactionLog.idempotencyKey l) key
                     then f l else l) ls.

(** [transactionLog.update({ status, metadata }, { transaction })]:
    UPDATE transaction_logs SET status, metadata WHERE id. *)
Definition update_log (env : Env) (l : TransactionLog.t)
    (s : TransactionStatus) (md : gmap string string) : Tx unit :=
  bind (fault env OpUpdateLog) (fun _ L =>
    (set_logs (map_log_id (TransactionLog.id l)
                 (TransactionLog.set_status_metadata s (Some md)) (logs L)) L,
     inr tt)).

(** The row as [markTransactionFailed] rewrites it. [metadata || j] on a
    JSONB object lets the right operand win; on NULL it stays NULL. *)
Definition mark_failed (errorMessage failedAt : string)
    (l : TransactionLog.t) : TransactionLog.t :=
  TransactionLog.mk (TransactionLog.id l) (TransactionLog.fromWalletId l)
    (TransactionLog.toWalletId l) (TransactionLog.amount l) FAILED
    (TransactionLog.idempotencyKey l) (Some errorMessage)
    (match TransactionLog.metadata l with
     | Some md => Some (<["failedAt" := failedAt]> md)
     | None => None
     end).

(** [TransactionLog.update({ status: FAILED, errorMessage, metadata },
    { where: { idempotencyKey } })], a statement of its own. *)
Definition update_failed_where_key (env : Env) (key errorMessage : string)
  : Tx unit :=
  bind (fault env OpMarkFailed) (fun _ L =>
    (set_logs (map_log_key key (mark_failed errorMessage (isoNow env OpMarkFailed))
                (logs L)) L,
     inr tt)).

(** [sequelize.transaction(options, callback)]: BEGIN, the callback, then
    COMMIT when it resolves and ROLLBACK when it rejects. The ledger a
    rolled-back transaction leaves is the one it started from. *)
Definition transaction {A} (env : Env) (callback : Tx A) : Tx A :=
  fun L =>
    match dbFault env OpBegin with
    | Some e => (L, inl e)
    | None =>
        match callback L with
        | (L', inr a) =>
            match dbFault env OpCommit with
            | Some e => (L, inl e)
            | None => (L', inr a)
            end
        | (_, inl e) => (L, inl e)
        end
    end.

End Ledger.

(** ** The cache store *)

Inductive RedisValue : Type :=
| Text (s : string)                (* a lock stamp *)
| Json (r : TransferResponse).     (* JSON.stringify of a response *)

Module Redis.

(** The client prepends its [keyPrefix] to every key. *)
Definition get (env : Env) (key : string) (R : gmap string RedisValue)
  : option RedisValue :=
  R !! (keyPrefix env +:+ key).

(** SET key value EX ttl NX: ['OK'] ([true]) when the key was absent. *)
Definition set_nx (env : Env) (key : string) (v : RedisValue)
    (R : gmap string RedisValue) : gmap string RedisValue * bool :=
  match R !! (keyPrefix env +:+ key) with
  | Some _ => (R, false)
  | None => (<[keyPrefix env +:+ key := v]> R, true)
  end.

Definition setex (env : Env) (key : string) (v : RedisValue)
    (R : gmap string RedisValue) : gmap string RedisValue :=
  <[keyPrefix env +:+ key := v]> R.

Definition del (env : Env) (key : string) (R : gmap string RedisValue)
  : gmap string RedisValue :=
  delete (keyPrefix env +:+ key) R.

End Redis.

Record World : Type := mkWorld {
  ledger : Ledger.t;
  redis : gmap string RedisValue
}.

Definition set_ledger (L : Ledger.t) (w : World) : World := mkWorld L (redis w).
Definition set_redis (R : gmap string RedisValue) (w : World) : World :=
  mkWorld (ledger w) R.

(** ** Requests as threads of atomic store operations

    Every [await] on one of the two stores is one atomic operation on the
    [World]; between two of them other requests may run. A thread is what
    remains to be done of a request. *)

Inductive Thread (A : Type) : Type :=
| Ret (a : A)
| Throw (e : Error)
| Await {X : Type} (op : World → World * X) (k : X → Thread A).

Arguments Ret {A} a.
Arguments Throw {A} e.
Arguments Await {A X} op k.

Module Thread.

Fixpoint bind {A B} (t : Thread A) (k : A → Thread B) : Thread B :=
  match t with
  | Ret a => k a
  | Throw e => Throw e
  | Await op k' => Await op (fun x => bind (k' x) k)
  end.

(** [try { t } catch (error) { h error }] *)
Fixpoint try_catch {A} (t : Thread A) (h : Error → Thread A) : Thread A :=
  match t with
  | Ret a => Ret a
  | Throw e => h e
  | Await op k => Await op (fun x => try_catch (k x) h)
  end.

(** [try { t } finally { c }]: [c] runs after [t] whatever its outcome, and
    a throw of [c] replaces it. *)
Fixpoint finally {A} (t : Thread A) (c : Thread unit) : Thread A :=
  match t with
  | Ret a => bind c (fun _ => Ret a)
  | Throw e => bind c (fun _ => Throw e)
  | Await op k => Await op (fun x => finally (k x) c)
  end.

(** One awaited operation. *)
Definition atomic {X} (op : World → World * X) : Thread X := Await op Ret.

Definition on_redis {X}
    (f : gmap string RedisValue → gmap string RedisValue * X)
  : World → World * X :=
  fun w => let '(R, x) := f (redis w) in (set_redis R w, x).

Definition on_ledger {X} (f : Ledger.t → Ledger.t * X) : World → World * X :=
  fun w => let '(L, x) := f (ledger w) in (set_ledger L w, x).

(** A ledger statement awaited by the request: its error is thrown. *)
Definition statement {A} (m : Ledger.Tx A) : Thread A :=
  Await (on_ledger m)
        (fun r => match r with inl e => Throw e | inr a => Ret a end).

(** The request run alone, from its first operation to its outcome. *)
Fixpoint run {A} (t : Thread A) (w : World) : World * (Error + A) :=
  match t with
  | Ret a => (w, inr a)
  | Throw e => (w, inl e)
  | Await op k => let '(w', x) := op w in run (k x) w'
  end.

(** The request advanced by one operation. *)
Definition advance {A} (t : Thread A) (w : World) : World * Thread A :=
  match t with
  | Await op k => let '(w', x) := op w in (w', k x)
  | _ => (w, t)
  end.

End Thread.

#[export] Instance Thread_ret : MRet Thread := @Ret.
#[export] Instance Thread_bind : MBind Thread := fun A B k t => Thread.bind t k.
#[export] Instance Tx_ret : MRet Ledger.Tx := @Ledger.ret.
#[export] Instance Tx_bind : MBind Ledger.Tx := fun A B k m => Ledger.bind m k.

(** ** [RedisService] *)

Module RedisService.

Definition LOCK_TTL : Z := 30.
Definition LOCK_RETRY_DELAY : Z := 100.
Definition LOCK_MAX_RETRIES : nat := 50.

Definition lockKey (idempotencyKey : string) : string :=
  "lock:" +:+ idempotencyKey.
Definition cacheKey (idempotencyKey : string) : string :=
  "idempotency:" +:+ idempotencyKey.

(** SET lock:key stamp EX 30 NX; on a Redis failure the lock counts as
    acquired (fail open). *)
Definition acquireLock (env : Env) (attempt : nat) (idempotencyKey : string)
    (R : gmap string RedisValue) : gmap string RedisValue * bool :=
  if redisFault env (OpSetNX attempt) then (R, true)
  else Redis.set_nx env (lockKey idempotencyKey) (Text (lockStamp env attempt)) R.

(** DEL lock:key; a Redis failure is logged and dropped. *)
Definition releaseLock (env : Env) (idempotencyKey : string)
    (R : gmap string RedisValue) : gmap string RedisValue * unit :=
  if redisFault env OpDel then (R, tt)
  else (Redis.del env (lockKey idempotencyKey) R, tt).

Definition sleep (ms : Z) : Thread unit :=
  Thread.atomic (fun w => (w, tt)).

(** The loop of [acquireLockWithRetry], [remaining] attempts from
    [attempt] on. *)
Fixpoint acquireLockLoop (env : Env) (idempotencyKey : string)
    (remaining attempt : nat) : Thread bool :=
  match remaining with
  | O => Ret false
  | S remaining' =>
      acquired ← Thread.atomic
                   (Thread.on_redis (acquireLock env attempt idempotencyKey));
      if acquired : bool then Ret true
      else sleep LOCK_RETRY_DELAY;;
           acquireLockLoop env idempotencyKey remaining' (S attempt)
  end.

Definition acquireLockWithRetry (env : Env) (idempotencyKey : string)
  : Thread bool :=
  acquireLockLoop env idempotencyKey LOCK_MAX_RETRIES 0.

(** GET idempotency:key and JSON.parse; a failure reads as a miss. Only
    responses are written under these keys. *)
Definition getCachedResult (env : Env) (idempotencyKey : string)
    (R : gmap string RedisValue)
  : gmap string RedisValue * option TransferResponse :=
  if redisFault env OpGet then (R, None)
  else
    match Redis.get env (cacheKey idempotencyKey) R with
    | Some (Json r) => (R, Some r)
    | _ => (R, None)
    end.

(** SETEX idempotency:key ttl JSON.stringify(result) *)
Definition cacheResult (env : Env) (idempotencyKey : string)
    (result : TransferResponse) (R : gmap string RedisValue)
  : gmap string RedisValue * unit :=
  if redisFault env OpSetex then (R, tt)
  else (Redis.setex env (cacheKey idempotencyKey) (Json result) R, tt).

End RedisService.

(** ** The validators of the models ([models/TransactionLog.ts],
    [models/Wallet.ts]), as Sequelize runs them on [String(value)] *)

Module Validators.

Import JSNumber.

(** [isDecimal], which Sequelize defines over the one of validator.js by a
    pattern of its own: the string is not empty and is made of an integer
    part (an optional minus and at least one digit), a fraction (a point
    and any number of digits) and an exponent ([e] or [E], an optional
    sign, at least one digit), in this order and each of them optional. *)
Definition isDecimal (s : string) : bool :=
  let after_integer :=
    match s with
    | String "-" r =>
        let '(ip, t) := span_digits r in
        if is_empty ip then None else Some t
    | _ => Some (span_digits s).2
    end in
  match after_integer with
  | None => false
  | Some s1 =>
      let s2 :=
        match s1 with
        | String "." r => (span_digits r).2
        | _ => s1
        end in
      match s2 with
      | EmptyString => negb (is_empty s)
      | String c r =>
          if (Ascii.eqb c "e" || Ascii.eqb c "E")%bool then
            let '(_, r') := take_sign r in
            let '(ds, t) := span_digits r' in
            (negb (is_empty ds) && is_empty t)%bool
          else false
      end
  end.

(** [min: v], Sequelize's [isNaN(parseFloat(str)) || parseFloat(str) >= v]:
    [min: 0.0001] of the amount and [min: 0] of the balance. *)
Definition min_0_0001 (s : string) : bool :=
  let number := parseFloat s in
  (isNaN number || le lit_0_0001 number)%bool.

Definition min_0 (s : string) : bool :=
  let number := parseFloat s in
  (isNaN number || le zero number)%bool.

(** [notEmpty], [!str.match(/^[\s\t\r\n]*$/)]: not made of white space
    only. *)
Definition notEmpty (s : string) : bool := negb (is_empty (skip_space s)).

(** The length [isLength] of validator.js counts: the characters of the
    string, the variation selectors U+FE0E and U+FE0F left out. *)
Definition isLength_len (s : string) : nat :=
  (Utf8.code_points s - Utf8.variation_selectors s)%nat.

(** [len: [1, 255]] *)
Definition len_1_255 (s : string) : bool :=
  ((1 <=? isLength_len s) && (isLength_len s <=? 255))%nat.

(** The validators of [TransactionLog] that fail for an amount and a key. *)
Definition failures (amount idempotencyKey : string) : list string :=
  (if isDecimal amount then [] else ["Validation isDecimal on amount failed"])
  ++ (if min_0_0001 amount then [] else ["Validation min on amount failed"])
  ++ (if notEmpty idempotencyKey then []
      else ["Validation notEmpty on idempotencyKey failed"])
  ++ (if len_1_255 idempotencyKey then []
      else ["Validation len on idempotencyKey failed"]).

(** The validators of [Wallet] that fail for a balance. *)
Definition wallet_failures (balance : string) : list string :=
  (if isDecimal balance then [] else ["Validation isDecimal on balance failed"])
  ++ (if min_0 balance then [] else ["Validation min on balance failed"]).

Fixpoint join (l : list string) : string :=
  match l with
  | [] => ""
  | [m] => "Validation error: " +:+ m
  | m :: l' => "Validation error: " +:+ m +:+ "," +:+ String "010" (join l')
  end.

End Validators.

(** [TransactionLog.create(values, { transaction })]: the validators of the
    model, then the INSERT. The new row takes its [id] from UUIDV4 and its
    status PENDING. *)
Definition TransactionLog_create (env : Env) (from to amount key : string)
    (md : gmap string string) : Ledger.Tx TransactionLog.t :=
  match Validators.failures amount key with
  | [] => Ledger.insert_log env (uuidv4 env) from to amount key md
  | fs => Ledger.throw (OtherError "SequelizeValidationError" (Validators.join fs))
  end.

(** [wallet.update({ balance, version }, { transaction })]: the validators
    of the model on the new balance, then the UPDATE. *)
Definition Wallet_update (env : Env) (op : DbOp) (id balance : string)
    (version : Z) : Ledger.Tx unit :=
  match Validators.wallet_failures balance with
  | [] => Ledger.update_wallet env op id balance version
  | fs => Ledger.throw (OtherError "SequelizeValidationError" (Validators.join fs))
  end.

(** ** [TransferService] *)

Module TransferService.

Import JSNumber.

(** *** [validateTransferRequest] *)

Definition is_hex (c : ascii) : bool :=
  let n := N_of_ascii c in
  (((48 <=? n) && (n <=? 57)) || ((97 <=? n) && (n <=? 102))
   || ((65 <=? n) && (n <=? 70)))%N.

(** Exactly [n] hexadecimal digits, and what follows them. *)
Fixpoint hex_run (n : nat) (s : string) : option string :=
  match n with
  | O => Some s
  | S n' =>
      match s with
      | String c r => if is_hex c then hex_run n' r else None
      | EmptyString => None
      end
  end.

Definition dash (s : string) : option string :=
  match s with
  | String "-" r => Some r
  | _ => None
  end.

(** [/^[0-9a-f]{8}-[0-9a-f]{4}-[0-9a-f]{4}-[0-9a-f]{4}-[0-9a-f]{12}$/i] *)
Definition uuidRegex_test (s : string) : bool :=
  match s1 ← hex_run 8 s; s2 ← dash s1;
        s3 ← hex_run 4 s2; s4 ← dash s3;
        s5 ← hex_run 4 s4; s6 ← dash s5;
        s7 ← hex_run 4 s6; s8 ← dash s7;
        hex_run 12 s8 with
  | Some EmptyString => true
  | _ => false
  end.

(** The error [validateTransferRequest] throws, if any. A missing field
    and an empty one are both falsy. *)
Definition validateTransferRequest (request : TransferRequest) : option Error :=
  let fromWalletId := fromWalletId request in
  let toWalletId := toWalletId request in
  let amount := amount request in
  let idempotencyKey := idempotencyKey request in
  if (is_empty fromWalletId || is_empty toWalletId || is_empty amount
      || is_empty idempotencyKey)%bool then
    Some (TransferError "Missing required fields" 400 "INVALID_REQUEST")
  else if String.eqb fromWalletId toWalletId then
    Some (TransferError "Cannot transfer to the same wallet" 400
                        "SAME_WALLET_TRANSFER")
  else
    let amountNum := parseFloat amount in
    if (isNaN amountNum || le amountNum zero)%bool then
      Some (TransferError "Amount must be a positive number" 400
                          "INVALID_AMOUNT")
    else if lt amountNum lit_0_0001 then
      Some (TransferError "Amount must be at least 0.0001" 400
                          "AMOUNT_TOO_SMALL")
    else if (negb (uuidRegex_test fromWalletId)
             || negb (uuidRegex_test toWalletId))%bool then
      Some (TransferError "Invalid wallet ID format" 400 "INVALID_WALLET_ID")
    else None.

(** *** [buildResponseFromLog] *)

Definition buildResponseFromLog (log : TransactionLog.t) : TransferResponse :=
  let status := TransactionLog.status log in
  let baseResponse :=
    mkResponse
      (TransactionStatus_eqb status SUCCESS)
      (TransactionLog.id log)
      (if TransactionStatus_eqb status SUCCESS
       then "Transfer already processed (idempotent request)"
       else if TransactionStatus_eqb status PENDING
       then "Transfer is being processed"
       else "Transfer previously failed")
      None None in
  match TransactionStatus_eqb status SUCCESS, TransactionLog.metadata log with
  | true, Some metadata =>
      mkResponse (success baseResponse) (transactionId baseResponse)
                 (message baseResponse)
                 (metadata !! "fromBalanceAfter")
                 (metadata !! "toBalanceAfter")
  | _, _ => baseResponse
  end.

(** *** [markTransactionFailed]

    One UPDATE by [idempotencyKey], outside any transaction; a failure of
    the statement is logged and dropped. *)
Definition recordFailure (env : Env) (idempotencyKey errorMessage : string)
    (L : Ledger.t) : Ledger.t :=
  match Ledger.update_failed_where_key env idempotencyKey errorMessage L with
  | (L', inr _) => L'
  | (_, inl _) => L
  end.

Definition markTransactionFailed (env : Env) (idempotencyKey errorMessage : string)
  : Thread unit :=
  Thread.atomic (Thread.on_ledger (fun L =>
    (recordFailure env idempotencyKey errorMessage L, tt))).

(** *** The transaction callback of [executeTransfer] *)

(** Lock wallet rows in consistent order. *)
Definition lockOrder (fromWalletId toWalletId : string) : string * string :=
  if String.ltb fromWalletId toWalletId
  then (fromWalletId, toWalletId)
  else (toWalletId, fromWalletId).

(** Roles are resolved by matching the requested id against the first
    lock. *)
Definition resolve {A} (walletId firstLockId : string)
    (firstWallet secondWallet : A) : A :=
  if String.eqb walletId firstLockId then firstWallet else secondWallet.

(** [(fromBalanceNum - amountNum).toFixed(4)] and
    [(toBalanceNum + amountNum).toFixed(4)], each operand read with
    [parseFloat]. *)
Definition newFromBalance (fromBalance amount : string) : string :=
  toFixed4 (sub (parseFloat fromBalance) (parseFloat amount)).

Definition newToBalance (toBalance amount : string) : string :=
  toFixed4 (add (parseFloat toBalance) (parseFloat amount)).

Record Committed : Type := mkCommitted {
  c_transactionLog : TransactionLog.t;
  c_fromBalance : string;
  c_toBalance : string
}.

Definition transferCallback (env : Env) (request : TransferRequest)
  : Ledger.Tx Committed :=
  let fromWalletId := fromWalletId request in
  let toWalletId := toWalletId request in
  let amount := amount request in
  let idempotencyKey := idempotencyKey request in
  (* Create PENDING log entry *)
  transactionLog ←
    Ledger.catch
      (TransactionLog_create env fromWalletId toWalletId amount idempotencyKey
                             {[ "requestedAt" := isoNow env OpInsertLog ]})
      (fun error =>
         if String.eqb (error_name error) "SequelizeUniqueConstraintError"
         then Ledger.throw
                (TransferError "Duplicate request detected" 409 "DUPLICATE_REQUEST")
         else Ledger.throw error);
  (* Lock wallet rows in consistent order *)
  let '(firstLockId, secondLockId) := lockOrder fromWalletId toWalletId in
  firstWallet ← Ledger.findByPk env OpLockFirst firstLockId;
  secondWallet ← Ledger.findByPk env OpLockSecond secondLockId;
  let fromWallet := resolve fromWalletId firstLockId firstWallet secondWallet in
  let toWallet := resolve toWalletId firstLockId firstWallet secondWallet in
  match fromWallet, toWallet with
  | Some (fromId, fromWallet), Some (toId, toWallet) =>
      (* Validate sufficient balance *)
      let fromBalance := numeric_out (Wallet.balance fromWallet) in
      let fromBalanceNum := parseFloat fromBalance in
      let amountNum := parseFloat amount in
      if lt fromBalanceNum amountNum then
        Ledger.throw
          (TransferError
             ("Insufficient balance. Available: " +:+ fromBalance
              +:+ ", Required: " +:+ amount)
             400 "INSUFFICIENT_BALANCE")
      else
        (* Update balances *)
        let newFromBalance := newFromBalance fromBalance amount in
        let newToBalance :=
          newToBalance (numeric_out (Wallet.balance toWallet)) amount in
        Wallet_update env OpUpdateFrom fromId newFromBalance
                      (Wallet.version fromWallet + 1);;
        Wallet_update env OpUpdateTo toId newToBalance
                      (Wallet.version toWallet + 1);;
        (* Mark transaction SUCCESS *)
        let metadata :=
          <["toBalanceAfter" := newToBalance]>
            (<["fromBalanceAfter" := newFromBalance]>
               (<["completedAt" := isoNow env OpUpdateLog]>
                  (default ∅ (TransactionLog.metadata transactionLog)))) in
        Ledger.update_log env transactionLog SUCCESS metadata;;
        mret (mkCommitted transactionLog newFromBalance newToBalance)
  | _, _ =>
      Ledger.throw
        (TransferError "One or both wallets not found" 404 "WALLET_NOT_FOUND")
  end.

(** *** [executeTransfer] *)

Definition findOne (env : Env) (op : DbOp) (idempotencyKey : string)
  : Thread (option TransactionLog.t) :=
  Thread.statement (Ledger.findOne env op idempotencyKey).

Definition cacheResult (env : Env) (idempotencyKey : string)
    (result : TransferResponse) : Thread unit :=
  Thread.atomic (Thread.on_redis (RedisService.cacheResult env idempotencyKey result)).

Definition releaseLock (env : Env) (idempotencyKey : string) : Thread unit :=
  Thread.atomic (Thread.on_redis (RedisService.releaseLock env idempotencyKey)).

(** The reply rebuilt from a log found in the ledger; it is written to
    the cache before it is returned. *)
Definition replyFromLog (env : Env) (idempotencyKey : string)
    (existingTransaction : TransactionLog.t) : Thread TransferResponse :=
  let result := buildResponseFromLog existingTransaction in
  cacheResult env idempotencyKey result;;
  Ret result.

Definition CONCURRENT_PROCESSING : Error :=
  TransferError "Request is being processed by another instance. Please retry."
                409 "CONCURRENT_PROCESSING".

(** [if (!lockAcquired) { ... }]: the retry budget is spent. *)
Definition lockNotAcquired (env : Env) (request : TransferRequest)
  : Thread TransferResponse :=
  let idempotencyKey := idempotencyKey request in
  existingTransaction ← findOne env OpFallbackLookup idempotencyKey;
  match existingTransaction with
  | Some existingTransaction => replyFromLog env idempotencyKey existingTransaction
  | None => Throw CONCURRENT_PROCESSING
  end.

Definition successResponse (result : Committed) : TransferResponse :=
  mkResponse true
             (TransactionLog.id (c_transactionLog result))
             "Transfer completed successfully"
             (Some (c_fromBalance result))
             (Some (c_toBalance result)).

(** The [try] block: steps 3 to 5. *)
Definition tryBlock (env : Env) (request : TransferRequest)
  : Thread TransferResponse :=
  let idempotencyKey := idempotencyKey request in
  (* STEP 3: CHECK POSTGRESQL *)
  existingTransaction ← findOne env OpLookup idempotencyKey;
  match existingTransaction with
  | Some existingTransaction => replyFromLog env idempotencyKey existingTransaction
  | None =>
      (* STEP 4: EXECUTE TRANSFER *)
      result ← Thread.statement
                 (Ledger.transaction env (transferCallback env request));
      (* STEP 5: CACHE RESULT IN REDIS *)
      cacheResult env idempotencyKey (successResponse result);;
      Ret (successResponse result)
  end.

(** What the [catch] block throws for what it caught. *)
Definition rethrown (error : Error) : Error :=
  match error with
  | TransferError _ _ _ => error
  | OtherError _ m =>
      TransferError
        (if is_empty m then "Transfer failed due to unexpected error" else m)
        500 "TRANSFER_FAILED"
  end.

(** The [catch] block. *)
Definition catchBlock (env : Env) (request : TransferRequest) (error : Error)
  : Thread TransferResponse :=
  (* Mark transaction failed *)
  markTransactionFailed env (idempotencyKey request) (error_message error);;
  Throw (rethrown error).

Definition executeTransfer (env : Env) (request : TransferRequest)
  : Thread TransferResponse :=
  let idempotencyKey := idempotencyKey request in
  (* Input validation *)
  match validateTransferRequest request with
  | Some error => Throw error
  | None =>
  (* STEP 1: CHECK REDIS CACHE FIRST *)
  cachedResult ← Thread.atomic
                   (Thread.on_redis (RedisService.getCachedResult env idempotencyKey));
  match cachedResult with
  | Some cachedResult =>
      Ret (with_message cachedResult
             "Transfer already processed (idempotent request) (from cache)")
  | None =>
  (* STEP 2: ACQUIRE DISTRIBUTED LOCK *)
  lockAcquired ← RedisService.acquireLockWithRetry env idempotencyKey;
  if negb lockAcquired then lockNotAcquired env request
  else
    Thread.finally
      (Thread.try_catch (tryBlock env request) (catchBlock env request))
      (* STEP 6: ALWAYS RELEASE LOCK *)
      (releaseLock env idempotencyKey)
  end
  end.

End TransferService.

(** ** Several requests at once *)

Module Concurrent.

(** A move of the system: request [i] performs its next operation, or a
    key of the cache reaches the end of its TTL. *)
Inductive Move : Type :=
| Run (i : nat)
| Expire (key : string).

Definition State (A : Type) : Type := (World * list (Thread A))%type.

Definition move {A} (m : Move) (s : State A) : State A :=
  let '(w, pool) := s in
  match m with
  | Run i =>
      match pool !! i with
      | Some t =>
          let '(w', t') := Thread.advance t w in (w', <[i := t']> pool)
      | None => s
      end
  | Expire key => (set_redis (delete key (redis w)) w, pool)
  end.

Definition play {A} (ms : list Move) (s : State A) : State A :=
  fold_left (fun s m => move m s) ms s.

(** What a request has come to, once it has. *)
Definition outcome {A} (t : Thread A) : option (Error + A) :=
  match t with
  | Ret a => Some (inr a)
  | Throw e => Some (inl e)
  | Await _ _ => None
  end.

Definition outcomes {A} (s : State A) : list (option (Error + A)) :=
  outcome <$> snd s.

End Concurrent.

(** ** What a thread does to the wallets *)

Definition wallets_of (w : World) : gmap string Wallet.t :=
  Ledger.wallets (ledger w).

Definition logs_of (w : World) : list TransactionLog.t :=
  Ledger.logs (ledger w).

(** The response of a transfer that this very call has committed. *)
Definition fresh_success (r : TransferResponse) : Prop :=
  success r = true ∧ message r = "Transfer completed successfully".

(** [quiet t]: no operation of [t] changes a wallet. *)
Fixpoint quiet {A} (t : Thread A) : Prop :=
  match t with
  | Ret _ | Throw _ => True
  | Await op k =>
      ∀ w, wallets_of (fst (op w)) = wallets_of w ∧ quiet (k (snd (op w)))
  end.

(** [harmless c]: no operation of [c] changes a wallet, and [c] does not
    throw. *)
Fixpoint harmless {A} (c : Thread A) : Prop :=
  match c with
  | Ret _ => True
  | Throw _ => False
  | Await op k =>
      ∀ w, wallets_of (fst (op w)) = wallets_of w ∧ harmless (k (snd (op w)))
  end.

(** [settled t]: no operation of [t] changes a wallet, and [t] ends by
    returning a [fresh_success]. *)
Fixpoint settled (t : Thread TransferResponse) : Prop :=
  match t with
  | Ret r => fresh_success r
  | Throw _ => False
  | Await op k =>
      ∀ w, wallets_of (fst (op w)) = wallets_of w ∧ settled (k (snd (op w)))
  end.

(** [all_or_nothing t]: the only operation of [t] that changes a wallet, if
    there is one, is followed by a [settled] rest. *)
Fixpoint all_or_nothing (t : Thread TransferResponse) : Prop :=
  match t with
  | Ret _ | Throw _ => True
  | Await op k =>
      ∀ w, (wallets_of (fst (op w)) = wallets_of w
            ∧ all_or_nothing (k (snd (op w))))
           ∨ settled (k (snd (op w)))
  end.

(** [keeps I t]: every operation of [t] keeps the property [I] of the
    world. *)
Fixpoint keeps {A} (I : World → Prop) (t : Thread A) : Prop :=
  match t with
  | Ret _ | Throw _ => True
  | Await op k => ∀ w, (I w → I (op w).1) ∧ keeps I (k (op w).2)
  end.

(** No row of the log table is PENDING. *)
Definition terminal_logs (w : World) : Prop :=
  Forall (fun l => terminal (TransactionLog.status l) = true) (logs_of w).

(** ** The arithmetic the specification asks for

    Fixed-point at four fractional digits: balances and amounts are counts
    of ten-thousandths, subtracted and added exactly, and written back with
    exactly four fractional digits. *)

Module FixedPoint.

Definition newFromBalance (fromBalance amount : Z) : string :=
  JSNumber.numeric_out (fromBalance - amount).

Definition newToBalance (toBalance amount : Z) : string :=
  JSNumber.numeric_out (toBalance + amount).

End FixedPoint.

(** The sum of the balances of the wallets [W], in ten-thousandths. *)
Definition total_balance (W : list string) (w : World) : Z :=
  foldr (fun id acc => default 0 (Wallet.balance <$> wallets_of w !! id) + acc) 0 W.

(** ** Replays

    Two responses carry the same result when they agree on everything but
    the message. *)
Definition same_result (a b : TransferResponse) : Prop :=
  transactionId a = transactionId b
  ∧ success a = success b
  ∧ fromBalance a = fromBalance b
  ∧ toBalance a = toBalance b.

(** The transfer of [key] is on record with the result [r]: the log found
    for the key rebuilds [r], and so does the cache entry of the key when
    there is one. *)
Definition Completed (prefix key : string) (r : TransferResponse) (w : World)
  : Prop :=
  (∃ log, Ledger.lookup_key key (ledger w) = Some log
          ∧ same_result (TransferService.buildResponseFromLog log) r)
  ∧ (∀ c, redis w !! (prefix +:+ RedisService.cacheKey key) = Some (Json c) →
          same_result c r).

(** A later call: the request and its environment, and the cache keys
    whose TTL has run out since the call before it. *)
Record Call : Type := mkCall {
  expired : list string;
  call_env : Env;
  call_request : TransferRequest
}.

Definition expire (keys : list string) (w : World) : World :=
  set_redis (foldr delete (redis w) keys) w.

(** Calls made one after another, each with its own environment. *)
Fixpoint run_calls (calls : list Call) (w : World)
  : World * list (Error + TransferResponse) :=
  match calls with
  | [] => (w, [])
  | call :: rest =>
      let '(w1, o) :=
        Thread.run
          (TransferService.executeTransfer (call_env call) (call_request call))
          (expire (expired call) w) in
      let '(w2, os) := run_calls rest w1 in
      (w2, o :: os)
  end.

(** ** What a committed transfer writes

    The row the transaction inserts, and the metadata it gives it when it
    marks it SUCCESS. *)

Definition pendingRow (env : Env) (request : TransferRequest) (a : Z)
  : TransactionLog.t :=
  TransactionLog.mk (uuidv4 env)
    (Ledger.uuid_in (fromWalletId request)) (Ledger.uuid_in (toWalletId request))
    a PENDING (idempotencyKey request) None
    (Some {[ "requestedAt" := isoNow env OpInsertLog ]}).

Definition successMetadata (env : Env) (c : TransferService.Committed)
  : gmap string string :=
  <["toBalanceAfter" := TransferService.c_toBalance c]>
    (<["fromBalanceAfter" := TransferService.c_fromBalance c]>
       (<["completedAt" := isoNow env OpUpdateLog]>
          {[ "requestedAt" := isoNow env OpInsertLog ]})).

(** [untouched p k w w']: from [w] to [w'] the log found for [k] and the
    cache entry of [k] have not changed. *)
Definition untouched (p k : string) (w w' : World) : Prop :=
  Ledger.lookup_key k (ledger w') = Ledger.lookup_key k (ledger w)
  ∧ redis w' !! (p +:+ RedisService.cacheKey k)
    = redis w !! (p +:+ RedisService.cacheKey k).

(** A later call is orderly for the key [k] when it uses the key prefix
    [p] of the deployment and, if it is a replay of [k] that passes
    validation, its ledger lookups go through. *)
Definition orderly (p k : string) (call : Call) : Prop :=
  keyPrefix (call_env call) = p
  ∧ (idempotencyKey (call_request call) = k →
     TransferService.validateTransferRequest (call_request call) = None →
     dbFault (call_env call) OpLookup = None
     ∧ dbFault (call_env call) OpFallbackLookup = None).

(** The outcome [o] of a later call replays [r] when, the call having the
    key [k] and a request that passes validation, it is a response with
    the result of [r]. *)
Definition replays (k : string) (r : TransferResponse)
    (call : Call) (o : Error + TransferResponse) : Prop :=
  idempotencyKey (call_request call) = k →
  TransferService.validateTransferRequest (call_request call) = None →
  ∃ r', o = inr r' ∧ success r' = true ∧ same_result r' r.

(** ** Concrete stores and requests

    The wallets of the seed scripts and of the test suite, and the requests
    of the scenarios. *)

Module Examples.

Definition alice : string := "11111111-1111-1111-1111-111111111112".
Definition bob : string := "22222222-2222-2222-2222-222222222222".

(** An environment without faults, with the identifier the next log row
    will take. *)
Definition env_ok (uuid : string) : Env :=
  mkEnv (fun _ => "1700000000000") (fun _ => "2024-01-01T00:00:00.000Z")
        uuid "wallet:" (fun _ => false) (fun _ => None).

(** The same for a request that starts at another time. *)
Definition env_at (stamp uuid : string) : Env :=
  mkEnv (fun _ => stamp) (fun _ => "2024-01-01T00:00:31.000Z")
        uuid "wallet:" (fun _ => false) (fun _ => None).

(** The same with Redis unreachable: every command fails. *)
Definition env_no_redis (uuid : string) : Env :=
  mkEnv (fun _ => "1700000000000") (fun _ => "2024-01-01T00:00:00.000Z")
        uuid "wallet:" (fun _ => true) (fun _ => None).

Definition id1 : string := "aaaaaaaa-0000-4000-8000-000000000001".
Definition id2 : string := "aaaaaaaa-0000-4000-8000-000000000002".
Definition id3 : string := "aaaaaaaa-0000-4000-8000-000000000003".

(** Two wallets with the given balances (in ten-thousandths), no log, an
    empty cache. *)
Definition two_wallets (a b : Z) : World :=
  mkWorld
    (Ledger.mk (<[alice := Wallet.mk "alice" a 0]>
                  (<[bob := Wallet.mk "bob" b 0]> ∅)) [])
    ∅.

(** alice 1000.0000, bob 500.0000 *)
Definition seeded : World := two_wallets 10000000 5000000.

Definition balance_of (id : string) (w : World) : option Z :=
  Wallet.balance <$> wallets_of w !! id.

Definition version_of (id : string) (w : World) : option Z :=
  Wallet.version <$> wallets_of w !! id.

Definition status_of (key : string) (w : World) : option TransactionStatus :=
  TransactionLog.status <$> Ledger.lookup_key key (ledger w).

(** A lookup that fails on its own (the pool gives no connection in
    time), for a request that finds Redis unreachable as well. *)
Definition env_lookup_fault (uuid : string) : Env :=
  mkEnv (fun _ => "1700000000000") (fun _ => "2024-01-01T00:00:05.000Z")
        uuid "wallet:" (fun _ => true)
        (fun op => match op with
                   | OpLookup =>
                       Some (OtherError "SequelizeConnectionAcquireTimeoutError"
                                        "Operation timeout")
                   | _ => None
                   end).

(** Scenario 1 and what may follow it: the transfer "t1", then a replay
    served from the cache, another transfer, and a replay rebuilt from
    the ledger while Redis is unreachable. *)
Definition t1_request : TransferRequest :=
  mkRequest alice bob "100.0000" "t1".

Definition t1_response : TransferResponse :=
  mkResponse true id1 "Transfer completed successfully"
             (Some "900.0000") (Some "600.0000").

Definition after_t1 : World :=
  (Thread.run (TransferService.executeTransfer (env_ok id1) t1_request) seeded).1.

Definition later_calls : list Call :=
  [mkCall [] (env_ok id2) t1_request;
   mkCall [] (env_ok id3) (mkRequest bob alice "50.0000" "t2");
   mkCall [] (env_no_redis id2) t1_request;
   mkCall ["wallet:idempotency:t1"] (env_ok id2) t1_request].

(** ['k'.repeat(n)] *)
Fixpoint repeat_k (n : nat) : string :=
  match n with
  | O => EmptyString
  | S n' => String "k" (repeat_k n')
  end.

(** A ledger in which a log for the key "c1" is still PENDING, while
    another request holds the lease of that key. *)
Definition pending_log : TransactionLog.t :=
  TransactionLog.mk id1 alice bob 1000000 PENDING "c1" None
    (Some {[ "requestedAt" := "2024-01-01T00:00:00.000Z" ]}).

Definition pending_and_held : World :=
  mkWorld
    (Ledger.mk (<[alice := Wallet.mk "alice" 10000000 0]>
                  (<[bob := Wallet.mk "bob" 5000000 0]> ∅))
               [pending_log])
    {[ "wallet:lock:c1" := Text "1699999999000" ]}.

End Examples.

(** ** The rest of [RedisService] *)

(** [invalidateCache]: DEL idempotency:key; a Redis failure is logged and
    dropped. *)
Definition invalidateCache (env : Env) (idempotencyKey : string)
    (R : gmap string RedisValue) : gmap string RedisValue * unit :=
  if redisFault env OpDel then (R, tt)
  else (Redis.del env (RedisService.cacheKey idempotencyKey) R, tt).

(** The number of store operations a request performs when it runs alone. *)
Fixpoint operations {A} (t : Thread A) (w : World) : nat :=
  match t with
  | Ret _ | Throw _ => O
  | Await op k => let '(w', x) := op w in S (operations (k x) w')
  end.

(** ** The transport: [TransferController.transfer] and [errorHandler] *)

Module Http.

(** The JSON body of a reply: a transfer response, or the error document
    [{ success: false, error: { code, message } }]. *)
Inductive Body : Type :=
| Result (r : TransferResponse)
| Failure (code : string) (message : string).

Record Response : Type := mkHttp {
  status : Z;
  body : Body
}.

(** [errorHandler(err, req, res, next)], for a process started with the
    given NODE_ENV. The errors of this model carry no [errors] array, so
    the [details] of a validation error are undefined and left out of the
    document. *)
Definition errorHandler (NODE_ENV : string) (err : Error) : Response :=
  match err with
  | TransferError message statusCode code =>
      mkHttp statusCode
             (Failure (if JSNumber.is_empty code then "TRANSFER_ERROR" else code)
                      message)
  | OtherError name message =>
      if String.eqb name "SequelizeValidationError" then
        mkHttp 400 (Failure "VALIDATION_ERROR" "Invalid request data")
      else if String.eqb name "SequelizeUniqueConstraintError" then
        mkHttp 409 (Failure "DUPLICATE_ENTRY" "Resource already exists")
      else
        mkHttp 500
               (Failure "INTERNAL_ERROR"
                        (if String.eqb NODE_ENV "production"
                         then "An unexpected error occurred"
                         else message))
  end.

(** The fields of [req.body] that the controller reads, each a string or
    absent. *)
Record TransferBody : Type := mkBody {
  b_fromWalletId : option string;
  b_toWalletId : option string;
  b_amount : option string;
  b_idempotencyKey : option string
}.

(** The [TransferRequest] the controller builds; an absent field is
    [undefined], which the service treats as it treats the empty string. *)
Definition transferRequest (b : TransferBody) : TransferRequest :=
  mkRequest (default "" (b_fromWalletId b)) (default "" (b_toWalletId b))
            (default "" (b_amount b)) (default "" (b_idempotencyKey b)).

(** [TransferController.transfer]: 200 or 400 after the [success] flag of
    the result, and any thrown error handed to [errorHandler]. *)
Definition transfer (env : Env) (NODE_ENV : string) (b : TransferBody)
  : Thread Response :=
  Thread.try_catch
    (result ← TransferService.executeTransfer env (transferRequest b);
     let statusCode := if success result then 200 else 400 in
     Ret (mkHttp statusCode (Result result)))
    (fun error => Ret (errorHandler NODE_ENV error)).

End Http.

(** ** Properties of worlds and environments *)

(** [quiet_where P t]: no operation of [t] changes a wallet when it starts
    in a world where [P] holds. *)
Fixpoint quiet_where {A} (P : World → Prop) (t : Thread A) : Prop :=
  match t with
  | Ret _ | Throw _ => True
  | Await op k =>
      ∀ w, (P w → wallets_of (op w).1 = wallets_of w)
           ∧ quiet_where P (k (op w).2)
  end.

(** The key has a log already. *)
Definition key_used (key : string) (w : World) : Prop :=
  Ledger.has_log_key key (ledger w) = true.

(** No two logs share an idempotency key. *)
Definition unique_keys (w : World) : Prop :=
  NoDup (TransactionLog.idempotencyKey <$> logs_of w).

(** The faults of the ledger connection are errors of the driver, not
    [TransferError]s. *)
Definition raw_faults (env : Env) : Prop :=
  ∀ op e, dbFault env op = Some e → ∃ n m, e = OtherError n m.

(** The requests of several clients, each with its own environment, as they
    start. *)
Definition requests (calls : list (Env * TransferRequest))
  : list (Thread TransferResponse) :=
  (fun call => TransferService.executeTransfer call.1 call.2) <$> calls.

(** A wallet whose id has letters, the same id as a client may write it
    in upper case, and a ledger that holds this wallet alone. *)
Definition carol : string := "abcdef00-0000-4000-8000-00000000000c".
Definition CAROL : string := "ABCDEF00-0000-4000-8000-00000000000C".

Definition one_wallet (balance : Z) : World :=
  mkWorld (Ledger.mk {[ carol := Wallet.mk "carol" balance 0 ]} []) ∅.

(** The status and code of the [TransferError]s that [executeTransfer]
    is found to throw. *)
Definition thrown_codes : list (Z * string) :=
  [(400, "INVALID_REQUEST"); (400, "SAME_WALLET_TRANSFER");
   (400, "INVALID_AMOUNT"); (400, "AMOUNT_TOO_SMALL");
   (400, "INVALID_WALLET_ID"); (400, "INSUFFICIENT_BALANCE");
   (409, "CONCURRENT_PROCESSING"); (409, "DUPLICATE_REQUEST");
   (500, "TRANSFER_FAILED")].

(** The environment of a call with Redis answering every command, all
    else being the same. *)
Definition redis_up (env : Env) : Env :=
  mkEnv (lockStamp env) (isoNow env) (uuidv4 env) (keyPrefix env)
        (fun _ => false) (dbFault env).

(** [once key t]: [t] has not committed a transfer. The one operation
    after which it has, its rest being [settled], starts in a ledger
    without a log of [key] and leaves a ledger with one. *)
Fixpoint once (key : string) (t : Thread TransferResponse) : Prop :=
  match t with
  | Ret r => ¬ fresh_success r
  | Throw _ => True
  | Await op k =>
      ∀ w, once key (k (op w).2)
           ∨ (settled (k (op w).2)
              ∧ ¬ key_used key w ∧ key_used key (op w).1)
  end.

(** The keys of the requests of a pool, in the order of the pool. *)
Definition keys_of (calls : list (Env * TransferRequest)) : list string :=
  (fun call => idempotencyKey call.2) <$> calls.

(** The state of a pool as to [key]: every request keeps the log of [key]
    once there is one; of the requests with this key, the one that has
    committed, if there is one ([c]), is [settled], and the others have not
    committed; and if one has committed, the ledger has a log of [key]. *)
Definition one_commit (key : string) (keys : list string) (c : option nat)
    (s : Concurrent.State TransferResponse) : Prop :=
  Forall (keeps (key_used key)) s.2
  ∧ (∀ n t, s.2 !! n = Some t → keys !! n = Some key →
            if decide (c = Some n) then settled t else once key t)
  ∧ (is_Some c → key_used key s.1).

(** ['é'.repeat(n)], two octets to the character. *)
Fixpoint repeat_e_acute (n : nat) : string :=
  match n with
  | O => EmptyString
  | S n' => String (ascii_of_N 195) (String (ascii_of_N 169) (repeat_e_acute n'))
  end.

(** Replays of "t1" around an outage: a replay that finds Redis
    unreachable and whose ledger lookup times out, then, the cache entry
    of "t1" having run out and both stores being in order again, two more
    replays. *)
Definition replays_around_outage : list Call :=
  [mkCall [] (Examples.env_lookup_fault Examples.id2) Examples.t1_request;
   mkCall ["wallet:idempotency:t1"] (Examples.env_ok Examples.id3)
          Examples.t1_request;
   mkCall [] (Examples.env_ok Examples.id3) Examples.t1_request].

(** The two wallets of the seed script and the wallet of carol. *)
Definition three_wallets : World :=
  mkWorld
    (Ledger.mk (<[carol := Wallet.mk "carol" 70000 0]>
                  (wallets_of Examples.seeded)) [])
    ∅.

(** * Properties *)

(** ** Threads *)

Lemma run_bind {A B} (t : Thread A) (k : A → Thread B) (w : World) :
  Thread.run (Thread.bind t k) w =
  match Thread.run t w with
  | (w', inr a) => Thread.run (k a) w'
  | (w', inl e) => (w', inl e)
  end.
Proof.
  revert w. induction t as [a | e | X op k' IH]; intros w; simpl; try done.
  destruct (op w) as [w' x]. apply IH.
Qed.

Lemma run_try_catch {A} (t : Thread A) (h : Error → Thread A) (w : World) :
  Thread.run (Thread.try_catch t h) w =
  match Thread.run t w with
  | (w', inr a) => (w', inr a)
  | (w', inl e) => Thread.run (h e) w'
  end.
Proof.
  revert w. induction t as [a | e | X op k' IH]; intros w; simpl; try done.
  destruct (op w) as [w' x]. apply IH.
Qed.

Lemma run_finally {A} (t : Thread A) (c : Thread unit) (w : World) :
  Thread.run (Thread.finally t c) w =
  match Thread.run t w with
  | (w', o) =>
      match Thread.run c w' with
      | (w'', inr _) => (w'', o)
      | (w'', inl e) => (w'', inl e)
      end
  end.
Proof.
  revert w. induction t as [a | e | X op k' IH]; intros w; simpl.
  - rewrite run_bind. destruct (Thread.run c w) as [w' [e | []]]; done.
  - rewrite run_bind. destruct (Thread.run c w) as [w' [e' | []]]; done.
  - destruct (op w) as [w' x]. apply IH.
Qed.

(** ** Which operations touch the wallets *)

Lemma harmless_quiet {A} (t : Thread A) : harmless t → quiet t.
Proof.
  induction t as [a | e | X op k IH]; simpl; try done.
  intros H w. destruct (H w) as [Hw Hk]. split; [done | by apply IH].
Qed.

Lemma quiet_bind {A B} (t : Thread A) (k : A → Thread B) :
  quiet t → (∀ a, quiet (k a)) → quiet (Thread.bind t k).
Proof.
  intros Ht Hk. induction t as [a | e | X op k' IH]; simpl; try done.
  intros w. destruct (Ht w) as [Hw Hrest]. split; [done | by apply IH].
Qed.

Lemma harmless_bind {A B} (t : Thread A) (k : A → Thread B) :
  harmless t → (∀ a, harmless (k a)) → harmless (Thread.bind t k).
Proof.
  intros Ht Hk. induction t as [a | e | X op k' IH]; simpl; try done.
  intros w. destruct (Ht w) as [Hw Hrest]. split; [done | by apply IH].
Qed.

Lemma quiet_try_catch {A} (t : Thread A) (h : Error → Thread A) :
  quiet t → (∀ e, quiet (h e)) → quiet (Thread.try_catch t h).
Proof.
  intros Ht Hh. induction t as [a | e | X op k' IH]; simpl; try done.
  intros w. destruct (Ht w) as [Hw Hrest]. split; [done | by apply IH].
Qed.

Lemma quiet_all_or_nothing (t : Thread TransferResponse) :
  quiet t → all_or_nothing t.
Proof.
  induction t as [a | e | X op k IH]; simpl; try done.
  intros H w. left. destruct (H w) as [Hw Hk]. split; [done | by apply IH].
Qed.

Lemma settled_all_or_nothing (t : Thread TransferResponse) :
  settled t → all_or_nothing t.
Proof.
  induction t as [a | e | X op k IH]; simpl; try done.
  intros H w. left. destruct (H w) as [Hw Hk]. split; [done | by apply IH].
Qed.

Lemma all_or_nothing_bind {A} (t : Thread A) (k : A → Thread TransferResponse) :
  quiet t → (∀ a, all_or_nothing (k a)) → all_or_nothing (Thread.bind t k).
Proof.
  intros Ht Hk. induction t as [a | e | X op k' IH]; simpl; try done.
  intros w. left. destruct (Ht w) as [Hw Hrest]. split; [done | by apply IH].
Qed.

Lemma settled_bind {A} (t : Thread A) (k : A → Thread TransferResponse) :
  harmless t → (∀ a, settled (k a)) → settled (Thread.bind t k).
Proof.
  intros Ht Hk. induction t as [a | e | X op k' IH]; simpl; try done.
  intros w. destruct (Ht w) as [Hw Hrest]. split; [done | by apply IH].
Qed.

Lemma settled_try_catch (t : Thread TransferResponse) h :
  settled t → settled (Thread.try_catch t h).
Proof.
  induction t as [a | e | X op k IH]; simpl; try done.
  intros H w. destruct (H w) as [Hw Hk]. split; [done | by apply IH].
Qed.

Lemma all_or_nothing_try_catch (t : Thread TransferResponse) h :
  all_or_nothing t → (∀ e, quiet (h e)) → all_or_nothing (Thread.try_catch t h).
Proof.
  intros Ht Hh. induction t as [a | e | X op k IH]; simpl; try done.
  - by apply quiet_all_or_nothing.
  - intros w. destruct (Ht w) as [[Hw Hk] | Hk].
    + left. split; [done | by apply IH].
    + right. by apply settled_try_catch.
Qed.

Lemma settled_finally (t : Thread TransferResponse) (c : Thread unit) :
  settled t → harmless c → settled (Thread.finally t c).
Proof.
  intros Ht Hc. induction t as [a | e | X op k IH]; simpl; try done.
  - apply settled_bind; [done | by intros []].
  - intros w. destruct (Ht w) as [Hw Hk]. split; [done | by apply IH].
Qed.

Lemma all_or_nothing_finally (t : Thread TransferResponse) (c : Thread unit) :
  all_or_nothing t → harmless c → all_or_nothing (Thread.finally t c).
Proof.
  intros Ht Hc. induction t as [a | e | X op k IH]; simpl.
  - apply quiet_all_or_nothing, quiet_bind; [by apply harmless_quiet | done].
  - apply quiet_all_or_nothing, quiet_bind; [by apply harmless_quiet | done].
  - intros w. destruct (Ht w) as [[Hw Hk] | Hk].
    + left. split; [done | by apply IH].
    + right. by apply settled_finally.
Qed.

Ltac same_wallets :=
  unfold wallets_of, logs_of, set_ledger, set_redis; simpl; try done.

Lemma harmless_on_redis {X}
    (f : gmap string RedisValue → gmap string RedisValue * X) :
  harmless (Thread.atomic (Thread.on_redis f)).
Proof.
  intros w. unfold Thread.on_redis. by destruct (f (redis w)).
Qed.

Lemma quiet_on_redis {X}
    (f : gmap string RedisValue → gmap string RedisValue * X) :
  quiet (Thread.atomic (Thread.on_redis f)).
Proof. apply harmless_quiet, harmless_on_redis. Qed.

Lemma quiet_acquireLockLoop env key remaining attempt :
  quiet (RedisService.acquireLockLoop env key remaining attempt).
Proof.
  revert attempt. induction remaining as [| n IH]; intros attempt; simpl; [done |].
  intros w. unfold Thread.on_redis.
  destruct (RedisService.acquireLock env attempt key (redis w)) as [R [] ]; simpl.
  - done.
  - split; [done |]. intros w'. split; [done | apply IH].
Qed.

Lemma quiet_findOne env op key : quiet (TransferService.findOne env op key).
Proof.
  intros w. unfold Thread.on_ledger, Ledger.findOne, Ledger.bind, Ledger.fault.
  destruct (dbFault env op); same_wallets.
Qed.

Lemma harmless_markTransactionFailed env key msg :
  harmless (TransferService.markTransactionFailed env key msg).
Proof.
  intros w. unfold Thread.on_ledger, TransferService.recordFailure,
    Ledger.update_failed_where_key, Ledger.bind, Ledger.fault.
  destruct (dbFault env OpMarkFailed); same_wallets.
Qed.

(** A rolled-back transaction leaves the whole ledger as it was. *)
Lemma transaction_rollback {A} env (callback : Ledger.Tx A) L L' e :
  Ledger.transaction env callback L = (L', inl e) → L' = L.
Proof.
  unfold Ledger.transaction. intros H.
  destruct (dbFault env OpBegin); [by inversion H |].
  destruct (callback L) as [L1 [e1 | a]]; [by inversion H |].
  destruct (dbFault env OpCommit); by inversion H.
Qed.

(** The transaction is the one operation that may change wallets: when it
    does, it has committed, and what follows it decides the outcome. *)
Lemma all_or_nothing_transaction {A} env (callback : Ledger.Tx A)
    (k : A → Thread TransferResponse) :
  (∀ a, settled (k a)) →
  all_or_nothing
    (Thread.bind (Thread.statement (Ledger.transaction env callback)) k).
Proof.
  intros Hk. simpl. intros w. unfold Thread.on_ledger.
  destruct (Ledger.transaction env callback (ledger w)) as [L' [e | c]] eqn:Htx;
    simpl.
  - left. apply transaction_rollback in Htx. subst L'.
    split; [by destruct w | done].
  - right. apply Hk.
Qed.

Lemma quiet_replyFromLog env key log :
  quiet (TransferService.replyFromLog env key log).
Proof. apply quiet_bind; [apply quiet_on_redis | done]. Qed.

Lemma quiet_lockNotAcquired env request :
  quiet (TransferService.lockNotAcquired env request).
Proof.
  apply quiet_bind; [apply quiet_findOne |].
  intros [existing |]; [apply quiet_replyFromLog | done].
Qed.

Lemma quiet_catchBlock env request e :
  quiet (TransferService.catchBlock env request e).
Proof.
  apply quiet_bind; [| done].
  apply harmless_quiet, harmless_markTransactionFailed.
Qed.

Lemma tryBlock_all_or_nothing env request :
  all_or_nothing (TransferService.tryBlock env request).
Proof.
  apply all_or_nothing_bind; [apply quiet_findOne |].
  intros [existing |].
  - apply quiet_all_or_nothing, quiet_replyFromLog.
  - apply all_or_nothing_transaction. intros c.
    apply settled_bind; [apply harmless_on_redis |].
    intros _. by split.
Qed.

Lemma executeTransfer_all_or_nothing env request :
  all_or_nothing (TransferService.executeTransfer env request).
Proof.
  unfold TransferService.executeTransfer.
  destruct (TransferService.validateTransferRequest request); [done |].
  apply all_or_nothing_bind; [apply quiet_on_redis |].
  intros [cached |]; [done |].
  apply all_or_nothing_bind; [apply quiet_acquireLockLoop |].
  intros [|]; simpl negb; cbv iota.
  - apply all_or_nothing_finally; [| apply harmless_on_redis].
    apply all_or_nothing_try_catch;
      [apply tryBlock_all_or_nothing | apply quiet_catchBlock].
  - apply quiet_all_or_nothing, quiet_lockNotAcquired.
Qed.

(** ** Atomicity of a transfer *)

Lemma settled_run (t : Thread TransferResponse) (w : World) :
  settled t →
  ∃ w' r, Thread.run t w = (w', inr r) ∧ fresh_success r
          ∧ wallets_of w' = wallets_of w.
Proof.
  revert w. induction t as [r | e | X op k IH]; intros w; simpl; try done.
  - intros Hr. by exists w, r.
  - intros H. destruct (H w) as [Hw Hk]. destruct (op w) as [w1 x]. simpl in *.
    destruct (IH x w1 Hk) as (w' & r & Hrun & Hr & Hw').
    exists w', r. by rewrite Hrun, Hw', Hw.
Qed.

Lemma all_or_nothing_run (t : Thread TransferResponse) (w w' : World) o :
  all_or_nothing t →
  Thread.run t w = (w', o) →
  match o with
  | inl _ => wallets_of w' = wallets_of w
  | inr r => wallets_of w' = wallets_of w ∨ fresh_success r
  end.
Proof.
  revert w. induction t as [r | e | X op k IH]; intros w; simpl.
  - intros _ [= <- <-]. by left.
  - by intros _ [= <- <-].
  - intros H Hrun. destruct (H w) as [[Hw Hk] | Hk];
      destruct (op w) as [w1 x]; simpl in *.
    + specialize (IH x w1 Hk Hrun). rewrite <- Hw.
      destruct o; [done | by destruct IH; [left | right]].
    + destruct (settled_run _ w1 Hk) as (w2 & r & Hrun' & Hr & _).
      rewrite Hrun in Hrun'. inversion Hrun'; subst. by right.
Qed.

(** C1. Whenever [executeTransfer] fails, with whatever error and at
    whatever point, every wallet (balance and version) is after the call
    what it was before it; and a call after which some wallet differs has
    returned the response of a transfer it has itself committed. *)
Theorem transfer_atomicity env request (w w' : World) o :
  Thread.run (TransferService.executeTransfer env request) w = (w', o) →
  (∀ e, o = inl e → wallets_of w' = wallets_of w)
  ∧ (wallets_of w' ≠ wallets_of w → ∃ r, o = inr r ∧ fresh_success r).
Proof.
  intros Hrun.
  pose proof (all_or_nothing_run _ w w' o
                (executeTransfer_all_or_nothing env request) Hrun) as H.
  split.
  - intros e ->. exact H.
  - intros Hne. destruct o as [e | r]; [done |].
    destruct H as [H | H]; [done | by exists r].
Qed.

(** A transfer that fails after the source wallet has been rewritten: bob
    holds 999999999999999.0000, and one more unit does not fit the column.
    The debit of alice is undone with the rest. *)
Lemma transfer_atomicity_witness :
  let w := Examples.two_wallets 10000000 9999999999999990000 in
  let request := mkRequest Examples.alice Examples.bob "1.0000" "overflow" in
  let res := Thread.run
               (TransferService.executeTransfer (Examples.env_ok Examples.id1) request) w in
  res.2 = inl (TransferError "numeric field overflow" 500 "TRANSFER_FAILED")
  ∧ wallets_of res.1 = wallets_of w.
Proof.
  intros w request res. split; [vm_compute; reflexivity |].
  apply (proj1 (transfer_atomicity (Examples.env_ok Examples.id1) request w
                  res.1 res.2 ltac:(vm_compute; reflexivity))
               (TransferError "numeric field overflow" 500 "TRANSFER_FAILED")).
  vm_compute; reflexivity.
Defined.

(** ** The order of the two row locks *)

Lemma string_lt_total (a b : string) :
  a ≠ b →
  (String.ltb a b = true ∧ String.ltb b a = false)
  ∨ (String.ltb a b = false ∧ String.ltb b a = true).
Proof.
  intros Hne. unfold String.ltb.
  rewrite (String.compare_antisym b a).
  destruct (String.compare a b) eqn:Hc; simpl.
  - by apply String.compare_eq_iff in Hc.
  - by left.
  - by right.
Qed.

Lemma resolve_first {A} (a : string) (x y : A) :
  TransferService.resolve a a x y = x.
Proof. unfold TransferService.resolve. by rewrite String.eqb_refl. Qed.

Lemma resolve_second {A} (a b : string) (x y : A) :
  a ≠ b → TransferService.resolve a b x y = y.
Proof.
  intros Hne. unfold TransferService.resolve.
  by destruct (String.eqb_spec a b).
Qed.

(** C8. For two distinct wallet ids the first lock is the smaller id and
    the second the larger, whichever of the two is the source: the pair of
    locks of a transfer a→b is the pair of the transfer b→a. The roles are
    then found again by matching the requested ids against the first lock:
    the source is the row read for [a], the destination the row read for
    [b]. *)
Theorem lockOrder_direction_independent (a b : string) :
  a ≠ b →
  TransferService.lockOrder a b = TransferService.lockOrder b a
  ∧ String.ltb (TransferService.lockOrder a b).1
               (TransferService.lockOrder a b).2 = true
  ∧ (TransferService.lockOrder a b = (a, b)
     ∨ TransferService.lockOrder a b = (b, a))
  ∧ ∀ (A : Type) (row : string → A),
      let '(firstLockId, secondLockId) := TransferService.lockOrder a b in
      TransferService.resolve a firstLockId (row firstLockId) (row secondLockId)
      = row a
      ∧ TransferService.resolve b firstLockId (row firstLockId) (row secondLockId)
        = row b.
Proof.
  intros Hne. unfold TransferService.lockOrder.
  destruct (string_lt_total a b Hne) as [[Hab Hba] | [Hab Hba]].
  - rewrite Hab, Hba. repeat split; simpl; try done; try (by left).
    + by apply resolve_first.
    + by apply resolve_second.
  - rewrite Hab, Hba. repeat split; simpl; try done; try (by right).
    + by apply resolve_second.
    + by apply resolve_first.
Qed.

Lemma lockOrder_direction_independent_witness :
  TransferService.lockOrder Examples.alice Examples.bob
  = TransferService.lockOrder Examples.bob Examples.alice
  ∧ TransferService.lockOrder Examples.bob Examples.alice
    = (Examples.alice, Examples.bob).
Proof.
  split; [| reflexivity].
  apply (lockOrder_direction_independent Examples.alice Examples.bob).
  by vm_compute.
Defined.

(** ** Releasing the lease *)

(** C10. [releaseLock] deletes the key [lock:{key}] (under the prefix of the
    client) whatever value is stored under it and whoever stored it. When
    the DEL command goes through, that key is absent afterwards, the store
    that results does not depend on the value that was there, and no other
    key is touched; so the lease that another request has just taken with
    [acquireLock], under its own stamp, is gone after the release. *)
Theorem releaseLock_no_ownership_check env key (R : gmap string RedisValue) :
  redisFault env OpDel = false →
  (RedisService.releaseLock env key R).1 !! (keyPrefix env +:+ "lock:" +:+ key)
  = None
  ∧ (∀ v, (RedisService.releaseLock env key
             (<[keyPrefix env +:+ "lock:" +:+ key := v]> R)).1
          = (RedisService.releaseLock env key R).1)
  ∧ (∀ k, k ≠ keyPrefix env +:+ "lock:" +:+ key →
          (RedisService.releaseLock env key R).1 !! k = R !! k)
  ∧ (∀ env' attempt R',
       keyPrefix env' = keyPrefix env →
       redisFault env' (OpSetNX attempt) = false →
       RedisService.acquireLock env' attempt key R = (R', true) →
       R' !! (keyPrefix env +:+ "lock:" +:+ key)
       = Some (Text (lockStamp env' attempt))
       ∧ (RedisService.releaseLock env key R').1
           !! (keyPrefix env +:+ "lock:" +:+ key) = None).
Proof.
  intros Hok. unfold RedisService.releaseLock, Redis.del, RedisService.lockKey.
  rewrite Hok. cbn [fst]. split; [| split; [| split]].
  - apply lookup_delete_eq.
  - intros v. apply delete_insert_eq.
  - intros k Hk. by apply lookup_delete_ne.
  - intros env' attempt R' Hprefix Hset Hacquired. split.
    + unfold RedisService.acquireLock, Redis.set_nx, RedisService.lockKey
        in Hacquired.
      rewrite Hset, Hprefix in Hacquired.
      destruct (R !! _); [done |]. injection Hacquired as <-.
      apply lookup_insert_eq.
    + apply lookup_delete_eq.
Qed.

Lemma releaseLock_no_ownership_check_witness :
  (RedisService.releaseLock (Examples.env_ok Examples.id1) "t1"
     {[ "wallet:lock:t1" := Text "1699999999999" ]}).1 !! "wallet:lock:t1"
  = None.
Proof.
  exact (proj1 (releaseLock_no_ownership_check (Examples.env_ok Examples.id1)
                  "t1" {[ "wallet:lock:t1" := Text "1699999999999" ]}
                  eq_refl)).
Defined.

(** A release by one request removes the lease of another. The first
    request takes the lease and outlives its TTL; the second takes the
    lease anew; the first completes and deletes the key while the second is
    still inside its locked section. *)
Example release_removes_foreign_lease :
  let t1 := TransferService.executeTransfer
              (Examples.env_at "1700000000000" Examples.id1)
              (mkRequest Examples.alice Examples.bob "100.0000" "t1") in
  let t2 := TransferService.executeTransfer
              (Examples.env_at "1700000031000" Examples.id2)
              (mkRequest Examples.alice Examples.bob "100.0000" "t1") in
  let held :=
    Concurrent.play
      [Concurrent.Run 0; Concurrent.Run 0;
       Concurrent.Expire "wallet:lock:t1";
       Concurrent.Run 1; Concurrent.Run 1;
       Concurrent.Run 0; Concurrent.Run 0; Concurrent.Run 0]
      (Examples.seeded, [t1; t2]) in
  let released := Concurrent.play [Concurrent.Run 0] held in
  redis held.1 !! "wallet:lock:t1" = Some (Text "1700000031000")
  ∧ redis released.1 !! "wallet:lock:t1" = None
  ∧ Concurrent.outcomes released
    = [Some (inr (mkResponse true Examples.id1 "Transfer completed successfully"
                             (Some "900.0000") (Some "600.0000")));
       None].
Proof. vm_compute. done. Qed.

(** ** The lease loop *)

Lemma set_redis_same (w : World) : set_redis (redis w) w = w.
Proof. by destruct w. Qed.

Lemma set_ledger_same (w : World) : set_ledger (ledger w) w = w.
Proof. by destruct w. Qed.

(** While another holder keeps the key and Redis answers, all attempts fail
    and the store is left as it was. *)
Lemma acquireLockLoop_held env key remaining attempt (w : World) :
  is_Some (Redis.get env (RedisService.lockKey key) (redis w)) →
  (∀ n, redisFault env (OpSetNX n) = false) →
  Thread.run (RedisService.acquireLockLoop env key remaining attempt) w
  = (w, inr false).
Proof.
  intros [v Hv] Hok. revert attempt.
  induction remaining as [| n IH]; intros attempt; simpl; [done |].
  unfold Thread.on_redis, RedisService.acquireLock, Redis.set_nx.
  rewrite Hok. unfold Redis.get in Hv. rewrite Hv. simpl.
  rewrite set_redis_same. apply IH.
Qed.

(** Whatever happens, the loop ends, and it writes nothing but the lock
    key. *)
Lemma acquireLockLoop_run env key remaining attempt (w : World) :
  ∃ R b,
    Thread.run (RedisService.acquireLockLoop env key remaining attempt) w
    = (set_redis R w, inr b)
    ∧ ∀ k, k ≠ keyPrefix env +:+ RedisService.lockKey key →
           R !! k = redis w !! k.
Proof.
  revert attempt w. induction remaining as [| n IH]; intros attempt w; simpl.
  - exists (redis w), false. by rewrite set_redis_same.
  - unfold Thread.on_redis, RedisService.acquireLock, Redis.set_nx.
    destruct (redisFault env (OpSetNX attempt)); simpl.
    { exists (redis w), true. by rewrite set_redis_same. }
    destruct (redis w !! (keyPrefix env +:+ RedisService.lockKey key)) eqn:Hl; simpl.
    + rewrite set_redis_same. apply IH.
    + eexists _, true. split; [done |].
      intros k Hk. by rewrite lookup_insert_ne.
Qed.

(** ** The sequential run of a request, block by block *)

Arguments RedisService.acquireLockWithRetry : simpl never.

Lemma run_atomic {X} (op : World → World * X) (w : World) :
  Thread.run (Thread.atomic op) w = ((op w).1, inr (op w).2).
Proof. simpl. by destruct (op w). Qed.

Lemma run_findOne env op key (w : World) :
  Thread.run (TransferService.findOne env op key) w =
  match dbFault env op with
  | Some e => (w, inl e)
  | None => (w, inr (Ledger.lookup_key key (ledger w)))
  end.
Proof.
  unfold TransferService.findOne, Thread.statement, Thread.on_ledger,
    Ledger.findOne, Ledger.bind, Ledger.fault. simpl.
  destruct (dbFault env op); simpl; by rewrite set_ledger_same.
Qed.

Lemma run_replyFromLog env key log (w : World) :
  Thread.run (TransferService.replyFromLog env key log) w =
  (set_redis (RedisService.cacheResult env key
                (TransferService.buildResponseFromLog log) (redis w)).1 w,
   inr (TransferService.buildResponseFromLog log)).
Proof.
  unfold TransferService.replyFromLog, TransferService.cacheResult. simpl.
  unfold Thread.on_redis. by destruct (RedisService.cacheResult _ _ _ _).
Qed.

Lemma run_lockNotAcquired env request (w : World) :
  Thread.run (TransferService.lockNotAcquired env request) w =
  match dbFault env OpFallbackLookup with
  | Some e => (w, inl e)
  | None =>
      match Ledger.lookup_key (idempotencyKey request) (ledger w) with
      | Some log =>
          Thread.run (TransferService.replyFromLog env (idempotencyKey request) log) w
      | None => (w, inl TransferService.CONCURRENT_PROCESSING)
      end
  end.
Proof.
  unfold TransferService.lockNotAcquired, mbind, Thread_bind.
  rewrite run_bind, run_findOne.
  destruct (dbFault env OpFallbackLookup); [done |].
  by destruct (Ledger.lookup_key _ _).
Qed.

Lemma run_catchBlock env request e (w : World) :
  Thread.run (TransferService.catchBlock env request e) w =
  (set_ledger (TransferService.recordFailure env (idempotencyKey request)
                 (error_message e) (ledger w)) w,
   inl (TransferService.rethrown e)).
Proof. done. Qed.

Lemma run_tryBlock env request (w : World) :
  Thread.run (TransferService.tryBlock env request) w =
  match dbFault env OpLookup with
  | Some e => (w, inl e)
  | None =>
      match Ledger.lookup_key (idempotencyKey request) (ledger w) with
      | Some log =>
          Thread.run (TransferService.replyFromLog env (idempotencyKey request) log) w
      | None =>
          match Ledger.transaction env
                  (TransferService.transferCallback env request) (ledger w) with
          | (L, inr c) =>
              (set_redis (RedisService.cacheResult env (idempotencyKey request)
                            (TransferService.successResponse c)
                            (redis w)).1 (set_ledger L w),
               inr (TransferService.successResponse c))
          | (L, inl e) => (set_ledger L w, inl e)
          end
      end
  end.
Proof.
  unfold TransferService.tryBlock, mbind, Thread_bind.
  rewrite run_bind, run_findOne.
  destruct (dbFault env OpLookup); [done |].
  destruct (Ledger.lookup_key _ _); [done |].
  simpl. unfold Thread.on_ledger.
  destruct (Ledger.transaction _ _ _) as [L [e | c]]; simpl; [done |].
  unfold Thread.on_redis. by destruct (RedisService.cacheResult _ _ _ _).
Qed.

Lemma run_releaseLock env key (w : World) :
  Thread.run (TransferService.releaseLock env key) w =
  (set_redis (RedisService.releaseLock env key (redis w)).1 w, inr tt).
Proof.
  unfold TransferService.releaseLock. simpl. unfold Thread.on_redis.
  by destruct (RedisService.releaseLock _ _ _) as [R []].
Qed.

(** The locked section: the [try] block, the [catch] block on a throw, and
    the release of the lease in either case. *)
Lemma run_lockAcquired env request (w : World) :
  Thread.run
    (Thread.finally
       (Thread.try_catch (TransferService.tryBlock env request)
                         (TransferService.catchBlock env request))
       (TransferService.releaseLock env (idempotencyKey request))) w =
  match Thread.run (TransferService.tryBlock env request) w with
  | (w1, inr r) =>
      (set_redis (RedisService.releaseLock env (idempotencyKey request)
                    (redis w1)).1 w1, inr r)
  | (w1, inl e) =>
      (set_redis (RedisService.releaseLock env (idempotencyKey request)
                    (redis w1)).1
         (set_ledger (TransferService.recordFailure env (idempotencyKey request)
                        (error_message e) (ledger w1)) w1),
       inl (TransferService.rethrown e))
  end.
Proof.
  rewrite run_finally, run_try_catch.
  destruct (Thread.run (TransferService.tryBlock env request) w) as [w1 [e | r]].
  - rewrite run_catchBlock, run_releaseLock. done.
  - rewrite run_releaseLock. done.
Qed.

Lemma run_executeTransfer env request (w : World) :
  Thread.run (TransferService.executeTransfer env request) w =
  match TransferService.validateTransferRequest request with
  | Some e => (w, inl e)
  | None =>
      match (RedisService.getCachedResult env (idempotencyKey request) (redis w)).2 with
      | Some cachedResult =>
          (w, inr (with_message cachedResult
                     "Transfer already processed (idempotent request) (from cache)"))
      | None =>
          match Thread.run (RedisService.acquireLockWithRetry env
                              (idempotencyKey request)) w with
          | (w1, inr true) =>
              Thread.run
                (Thread.finally
                   (Thread.try_catch (TransferService.tryBlock env request)
                                     (TransferService.catchBlock env request))
                   (TransferService.releaseLock env (idempotencyKey request))) w1
          | (w1, inr false) =>
              Thread.run (TransferService.lockNotAcquired env request) w1
          | (w1, inl e) => (w1, inl e)
          end
      end
  end.
Proof.
  unfold TransferService.executeTransfer.
  destruct (TransferService.validateTransferRequest request); [done |].
  unfold mbind, Thread_bind. rewrite run_bind, run_atomic.
  unfold Thread.on_redis, RedisService.getCachedResult.
  destruct (redisFault env OpGet); cbn [fst snd].
  - rewrite set_redis_same, run_bind.
    destruct (Thread.run _ w) as [w1 [e | [|]]]; done.
  - destruct (Redis.get _ _ _) as [[s | r] |]; cbn [fst snd];
      rewrite set_redis_same; try done; rewrite run_bind;
      destruct (Thread.run _ w) as [w1 [e | [|]]]; done.
Qed.

(** ** The fallback after an exhausted retry budget *)

(** The fallback on any store, rows written otherwise included. A request
    that finds nothing in the cache and
    spends its whole retry budget against a lease held by another (Redis
    answering every attempt) looks the key up in the ledger: it returns the
    reply rebuilt from whatever log it finds, PENDING included, after
    writing that reply to the cache, and fails with CONCURRENT_PROCESSING
    (409) exactly when there is no log for the key. *)
Theorem fallback_returns_any_log env request (w : World) :
  let key := idempotencyKey request in
  TransferService.validateTransferRequest request = None →
  (RedisService.getCachedResult env key (redis w)).2 = None →
  is_Some (Redis.get env (RedisService.lockKey key) (redis w)) →
  (∀ n, redisFault env (OpSetNX n) = false) →
  dbFault env OpFallbackLookup = None →
  Thread.run (TransferService.executeTransfer env request) w =
  match Ledger.lookup_key key (ledger w) with
  | Some log =>
      let result := TransferService.buildResponseFromLog log in
      (set_redis (RedisService.cacheResult env key result (redis w)).1 w,
       inr result)
  | None =>
      (w, inl (TransferError
                 "Request is being processed by another instance. Please retry."
                 409 "CONCURRENT_PROCESSING"))
  end.
Proof.
  intros key Hvalid Hmiss Hheld Hok Hdb.
  rewrite run_executeTransfer, Hvalid. fold key. rewrite Hmiss.
  unfold RedisService.acquireLockWithRetry.
  rewrite acquireLockLoop_held by done.
  rewrite run_lockNotAcquired, Hdb. fold key.
  destruct (Ledger.lookup_key key (ledger w)); [| done].
  by rewrite run_replyFromLog.
Qed.

Lemma fallback_returns_any_log_witness :
  Thread.run
    (TransferService.executeTransfer (Examples.env_ok Examples.id2)
       (mkRequest Examples.alice Examples.bob "100.0000" "c2"))
    (set_redis {[ "wallet:lock:c2" := Text "1699999999000" ]} Examples.seeded)
  = (set_redis {[ "wallet:lock:c2" := Text "1699999999000" ]} Examples.seeded,
     inl (TransferError
            "Request is being processed by another instance. Please retry."
            409 "CONCURRENT_PROCESSING")).
Proof.
  apply (fallback_returns_any_log (Examples.env_ok Examples.id2)
           (mkRequest Examples.alice Examples.bob "100.0000" "c2")).
  - vm_compute. reflexivity.
  - vm_compute. reflexivity.
  - vm_compute. eauto.
  - reflexivity.
  - reflexivity.
Defined.

(** On a store with a PENDING row that [executeTransfer] has not written
    (PENDING is the default of the column), the fallback returns and
    caches the reply rebuilt from it. No run of the service leaves such a
    row ([executeTransfer_keeps_terminal]). *)
Lemma fallback_returns_pending_log :
  let request := mkRequest Examples.alice Examples.bob "100.0000" "c1" in
  let res := Thread.run
               (TransferService.executeTransfer (Examples.env_ok Examples.id2) request)
               Examples.pending_and_held in
  (terminal <$> Examples.status_of "c1" Examples.pending_and_held) = Some false
  ∧ res.2 = inr (mkResponse false Examples.id1 "Transfer is being processed"
                            None None)
  ∧ res.2 ≠ inl TransferService.CONCURRENT_PROCESSING
  ∧ redis res.1 !! "wallet:idempotency:c1"
    = Some (Json (mkResponse false Examples.id1 "Transfer is being processed"
                             None None)).
Proof. vm_compute. repeat split; done. Qed.

(** ** Over-long idempotency keys *)

Lemma lookup_key_None key L :
  Ledger.lookup_key key L = None → Ledger.has_log_key key L = false.
Proof.
  unfold Ledger.lookup_key, Ledger.has_log_key.
  induction (Ledger.logs L) as [| l ls IH]; simpl; [done |].
  destruct (String.eqb _ key); [done | exact IH].
Qed.

Lemma map_log_key_absent key f ls :
  existsb (fun l => String.eqb (TransactionLog.idempotencyKey l) key) ls = false →
  Ledger.map_log_key key f ls = ls.
Proof.
  unfold Ledger.map_log_key.
  induction ls as [| l ls IH]; simpl; [done |].
  destruct (String.eqb _ key); simpl; [done |].
  intros H. by rewrite IH.
Qed.

(** With no log under the key there is nothing for the failure recorder to
    rewrite. *)
Lemma recordFailure_absent env key msg L :
  Ledger.lookup_key key L = None →
  TransferService.recordFailure env key msg L = L.
Proof.
  intros H. apply lookup_key_None in H.
  unfold TransferService.recordFailure, Ledger.update_failed_where_key,
    Ledger.bind, Ledger.fault.
  destruct (dbFault env OpMarkFailed); [done |].
  unfold Ledger.has_log_key in H. rewrite map_log_key_absent by done.
  by destruct L.
Qed.

Lemma validator_ignores_key_length request key :
  JSNumber.is_empty key = JSNumber.is_empty (idempotencyKey request) →
  TransferService.validateTransferRequest (with_key request key)
  = TransferService.validateTransferRequest request.
Proof.
  intros H. unfold TransferService.validateTransferRequest, with_key. simpl.
  by rewrite H.
Qed.

Lemma join_not_empty m fs : JSNumber.is_empty (Validators.join (m :: fs)) = false.
Proof. simpl. by destruct fs. Qed.

(** A free lease is taken at the first attempt. *)
Lemma acquireLockLoop_free env key remaining attempt (w : World) :
  Redis.get env (RedisService.lockKey key) (redis w) = None →
  redisFault env (OpSetNX attempt) = false →
  Thread.run (RedisService.acquireLockLoop env key (S remaining) attempt) w
  = (set_redis (<[keyPrefix env +:+ RedisService.lockKey key
                  := Text (lockStamp env attempt)]> (redis w)) w, inr true).
Proof.
  intros Hfree Hok. cbn [RedisService.acquireLockLoop].
  unfold mbind, Thread_bind. rewrite run_bind, run_atomic.
  unfold Thread.on_redis, RedisService.acquireLock, Redis.set_nx.
  unfold Redis.get in Hfree. by rewrite Hok, Hfree.
Qed.

(** C9, on the code. [validateTransferRequest] reads of the idempotency
    key whether it is empty and nothing else. A request whose key is longer
    than 255 octets gets from it the verdict that the same request gets
    with a key of one character: no request is rejected for the length of
    its key, and one that is otherwise valid passes. *)
Theorem overlong_key_not_rejected request :
  (255 < String.length (idempotencyKey request))%nat →
  TransferService.validateTransferRequest request
  = TransferService.validateTransferRequest (with_key request "k").
Proof.
  intros Hlen. symmetry. apply validator_ignores_key_length.
  destruct (idempotencyKey request); [simpl in Hlen; lia | done].
Qed.

Lemma overlong_key_not_rejected_witness :
  TransferService.validateTransferRequest
    (mkRequest Examples.alice Examples.bob "100.0000" (Examples.repeat_k 256))
  = None.
Proof.
  etransitivity.
  - apply (overlong_key_not_rejected
             (mkRequest Examples.alice Examples.bob "100.0000"
                        (Examples.repeat_k 256))).
    vm_compute. lia.
  - vm_compute. reflexivity.
Defined.

(** What becomes of such a request. With a key of 256 characters it passes
    the validator, goes through the cache lookup, the lease and the ledger
    lookup, and is refused inside the transaction by the [len: [1, 255]]
    validator of the model: the error is a 500 TRANSFER_FAILED, not a 400
    INVALID_REQUEST. *)
Example overlong_key_passes_validation :
  let request := mkRequest Examples.alice Examples.bob "100.0000"
                           (Examples.repeat_k 256) in
  String.length (idempotencyKey request) = 256%nat
  ∧ TransferService.validateTransferRequest request = None
  ∧ (Thread.run
       (TransferService.executeTransfer (Examples.env_ok Examples.id1) request)
       Examples.seeded).2
    = inl (TransferError "Validation error: Validation len on idempotencyKey failed"
                         500 "TRANSFER_FAILED").
Proof. vm_compute. done. Qed.

(** With a key of 400 octets that are 200 characters it is not refused at
    all: [len] and the VARCHAR(255) column count characters, and the
    transfer is committed. *)
Example key_of_400_octets_commits :
  let request := mkRequest Examples.alice Examples.bob "100.0000"
                           (repeat_e_acute 200) in
  let res := Thread.run
               (TransferService.executeTransfer (Examples.env_ok Examples.id1)
                  request) Examples.seeded in
  String.length (idempotencyKey request) = 400%nat
  ∧ res.2 = inr (mkResponse true Examples.id1 "Transfer completed successfully"
                            (Some "900.0000") (Some "600.0000"))
  ∧ Examples.status_of (repeat_e_acute 200) res.1 = Some SUCCESS
  ∧ Examples.balance_of Examples.alice res.1 = Some 9000000.
Proof. vm_compute. done. Qed.

(** ** The log of a failed transfer *)

(** A call that fails for a key without a log leaves the whole ledger as it
    was: the PENDING row goes with the rolled-back transaction, and the
    UPDATE of the failure recorder finds no row. *)
Lemma failed_transfer_leaves_ledger env request (w w' : World) e :
  Ledger.lookup_key (idempotencyKey request) (ledger w) = None →
  Thread.run (TransferService.executeTransfer env request) w = (w', inl e) →
  ledger w' = ledger w.
Proof.
  intros Hnolog. rewrite run_executeTransfer.
  destruct (TransferService.validateTransferRequest request);
    [by intros [= <- _] |].
  destruct (RedisService.getCachedResult _ _ _).2; [done |].
  unfold RedisService.acquireLockWithRetry.
  destruct (acquireLockLoop_run env (idempotencyKey request)
              RedisService.LOCK_MAX_RETRIES 0 w) as (R & b & -> & _).
  destruct b.
  - rewrite run_lockAcquired, run_tryBlock.
    destruct (dbFault env OpLookup).
    { intros [= <- _]. cbn [ledger set_redis set_ledger].
      by rewrite recordFailure_absent. }
    cbn [ledger set_redis]. rewrite Hnolog.
    destruct (Ledger.transaction _ _ _) as [L [e' | c]] eqn:Htx; [| done].
    apply transaction_rollback in Htx. subst L.
    intros [= <- _]. cbn [ledger set_redis set_ledger].
    by rewrite recordFailure_absent.
  - rewrite run_lockNotAcquired.
    destruct (dbFault env OpFallbackLookup); [by intros [= <- _] |].
    cbn [ledger set_redis]. rewrite Hnolog. by intros [= <- _].
Qed.

(** C3, on the code. Scenario 5: alice holds 500.0000 and is asked to send
    2000.0000 under the key "i1". The call is rejected with
    INSUFFICIENT_BALANCE and the message that names both amounts, and
    afterwards the ledger holds no log at all for "i1", FAILED or other. *)
Theorem failed_transfer_leaves_no_log :
  let w := Examples.two_wallets 5000000 10000000 in
  let request := mkRequest Examples.alice Examples.bob "2000.0000" "i1" in
  let res := Thread.run
               (TransferService.executeTransfer (Examples.env_ok Examples.id1) request) w in
  res.2 = inl (TransferError
                 "Insufficient balance. Available: 500.0000, Required: 2000.0000"
                 400 "INSUFFICIENT_BALANCE")
  ∧ Ledger.lookup_key "i1" (ledger res.1) = None
  ∧ logs_of res.1 = []
  ∧ wallets_of res.1 = wallets_of w.
Proof. vm_compute. done. Qed.

(** ** Arithmetic on the money path *)

(** C5, on the code. alice holds 10000000000000.0001 and sends 1.0000.
    [parseFloat] reads her balance as 10000000000000 (the binary64 values
    around it are 0.001953125 apart), so the balance written back and
    returned is 9999999999999.0000, where fixed-point arithmetic gives
    9999999999999.0001. *)
Theorem float_arithmetic_not_exact :
  let fromBalance := 100000000000000001 in
  let amount := 10000 in
  let w := Examples.two_wallets fromBalance 0 in
  let request := mkRequest Examples.alice Examples.bob "1.0000" "p2" in
  let res := Thread.run
               (TransferService.executeTransfer (Examples.env_ok Examples.id1) request) w in
  JSNumber.numeric_out fromBalance = "10000000000000.0001"
  ∧ TransferService.newFromBalance (JSNumber.numeric_out fromBalance) "1.0000"
    = "9999999999999.0000"
  ∧ FixedPoint.newFromBalance fromBalance amount = "9999999999999.0001"
  ∧ res.2 = inr (mkResponse true Examples.id1 "Transfer completed successfully"
                            (Some "9999999999999.0000") (Some "1.0000"))
  ∧ Examples.balance_of Examples.alice res.1 = Some 99999999999990000.
Proof. vm_compute. done. Qed.

(** The balance check goes through the same rounding: with the same balance
    alice can send 10000000000000.0002, one ten-thousandth more than she
    holds. *)
Example float_comparison_not_exact :
  let w := Examples.two_wallets 100000000000000001 0 in
  let request := mkRequest Examples.alice Examples.bob "10000000000000.0002" "p3" in
  let res := Thread.run
               (TransferService.executeTransfer (Examples.env_ok Examples.id1) request) w in
  res.2 = inr (mkResponse true Examples.id1 "Transfer completed successfully"
                          (Some "0.0000") (Some "10000000000000.0000")).
Proof. vm_compute. done. Qed.

(** Scenario 6 of the specification, where the two arithmetics agree. *)
Example precision_scenario :
  let request := mkRequest Examples.alice Examples.bob "123.4567" "p1" in
  let res := Thread.run
               (TransferService.executeTransfer (Examples.env_ok Examples.id1) request)
               Examples.seeded in
  res.2 = inr (mkResponse true Examples.id1 "Transfer completed successfully"
                          (Some "876.5433") (Some "623.4567"))
  ∧ FixedPoint.newFromBalance 10000000 1234567 = "876.5433"
  ∧ FixedPoint.newToBalance 5000000 1234567 = "623.4567".
Proof. vm_compute. done. Qed.

(** ** Conservation of value *)

(** C6, on the code. The same transfer: before it alice and bob hold
    10000000000000.0001 between them, after it 10000000000000.0000. The
    source has lost 1.0001 and the destination gained 1.0000. *)
Theorem transfer_does_not_conserve :
  let W := [Examples.alice; Examples.bob] in
  let w := Examples.two_wallets 100000000000000001 0 in
  let request := mkRequest Examples.alice Examples.bob "1.0000" "p2" in
  let res := Thread.run
               (TransferService.executeTransfer (Examples.env_ok Examples.id1) request) w in
  success <$> (match res.2 with inr r => Some r | inl _ => None end) = Some true
  ∧ total_balance W w = 100000000000000001
  ∧ total_balance W res.1 = 100000000000000000
  ∧ Examples.balance_of Examples.alice res.1 = Some (100000000000000001 - 10001)
  ∧ Examples.balance_of Examples.bob res.1 = Some (0 + 10000).
Proof. vm_compute. done. Qed.

(** With ordinary balances the sum moves as well when the amount has more
    than four fractional digits, which the validator lets through: of
    0.00015 the source (1000.0000) loses 0.0001 and the destination
    (500.0000) gains 0.0002. *)
Example transfer_does_not_conserve_small :
  let W := [Examples.alice; Examples.bob] in
  let request := mkRequest Examples.alice Examples.bob "0.00015" "p4" in
  let res := Thread.run
               (TransferService.executeTransfer (Examples.env_ok Examples.id1) request)
               Examples.seeded in
  res.2 = inr (mkResponse true Examples.id1 "Transfer completed successfully"
                          (Some "999.9999") (Some "500.0002"))
  ∧ total_balance W Examples.seeded = 15000000
  ∧ total_balance W res.1 = 15000001.
Proof. vm_compute. done. Qed.

(** ** Terminal states of a log *)

(** C2, on the code. Two requests with the same key while Redis is
    unreachable, so that both leases fail open: both look the key up before
    either has inserted its row. The first then commits; the second meets
    the unique index, fails with DUPLICATE_REQUEST, and its failure
    recorder rewrites the committed SUCCESS row of the first to FAILED. *)
Theorem duplicate_request_overwrites_success :
  let request := mkRequest Examples.alice Examples.bob "100.0000" "t1" in
  let t1 := TransferService.executeTransfer (Examples.env_no_redis Examples.id1) request in
  let t2 := TransferService.executeTransfer (Examples.env_no_redis Examples.id2) request in
  let committed :=
    Concurrent.play
      [Concurrent.Run 0; Concurrent.Run 0; Concurrent.Run 0;
       Concurrent.Run 1; Concurrent.Run 1; Concurrent.Run 1;
       Concurrent.Run 0; Concurrent.Run 0; Concurrent.Run 0]
      (Examples.seeded, [t1; t2]) in
  let final :=
    Concurrent.play [Concurrent.Run 1; Concurrent.Run 1; Concurrent.Run 1]
                    committed in
  Examples.status_of "t1" committed.1 = Some SUCCESS
  ∧ Concurrent.outcomes final
    = [Some (inr (mkResponse true Examples.id1 "Transfer completed successfully"
                             (Some "900.0000") (Some "600.0000")));
       Some (inl (TransferError "Duplicate request detected" 409
                                "DUPLICATE_REQUEST"))]
  ∧ Examples.status_of "t1" final.1 = Some FAILED
  ∧ (TransactionLog.errorMessage <$> Ledger.lookup_key "t1" (ledger final.1))
    = Some (Some "Duplicate request detected")
  ∧ Examples.balance_of Examples.alice final.1 = Some 9000000
  ∧ Examples.balance_of Examples.bob final.1 = Some 6000000.
Proof. vm_compute. done. Qed.

(** The same with Redis in order, when the lease of the first request runs
    out (its TTL is 30 s) between its lookup and its transaction. *)
Example duplicate_after_lease_expiry :
  let request := mkRequest Examples.alice Examples.bob "100.0000" "t1" in
  let t1 := TransferService.executeTransfer
              (Examples.env_at "1700000000000" Examples.id1) request in
  let t2 := TransferService.executeTransfer
              (Examples.env_at "1700000031000" Examples.id2) request in
  let final :=
    Concurrent.play
      [Concurrent.Run 0; Concurrent.Run 0; Concurrent.Run 0;
       Concurrent.Expire "wallet:lock:t1";
       Concurrent.Run 1; Concurrent.Run 1; Concurrent.Run 1;
       Concurrent.Run 0; Concurrent.Run 0; Concurrent.Run 0;
       Concurrent.Run 1; Concurrent.Run 1; Concurrent.Run 1]
      (Examples.seeded, [t1; t2]) in
  Concurrent.outcomes final
  = [Some (inr Examples.t1_response);
     Some (inl (TransferError "Duplicate request detected" 409
                              "DUPLICATE_REQUEST"))]
  ∧ Examples.status_of "t1" final.1 = Some FAILED
  ∧ Examples.balance_of Examples.alice final.1 = Some 9000000.
Proof. vm_compute. done. Qed.

(** The same rewrite without a second request in flight: a replay whose
    ledger lookup fails on its own ends in the [catch] block, which marks
    the key's log FAILED although it was SUCCESS. *)
Example lookup_fault_overwrites_success :
  let request := mkRequest Examples.alice Examples.bob "100.0000" "t1" in
  let first := Thread.run
                 (TransferService.executeTransfer (Examples.env_ok Examples.id1) request)
                 Examples.seeded in
  let second := Thread.run
                  (TransferService.executeTransfer
                     (Examples.env_lookup_fault Examples.id2) request)
                  first.1 in
  Examples.status_of "t1" first.1 = Some SUCCESS
  ∧ second.2 = inl (TransferError "Operation timeout" 500 "TRANSFER_FAILED")
  ∧ Examples.status_of "t1" second.1 = Some FAILED.
Proof. vm_compute. done. Qed.

(** ** What a committed transfer writes to the log table *)

Lemma bind_inr {A B} (m : Ledger.Tx A) (k : A → Ledger.Tx B) L L' b :
  Ledger.bind m k L = (L', inr b) →
  ∃ a L1, m L = (L1, inr a) ∧ k a L1 = (L', inr b).
Proof.
  unfold Ledger.bind. destruct (m L) as [L1 [e | a]]; [done |]. by eauto.
Qed.

Lemma fault_inr env op L L' u :
  Ledger.fault env op L = (L', inr u) → L' = L.
Proof.
  unfold Ledger.fault. destruct (dbFault env op); [done |]. by intros [= ->].
Qed.

Lemma insert_log_inr env id from to amount key md L L' row :
  Ledger.insert_log env id from to amount key md L = (L', inr row) →
  ∃ a,
    Ledger.has_log_id id L = false
    ∧ Ledger.has_log_key key L = false
    ∧ row = TransactionLog.mk id (Ledger.uuid_in from) (Ledger.uuid_in to) a
                              PENDING key None (Some md)
    ∧ Ledger.logs L' = (Ledger.logs L ++ [row])%list.
Proof.
  unfold Ledger.insert_log. intros H.
  apply bind_inr in H as (u & L1 & Hf & H). apply fault_inr in Hf. subst L1.
  destruct (Utf8.has_nul key); [done |].
  destruct (JSNumber.numeric_in amount) as [a |]; [| done].
  destruct (255 <? Utf8.code_points key)%nat; [done |].
  destruct (Ledger.has_log_id id L) eqn:Hid; [done |].
  destruct (Ledger.has_log_key key L) eqn:Hkey; [done |].
  simpl in H. destruct (negb _); [done |].
  injection H as <- <-. by exists a.
Qed.

Lemma findByPk_inr env op id L L' x :
  Ledger.findByPk env op id L = (L', inr x) → L' = L.
Proof.
  unfold Ledger.findByPk. intros H.
  apply bind_inr in H as (u & L1 & Hf & H). apply fault_inr in Hf. subst L1.
  by injection H as <- _.
Qed.

Lemma update_wallet_inr env op id balance version L L' u :
  Ledger.update_wallet env op id balance version L = (L', inr u) →
  Ledger.logs L' = Ledger.logs L.
Proof.
  unfold Ledger.update_wallet. intros H.
  apply bind_inr in H as (u' & L1 & Hf & H). apply fault_inr in Hf. subst L1.
  destruct (JSNumber.numeric_in balance); [| done].
  destruct (2147483647 <? version); [done |].
  by injection H as <-.
Qed.

Lemma Wallet_update_inr env op id balance version L L' u :
  Wallet_update env op id balance version L = (L', inr u) →
  Ledger.update_wallet env op id balance version L = (L', inr u).
Proof.
  unfold Wallet_update. by destruct (Validators.wallet_failures balance).
Qed.

Lemma update_log_inr env l s md L L' u :
  Ledger.update_log env l s md L = (L', inr u) →
  Ledger.logs L'
  = Ledger.map_log_id (TransactionLog.id l)
      (TransactionLog.set_status_metadata s (Some md)) (Ledger.logs L).
Proof.
  unfold Ledger.update_log. intros H.
  apply bind_inr in H as (u' & L1 & Hf & H). apply fault_inr in Hf. subst L1.
  by injection H as <-.
Qed.

Lemma TransactionLog_create_inr env from to amount key md L L' row :
  Ledger.catch
    (TransactionLog_create env from to amount key md)
    (fun error =>
       if String.eqb (error_name error) "SequelizeUniqueConstraintError"
       then Ledger.throw
              (TransferError "Duplicate request detected" 409 "DUPLICATE_REQUEST")
       else Ledger.throw error) L = (L', inr row) →
  Ledger.insert_log env (uuidv4 env) from to amount key md L = (L', inr row).
Proof.
  unfold Ledger.catch, TransactionLog_create.
  destruct (Validators.failures amount key).
  - destruct (Ledger.insert_log _ _ _ _ _ _ _ L) as [L1 [e | a]]; [| done].
    unfold Ledger.throw. by destruct (String.eqb _ _).
  - unfold Ledger.throw. by destruct (String.eqb _ _).
Qed.

Lemma transferCallback_commit env request L L' c :
  TransferService.transferCallback env request L = (L', inr c) →
  ∃ a,
    Ledger.has_log_id (uuidv4 env) L = false
    ∧ Ledger.has_log_key (idempotencyKey request) L = false
    ∧ TransferService.c_transactionLog c = pendingRow env request a
    ∧ Ledger.logs L'
      = Ledger.map_log_id (uuidv4 env)
          (TransactionLog.set_status_metadata SUCCESS (Some (successMetadata env c)))
          (Ledger.logs L ++ [pendingRow env request a])%list.
Proof.
  unfold TransferService.transferCallback, mbind, mret, Tx_bind, Tx_ret.
  intros H.
  apply bind_inr in H as (row & L1 & Hcreate & H).
  apply TransactionLog_create_inr, insert_log_inr in Hcreate
    as (a & Hid & Hkey & -> & Hlogs1).
  exists a. fold (pendingRow env request a) in *.
  destruct (TransferService.lockOrder _ _) as [firstLockId secondLockId].
  apply bind_inr in H as (firstWallet & L2 & Hfirst & H).
  apply findByPk_inr in Hfirst. subst L2.
  apply bind_inr in H as (secondWallet & L2 & Hsecond & H).
  apply findByPk_inr in Hsecond. subst L2.
  destruct (TransferService.resolve (fromWalletId request) _ _ _)
    as [[fromId fromWallet] |]; [| done].
  destruct (TransferService.resolve (toWalletId request) _ _ _)
    as [[toId toWallet] |]; [| done].
  destruct (JSNumber.lt _ _); [done |].
  apply bind_inr in H as (u1 & L2 & Hfrom & H).
  apply Wallet_update_inr, update_wallet_inr in Hfrom.
  apply bind_inr in H as (u2 & L3 & Hto & H).
  apply Wallet_update_inr, update_wallet_inr in Hto.
  apply bind_inr in H as (u3 & L4 & Hlog & H).
  apply update_log_inr in Hlog.
  unfold Ledger.ret in H. injection H as <- <-.
  repeat split; try done.
  rewrite Hlog, Hto, Hfrom, Hlogs1. done.
Qed.

(** ** Keys of the cache *)

Lemma append_inj_l (p a b : string) : p +:+ a = p +:+ b → a = b.
Proof. induction p as [| c p IH]; simpl; [done |]. intros [= H]. by apply IH. Qed.

Lemma cacheKey_ne_lockKey p a b :
  p +:+ RedisService.cacheKey a ≠ p +:+ RedisService.lockKey b.
Proof. intros H. apply append_inj_l in H. discriminate. Qed.

Lemma cacheKey_ne_cacheKey p a b :
  a ≠ b → p +:+ RedisService.cacheKey a ≠ p +:+ RedisService.cacheKey b.
Proof.
  intros Hne H. apply append_inj_l in H.
  unfold RedisService.cacheKey in H. by apply append_inj_l in H.
Qed.

(** ** Looking a key up in a rewritten log table *)

Lemma same_result_refl r : same_result r r.
Proof. by repeat split. Qed.

Lemma same_result_trans a b c :
  same_result a b → same_result b c → same_result a c.
Proof.
  intros (? & ? & ? & ?) (? & ? & ? & ?). repeat split; congruence.
Qed.

Lemma same_result_with_message r m : same_result (with_message r m) r.
Proof. by repeat split. Qed.

Lemma find_app_key k (l1 l2 : list TransactionLog.t) :
  List.find (fun l => String.eqb (TransactionLog.idempotencyKey l) k) (l1 ++ l2)
  = match List.find (fun l => String.eqb (TransactionLog.idempotencyKey l) k) l1 with
    | Some x => Some x
    | None => List.find (fun l => String.eqb (TransactionLog.idempotencyKey l) k) l2
    end.
Proof.
  induction l1 as [| l l1 IH]; simpl; [done |].
  by destruct (String.eqb _ k).
Qed.

Lemma find_key_None k (ls : list TransactionLog.t) :
  existsb (fun l => String.eqb (TransactionLog.idempotencyKey l) k) ls = false →
  List.find (fun l => String.eqb (TransactionLog.idempotencyKey l) k) ls = None.
Proof.
  induction ls as [| l ls IH]; simpl; [done |].
  by destruct (String.eqb _ k).
Qed.

Lemma map_log_id_absent id f ls :
  existsb (fun l => String.eqb (TransactionLog.id l) id) ls = false →
  Ledger.map_log_id id f ls = ls.
Proof.
  unfold Ledger.map_log_id.
  induction ls as [| l ls IH]; simpl; [done |].
  destruct (String.eqb _ id); simpl; [done |].
  intros H. by rewrite IH.
Qed.

(** The log table after a commit: the rows that were there, and the new row
    in SUCCESS with its metadata. *)
Lemma committed_logs env request c a L :
  Ledger.has_log_id (uuidv4 env) L = false →
  Ledger.map_log_id (uuidv4 env)
    (TransactionLog.set_status_metadata SUCCESS (Some (successMetadata env c)))
    (Ledger.logs L ++ [pendingRow env request a])
  = (Ledger.logs L
     ++ [TransactionLog.set_status_metadata SUCCESS (Some (successMetadata env c))
           (pendingRow env request a)])%list.
Proof.
  intros Hid. unfold Ledger.map_log_id at 1. rewrite map_app.
  fold (Ledger.map_log_id (uuidv4 env)
          (TransactionLog.set_status_metadata SUCCESS (Some (successMetadata env c)))
          (Ledger.logs L)).
  rewrite map_log_id_absent by done.
  simpl. by rewrite String.eqb_refl.
Qed.

(** A key other than the one of the request keeps its log. *)
Lemma lookup_key_map_other k key f ls :
  key ≠ k →
  (∀ l, TransactionLog.idempotencyKey (f l) = TransactionLog.idempotencyKey l) →
  List.find (fun l => String.eqb (TransactionLog.idempotencyKey l) k)
            (Ledger.map_log_key key f ls)
  = List.find (fun l => String.eqb (TransactionLog.idempotencyKey l) k) ls.
Proof.
  intros Hne Hf. unfold Ledger.map_log_key.
  induction ls as [| l ls IH]; simpl; [done |].
  destruct (String.eqb_spec (TransactionLog.idempotencyKey l) key) as [He | He].
  - rewrite Hf, He. destruct (String.eqb_spec key k); [done | exact IH].
  - by rewrite IH.
Qed.

Lemma recordFailure_other env key msg k L :
  key ≠ k →
  Ledger.lookup_key k (TransferService.recordFailure env key msg L)
  = Ledger.lookup_key k L.
Proof.
  intros Hne. unfold TransferService.recordFailure,
    Ledger.update_failed_where_key, Ledger.bind, Ledger.fault.
  destruct (dbFault env OpMarkFailed); [done |].
  unfold Ledger.lookup_key. simpl. by apply lookup_key_map_other.
Qed.

Lemma transaction_inr {A} env (callback : Ledger.Tx A) L L' a :
  Ledger.transaction env callback L = (L', inr a) → callback L = (L', inr a).
Proof.
  unfold Ledger.transaction.
  destruct (dbFault env OpBegin); [done |].
  destruct (callback L) as [L1 [e | a']]; [done |].
  destruct (dbFault env OpCommit); [done |]. done.
Qed.

Lemma committed_lookup_other env request L L' c k :
  idempotencyKey request ≠ k →
  Ledger.transaction env (TransferService.transferCallback env request) L
  = (L', inr c) →
  Ledger.lookup_key k L' = Ledger.lookup_key k L.
Proof.
  intros Hne Htx. apply transaction_inr, transferCallback_commit in Htx
    as (a & Hid & Hkey & Hrow & Hlogs).
  unfold Ledger.lookup_key. rewrite Hlogs, committed_logs by done.
  rewrite find_app_key.
  destruct (List.find _ (Ledger.logs L)); [done |].
  simpl. by destruct (String.eqb_spec (idempotencyKey request) k).
Qed.

Lemma committed_lookup_same env request L L' c :
  Ledger.transaction env (TransferService.transferCallback env request) L
  = (L', inr c) →
  ∃ log, Ledger.lookup_key (idempotencyKey request) L' = Some log
         ∧ same_result (TransferService.buildResponseFromLog log)
                       (TransferService.successResponse c).
Proof.
  intros Htx. apply transaction_inr, transferCallback_commit in Htx
    as (a & Hid & Hkey & Hrow & Hlogs).
  eexists. split.
  - unfold Ledger.lookup_key. rewrite Hlogs, committed_logs by done.
    rewrite find_app_key, find_key_None by done.
    simpl. by rewrite String.eqb_refl.
  - unfold TransferService.buildResponseFromLog, TransferService.successResponse,
      successMetadata. simpl. rewrite Hrow. by repeat split.
Qed.

(** ** What a call leaves of another key *)

Lemma untouched_Completed p k r w w' :
  untouched p k w w' → Completed p k r w → Completed p k r w'.
Proof.
  intros [Hl Hc] [(log & Hlog & Hres) Hcache]. split.
  - exists log. by rewrite Hl.
  - intros c. rewrite Hc. apply Hcache.
Qed.

Lemma cacheResult_other env key result (R : gmap string RedisValue) k :
  key ≠ k →
  (RedisService.cacheResult env key result R).1
    !! (keyPrefix env +:+ RedisService.cacheKey k)
  = R !! (keyPrefix env +:+ RedisService.cacheKey k).
Proof.
  intros Hne. unfold RedisService.cacheResult, Redis.setex.
  destruct (redisFault env OpSetex); [done |]. simpl.
  apply lookup_insert_ne. by apply cacheKey_ne_cacheKey.
Qed.

Lemma cacheResult_same env key result (R : gmap string RedisValue) c :
  (RedisService.cacheResult env key result R).1
    !! (keyPrefix env +:+ RedisService.cacheKey key) = Some (Json c) →
  c = result ∨ R !! (keyPrefix env +:+ RedisService.cacheKey key) = Some (Json c).
Proof.
  unfold RedisService.cacheResult, Redis.setex.
  destruct (redisFault env OpSetex); simpl; [by right |].
  rewrite lookup_insert_eq. intros [= ->]. by left.
Qed.

Lemma releaseLock_cache env key (R : gmap string RedisValue) k :
  (RedisService.releaseLock env key R).1
    !! (keyPrefix env +:+ RedisService.cacheKey k)
  = R !! (keyPrefix env +:+ RedisService.cacheKey k).
Proof.
  unfold RedisService.releaseLock, Redis.del.
  destruct (redisFault env OpDel); [done |]. simpl.
  apply lookup_delete_ne. intros H. symmetry in H.
  by apply cacheKey_ne_lockKey in H.
Qed.

Lemma acquireLock_cache env key (w : World) k :
  ∃ R b,
    Thread.run (RedisService.acquireLockWithRetry env key) w
    = (set_redis R w, inr b)
    ∧ R !! (keyPrefix env +:+ RedisService.cacheKey k)
      = redis w !! (keyPrefix env +:+ RedisService.cacheKey k).
Proof.
  unfold RedisService.acquireLockWithRetry.
  destruct (acquireLockLoop_run env key RedisService.LOCK_MAX_RETRIES 0 w)
    as (R & b & Hrun & HR).
  exists R, b. split; [done |]. apply HR, cacheKey_ne_lockKey.
Qed.

Lemma other_key_untouched env request (w w' : World) o k :
  idempotencyKey request ≠ k →
  Thread.run (TransferService.executeTransfer env request) w = (w', o) →
  untouched (keyPrefix env) k w w'.
Proof.
  intros Hne. rewrite run_executeTransfer.
  destruct (TransferService.validateTransferRequest request);
    [by intros [= <- _] |].
  destruct (RedisService.getCachedResult _ _ _).2; [by intros [= <- _] |].
  destruct (acquireLock_cache env (idempotencyKey request) w k)
    as (R & b & -> & HR).
  destruct b.
  - rewrite run_lockAcquired, run_tryBlock.
    destruct (dbFault env OpLookup).
    { intros [= <- _]. split; cbn [ledger redis set_redis set_ledger].
      - by apply recordFailure_other.
      - by rewrite releaseLock_cache. }
    cbn [ledger set_redis].
    destruct (Ledger.lookup_key (idempotencyKey request) (ledger w)).
    { rewrite run_replyFromLog. intros [= <- _].
      split; cbn [ledger redis set_redis set_ledger]; [done |].
      by rewrite releaseLock_cache, cacheResult_other. }
    destruct (Ledger.transaction _ _ _) as [L [e | c]] eqn:Htx.
    + apply transaction_rollback in Htx. subst L.
      intros [= <- _]. split; cbn [ledger redis set_redis set_ledger].
      * by apply recordFailure_other.
      * by rewrite releaseLock_cache.
    + intros [= <- _]. split; cbn [ledger redis set_redis set_ledger].
      * by eapply committed_lookup_other.
      * by rewrite releaseLock_cache, cacheResult_other.
  - rewrite run_lockNotAcquired.
    destruct (dbFault env OpFallbackLookup); [by intros [= <- _] |].
    cbn [ledger set_redis].
    destruct (Ledger.lookup_key (idempotencyKey request) (ledger w)).
    + rewrite run_replyFromLog. intros [= <- _].
      split; cbn [ledger redis set_redis set_ledger]; [done |].
      by rewrite cacheResult_other.
    + by intros [= <- _].
Qed.

(** ** Replay equivalence *)

Lemma getCachedResult_Some env key (R : gmap string RedisValue) c :
  (RedisService.getCachedResult env key R).2 = Some c →
  R !! (keyPrefix env +:+ RedisService.cacheKey key) = Some (Json c).
Proof.
  unfold RedisService.getCachedResult, Redis.get.
  destruct (redisFault env OpGet); [done |].
  destruct (R !! _) as [[s | r] |]; simpl; congruence.
Qed.

Lemma getCachedResult_None env key (R : gmap string RedisValue) :
  R !! (keyPrefix env +:+ RedisService.cacheKey key) = None →
  (RedisService.getCachedResult env key R).2 = None.
Proof.
  unfold RedisService.getCachedResult, Redis.get. intros ->.
  by destruct (redisFault env OpGet).
Qed.

(** One replay: a call with the key of a completed transfer, whose request
    passes validation and whose ledger lookup goes through, returns the
    recorded result and leaves it on record. *)
Lemma replay_step env request (w : World) r :
  Completed (keyPrefix env) (idempotencyKey request) r w →
  TransferService.validateTransferRequest request = None →
  dbFault env OpLookup = None →
  dbFault env OpFallbackLookup = None →
  ∃ w' r',
    Thread.run (TransferService.executeTransfer env request) w = (w', inr r')
    ∧ same_result r' r
    ∧ Completed (keyPrefix env) (idempotencyKey request) r w'
    ∧ ledger w' = ledger w.
Proof.
  intros HC Hvalid Hdb1 Hdb2. pose proof HC as [(log & Hlog & Hres) Hcache].
  rewrite run_executeTransfer, Hvalid.
  destruct (RedisService.getCachedResult _ _ _).2 as [c |] eqn:Hget.
  { apply getCachedResult_Some in Hget. exists w, (with_message c
      "Transfer already processed (idempotent request) (from cache)").
    split; [done |]. split; [| done].
    eapply same_result_trans; [apply same_result_with_message |].
    by apply Hcache. }
  destruct (acquireLock_cache env (idempotencyKey request) w
              (idempotencyKey request)) as (R & b & -> & HR).
  assert (∀ R' : gmap string RedisValue,
            (∀ c, R' !! (keyPrefix env +:+ RedisService.cacheKey (idempotencyKey request))
                  = Some (Json c) →
                  c = TransferService.buildResponseFromLog log
                  ∨ R !! (keyPrefix env +:+ RedisService.cacheKey (idempotencyKey request))
                    = Some (Json c)) →
            Completed (keyPrefix env) (idempotencyKey request) r
                      (set_redis R' (set_redis R w))) as Hkeep.
  { intros R' HR'. split; cbn [ledger redis set_redis]; [by exists log |].
    intros c Hc. destruct (HR' c Hc) as [-> | Hold]; [done |].
    apply Hcache. by rewrite <- HR. }
  destruct b.
  - rewrite run_lockAcquired, run_tryBlock, Hdb1.
    cbn [ledger set_redis]. rewrite Hlog, run_replyFromLog.
    eexists _, _. split; [done |]. split; [done |]. split; [| done].
    cbn [redis set_redis]. apply Hkeep. intros c.
    rewrite releaseLock_cache. apply cacheResult_same.
  - rewrite run_lockNotAcquired, Hdb2.
    cbn [ledger set_redis]. rewrite Hlog, run_replyFromLog.
    eexists _, _. split; [done |]. split; [done |]. split; [| done].
    cbn [redis set_redis]. apply Hkeep. intros c. apply cacheResult_same.
Qed.

Lemma buildResponseFromLog_not_fresh log :
  ¬ fresh_success (TransferService.buildResponseFromLog log).
Proof.
  unfold fresh_success, TransferService.buildResponseFromLog.
  destruct (TransactionLog.status log), (TransactionLog.metadata log); simpl;
    by intros [_ ?].
Qed.

(** The call that commits a transfer puts it on record. *)
Lemma fresh_success_Completed env request (w w' : World) r :
  redis w !! (keyPrefix env +:+ RedisService.cacheKey (idempotencyKey request))
  = None →
  Thread.run (TransferService.executeTransfer env request) w = (w', inr r) →
  fresh_success r →
  Completed (keyPrefix env) (idempotencyKey request) r w'.
Proof.
  intros Hnone. rewrite run_executeTransfer.
  destruct (TransferService.validateTransferRequest request); [done |].
  rewrite getCachedResult_None by done.
  destruct (acquireLock_cache env (idempotencyKey request) w
              (idempotencyKey request)) as (R & b & -> & HR).
  rewrite Hnone in HR.
  destruct b.
  - rewrite run_lockAcquired, run_tryBlock.
    destruct (dbFault env OpLookup); [done |].
    cbn [ledger set_redis].
    destruct (Ledger.lookup_key _ _) as [log |].
    { rewrite run_replyFromLog. intros [= <- <-] Hfresh.
      by apply buildResponseFromLog_not_fresh in Hfresh. }
    destruct (Ledger.transaction _ _ _) as [L [e | c]] eqn:Htx; [done |].
    intros [= <- <-] _. split; cbn [ledger redis set_redis set_ledger].
    + by eapply committed_lookup_same.
    + intros c'. rewrite releaseLock_cache. intros Hc'.
      apply cacheResult_same in Hc' as [-> | Hold];
        [apply same_result_refl | congruence].
  - rewrite run_lockNotAcquired.
    destruct (dbFault env OpFallbackLookup); [done |].
    destruct (Ledger.lookup_key _ _) as [log |]; [| done].
    rewrite run_replyFromLog. intros [= <- <-] Hfresh.
    by apply buildResponseFromLog_not_fresh in Hfresh.
Qed.

Lemma expire_Completed p k r keys (w : World) :
  Completed p k r w → Completed p k r (expire keys w).
Proof.
  intros [Hlog Hcache]. split; [done |].
  intros c. unfold expire. cbn [redis set_redis].
  induction keys as [| key keys IH]; simpl; [apply Hcache |].
  intros Hc. apply lookup_delete_Some in Hc as [_ Hc]. by apply IH.
Qed.

Lemma run_calls_replay p k r calls (w : World) :
  success r = true →
  Completed p k r w →
  Forall (orderly p k) calls →
  Completed p k r (run_calls calls w).1
  ∧ Forall2 (replays k r) calls (run_calls calls w).2.
Proof.
  intros Hsucc. revert w.
  induction calls as [| [keys env request] rest IH]; intros w HC Hall; simpl.
  - by split.
  - apply Forall_cons in Hall as [[Hp Hlookups] Hrest]. simpl in Hp, Hlookups.
    apply (expire_Completed p k r keys) in HC.
    destruct (Thread.run _ (expire keys w)) as [w1 o] eqn:Hrun.
    assert (Completed p k r w1 ∧ replays k r (mkCall keys env request) o)
      as [HC1 Ho].
    { destruct (decide (idempotencyKey request = k)) as [Hk | Hk].
      - destruct (TransferService.validateTransferRequest request) as [e |] eqn:Hv.
        + rewrite run_executeTransfer, Hv in Hrun. injection Hrun as <- <-.
          split; [done |]. intros _ Hv'. simpl in Hv'. congruence.
        + destruct (Hlookups Hk eq_refl) as [Hdb1 Hdb2].
          subst p k.
          destruct (replay_step env request _ r HC Hv Hdb1 Hdb2)
            as (w' & r' & Hrun' & Hsame & HC' & _).
          rewrite Hrun in Hrun'. injection Hrun' as -> ->.
          split; [done |]. intros _ _. exists r'. split; [done |].
          split; [| done]. destruct Hsame as (_ & -> & _). done.
      - split; [| by intros Hk'].
        subst p.
        apply (untouched_Completed (keyPrefix env) k r (expire keys w) w1);
          [| done].
        by eapply other_key_untouched. }
    specialize (IH w1 HC1 Hrest).
    destruct (run_calls rest w1) as [w2 os]. simpl in *.
    destruct IH as [HC2 Hos]. split; [done |]. by constructor.
Qed.

(** Replays while the lookups go through. Once a call has committed a
    transfer under the
    key [k] and returned [r] (the cache holding nothing for [k] before it),
    then in every sequence of later calls, made one after another with the
    same key prefix, each call with the key [k] whose request passes
    validation returns a response with the transaction id, success = true
    and the two balances of [r], be it served from the cache or rebuilt
    from the log, provided the ledger lookups of those replays go through.
    The calls for other keys are arbitrary, and so are their faults and
    the cache entries that expire in between. *)
Theorem replay_equivalence env request (w w1 : World) r calls :
  let k := idempotencyKey request in
  Thread.run (TransferService.executeTransfer env request) w = (w1, inr r) →
  fresh_success r →
  redis w !! (keyPrefix env +:+ RedisService.cacheKey k) = None →
  Forall (orderly (keyPrefix env) k) calls →
  Forall2 (replays k r) calls (run_calls calls w1).2.
Proof.
  intros k Hrun Hfresh Hnone Hcalls.
  apply (run_calls_replay (keyPrefix env) k r calls w1); [by destruct Hfresh | | done].
  by eapply fresh_success_Completed.
Qed.

Lemma replay_equivalence_witness :
  Forall2 (replays "t1" Examples.t1_response) Examples.later_calls
          (run_calls Examples.later_calls Examples.after_t1).2.
Proof.
  apply (replay_equivalence (Examples.env_ok Examples.id1) Examples.t1_request
           Examples.seeded Examples.after_t1 Examples.t1_response
           Examples.later_calls).
  - vm_compute. reflexivity.
  - split; reflexivity.
  - vm_compute. reflexivity.
  - repeat constructor; intros; reflexivity.
Defined.

Example replay_scenario :
  (run_calls Examples.later_calls Examples.after_t1).2
  = [inr (mkResponse true Examples.id1
            "Transfer already processed (idempotent request) (from cache)"
            (Some "900.0000") (Some "600.0000"));
     inr (mkResponse true Examples.id3 "Transfer completed successfully"
            (Some "550.0000") (Some "950.0000"));
     inr (mkResponse true Examples.id1
            "Transfer already processed (idempotent request)"
            (Some "900.0000") (Some "600.0000"));
     inr (mkResponse true Examples.id1
            "Transfer already processed (idempotent request)"
            (Some "900.0000") (Some "600.0000"))].
Proof. vm_compute. reflexivity. Qed.

(** A later call with the key of a completed transfer does not always
    return its result: validation comes first, and a request that fails it
    is rejected whatever its key. *)
Lemma replay_with_invalid_request_is_rejected :
  let first := Thread.run
                 (TransferService.executeTransfer (Examples.env_ok Examples.id1)
                    Examples.t1_request)
                 Examples.seeded in
  let second := Thread.run
                  (TransferService.executeTransfer (Examples.env_ok Examples.id2)
                     (mkRequest Examples.alice Examples.bob "0" "t1"))
                  first.1 in
  first.2 = inr Examples.t1_response
  ∧ second.2 = inl (TransferError "Amount must be a positive number" 400
                                  "INVALID_AMOUNT").
Proof. vm_compute. done. Qed.

(** C4, on the code. The transfer "t1" has completed with SUCCESS and has
    been answered with [t1_response]. A replay with the same body then
    meets an outage (Redis unreachable, the ledger lookup timing out): it
    fails with a 500, and its [catch] block rewrites the committed log to
    FAILED. From then on, the cache entry having run out, replays with the
    same body that find both stores in order are answered [success: false]
    and no balances, first from the log and then from the cache, while the
    money stays moved. *)
Theorem replay_after_failed_lookup_reports_failure :
  let first := Thread.run
                 (TransferService.executeTransfer (Examples.env_ok Examples.id1)
                    Examples.t1_request)
                 Examples.seeded in
  let later := run_calls replays_around_outage first.1 in
  first.2 = inr Examples.t1_response
  ∧ success Examples.t1_response = true
  ∧ later.2
    = [inl (TransferError "Operation timeout" 500 "TRANSFER_FAILED");
       inr (mkResponse false Examples.id1 "Transfer previously failed"
                       None None);
       inr (mkResponse false Examples.id1
              "Transfer already processed (idempotent request) (from cache)"
              None None)]
  ∧ Examples.status_of "t1" later.1 = Some FAILED
  ∧ Examples.balance_of Examples.alice later.1 = Some 9000000
  ∧ Examples.balance_of Examples.bob later.1 = Some 6000000.
Proof. vm_compute. done. Qed.

(** ** Logs that are kept

    Called on its own, and its ledger lookup going through, a request
    leaves every log there is as it is, whatever its status: it returns the
    log of its own key without touching it, and a key without a log gets a
    new row after the others. *)
Lemma sequential_logs_kept env request (w w' : World) o k log :
  dbFault env OpLookup = None →
  Thread.run (TransferService.executeTransfer env request) w = (w', o) →
  Ledger.lookup_key k (ledger w) = Some log →
  Ledger.lookup_key k (ledger w') = Some log.
Proof.
  intros Hdb Hrun Hlog.
  destruct (decide (idempotencyKey request = k)) as [<- | Hk].
  - revert Hrun. rewrite run_executeTransfer.
    destruct (TransferService.validateTransferRequest request);
      [by intros [= <- _] |].
    destruct (RedisService.getCachedResult _ _ _).2; [by intros [= <- _] |].
    unfold RedisService.acquireLockWithRetry.
    destruct (acquireLockLoop_run env (idempotencyKey request)
                RedisService.LOCK_MAX_RETRIES 0 w) as (R & b & -> & _).
    destruct b.
    + rewrite run_lockAcquired, run_tryBlock, Hdb.
      cbn [ledger set_redis]. rewrite Hlog, run_replyFromLog.
      by intros [= <- _].
    + rewrite run_lockNotAcquired.
      destruct (dbFault env OpFallbackLookup); [by intros [= <- _] |].
      cbn [ledger set_redis]. rewrite Hlog, run_replyFromLog.
      by intros [= <- _].
  - destruct (other_key_untouched env request w w' o k Hk Hrun) as [-> _].
    done.
Qed.

(** ** One request among others *)

(** Run alone, a request is its own schedule. *)
Lemma run_as_play {A} (t : Thread A) (w : World) :
  ∃ n, Concurrent.play (replicate n (Concurrent.Run 0)) (w, [t])
       = ((Thread.run t w).1,
          [match (Thread.run t w).2 with
           | inl e => Throw e
           | inr a => Ret a
           end]).
Proof.
  revert w. induction t as [a | e | X op k IH]; intros w.
  - by exists 0%nat.
  - by exists 0%nat.
  - destruct (op w) as [w1 x] eqn:Hop. destruct (IH x w1) as [n Hn].
    exists (S n). simpl. rewrite Hop. simpl. exact Hn.
Qed.

Lemma advance_settled (t : Thread TransferResponse) (w : World) :
  settled t →
  wallets_of (Thread.advance t w).1 = wallets_of w
  ∧ settled (Thread.advance t w).2.
Proof.
  destruct t as [r | e | X op k]; simpl; try done.
  intros H. destruct (H w) as [Hw Hk]. by destruct (op w).
Qed.

Lemma settled_not_thrown (t : Thread TransferResponse) e :
  settled t → Concurrent.outcome t ≠ Some (inl e).
Proof. by destruct t. Qed.

(** Atomicity under interleaving: whichever requests run in between, an
    operation of a transfer request that changes a wallet leaves the
    request settled; from then on it changes no wallet and cannot end in
    an error. *)
Lemma move_atomicity i (w : World)
    (pool : list (Thread TransferResponse)) t :
  pool !! i = Some t →
  all_or_nothing t →
  let s' := Concurrent.move (Concurrent.Run i) (w, pool) in
  (∃ t', s'.2 !! i = Some t' ∧ all_or_nothing t')
  ∧ (wallets_of s'.1 ≠ wallets_of w → ∃ t', s'.2 !! i = Some t' ∧ settled t').
Proof.
  intros Hi Ht. simpl. rewrite Hi.
  assert (i < length pool)%nat as Hlen by (by eapply lookup_lt_Some).
  destruct t as [r | e | X op k]; simpl.
  - rewrite list_lookup_insert_eq by done. split; [by eauto | done].
  - rewrite list_lookup_insert_eq by done. split; [by eauto | done].
  - simpl in Ht. destruct (Ht w) as [[Hw Hk] | Hk]; destruct (op w) as [w1 x];
      simpl in *; rewrite list_lookup_insert_eq by done.
    + split; [by eauto | done].
    + split; [| by eauto]. eexists. split; [done |].
      by apply settled_all_or_nothing.
Qed.

(** ** No PENDING row is left behind *)

Lemma keeps_bind {A B} I (t : Thread A) (k : A → Thread B) :
  keeps I t → (∀ a, keeps I (k a)) → keeps I (Thread.bind t k).
Proof.
  intros Ht Hk. induction t as [a | e | X op k' IH]; simpl; try done.
  intros w. destruct (Ht w) as [Hw Hrest]. split; [done | by apply IH].
Qed.

Lemma keeps_try_catch {A} I (t : Thread A) h :
  keeps I t → (∀ e, keeps I (h e)) → keeps I (Thread.try_catch t h).
Proof.
  intros Ht Hh. induction t as [a | e | X op k' IH]; simpl; try done.
  intros w. destruct (Ht w) as [Hw Hrest]. split; [done | by apply IH].
Qed.

Lemma keeps_finally {A} I (t : Thread A) c :
  keeps I t → keeps I c → keeps I (Thread.finally t c).
Proof.
  intros Ht Hc. induction t as [a | e | X op k' IH]; simpl.
  - by apply keeps_bind.
  - by apply keeps_bind.
  - intros w. destruct (Ht w) as [Hw Hrest]. split; [done | by apply IH].
Qed.

Lemma keeps_terminal_on_redis {X}
    (f : gmap string RedisValue → gmap string RedisValue * X) :
  keeps terminal_logs (Thread.atomic (Thread.on_redis f)).
Proof.
  intros w. unfold Thread.on_redis. by destruct (f (redis w)).
Qed.

Lemma keeps_terminal_acquireLockLoop env key remaining attempt :
  keeps terminal_logs (RedisService.acquireLockLoop env key remaining attempt).
Proof.
  revert attempt. induction remaining as [| n IH]; intros attempt; simpl; [done |].
  intros w. unfold Thread.on_redis.
  destruct (RedisService.acquireLock env attempt key (redis w)) as [R [] ]; simpl.
  - done.
  - split; [done |]. intros w'. split; [done | apply IH].
Qed.

Lemma keeps_terminal_findOne env op key :
  keeps terminal_logs (TransferService.findOne env op key).
Proof.
  intros w. unfold Thread.on_ledger, Ledger.findOne, Ledger.bind, Ledger.fault.
  destruct (dbFault env op); simpl; by rewrite set_ledger_same.
Qed.

Lemma keeps_terminal_markTransactionFailed env key msg :
  keeps terminal_logs (TransferService.markTransactionFailed env key msg).
Proof.
  intros w. split; [| done]. unfold Thread.on_ledger,
    TransferService.recordFailure, Ledger.update_failed_where_key,
    Ledger.bind, Ledger.fault, terminal_logs, logs_of.
  destruct (dbFault env OpMarkFailed); simpl; [done |].
  unfold Ledger.map_log_key. intros H. apply Forall_map.
  eapply Forall_impl; [exact H |]. intros l Hl. simpl.
  by destruct (String.eqb _ key).
Qed.

Lemma keeps_terminal_transaction env request
    (k : TransferService.Committed → Thread TransferResponse) :
  (∀ c, keeps terminal_logs (k c)) →
  keeps terminal_logs
    (Thread.bind
       (Thread.statement
          (Ledger.transaction env (TransferService.transferCallback env request)))
       k).
Proof.
  intros Hk. simpl. intros w. unfold Thread.on_ledger.
  destruct (Ledger.transaction env _ (ledger w)) as [L' [e | c]] eqn:Htx; simpl.
  - apply transaction_rollback in Htx. subst L'. by rewrite set_ledger_same.
  - split; [| apply Hk]. unfold terminal_logs, logs_of. simpl. intros H.
    apply transaction_inr, transferCallback_commit in Htx
      as (a & Hid & _ & _ & ->).
    rewrite committed_logs by done. apply Forall_app. split; [done |].
    by repeat constructor.
Qed.

(** Every row [executeTransfer] leaves in the log table is SUCCESS or
    FAILED, at every point of every interleaving: the PENDING row never
    outlives its transaction. *)
Lemma executeTransfer_keeps_terminal env request :
  keeps terminal_logs (TransferService.executeTransfer env request).
Proof.
  unfold TransferService.executeTransfer.
  destruct (TransferService.validateTransferRequest request); [done |].
  apply keeps_bind; [apply keeps_terminal_on_redis |].
  intros [cached |]; [done |].
  apply keeps_bind; [apply keeps_terminal_acquireLockLoop |].
  assert (∀ log, keeps terminal_logs
                   (TransferService.replyFromLog env (idempotencyKey request) log))
    as Hreply.
  { intros log. apply keeps_bind; [apply keeps_terminal_on_redis | done]. }
  intros [|]; simpl negb; cbv iota.
  - apply keeps_finally; [| apply keeps_terminal_on_redis].
    apply keeps_try_catch.
    + apply keeps_bind; [apply keeps_terminal_findOne |].
      intros [existing |]; [apply Hreply |].
      apply keeps_terminal_transaction. intros c.
      apply keeps_bind; [apply keeps_terminal_on_redis | done].
    + intros e. apply keeps_bind; [apply keeps_terminal_markTransactionFailed | done].
  - apply keeps_bind; [apply keeps_terminal_findOne |].
    intros [existing |]; [apply Hreply | done].
Qed.

Lemma advance_keeps {A} I (t : Thread A) (w : World) :
  keeps I t → I w → I (Thread.advance t w).1 ∧ keeps I (Thread.advance t w).2.
Proof.
  destruct t as [a | e | X op k]; simpl; try done.
  intros H Hw. destruct (H w) as [HI Hk]. destruct (op w). simpl in *. auto.
Qed.

Lemma play_keeps_terminal {A} moves (w : World) (pool : list (Thread A)) :
  Forall (keeps terminal_logs) pool →
  terminal_logs w →
  terminal_logs (Concurrent.play moves (w, pool)).1.
Proof.
  revert w pool. induction moves as [| m moves IH]; intros w pool Hpool Hw;
    [done |].
  simpl. destruct m as [i | key]; simpl.
  - destruct (pool !! i) as [t |] eqn:Hi; [| by apply IH].
    pose proof (advance_keeps terminal_logs t w
                  (proj1 (Forall_lookup _ _) Hpool i t Hi) Hw) as [Hw' Ht'].
    destruct (Thread.advance t w) as [w' t']. simpl in *.
    apply IH; [| done]. by apply Forall_insert.
  - by apply IH.
Qed.


(** ** The fallback on the stores the service reaches *)




(** * Further properties of the code *)

(** ** The lease *)

(** X1. A lease that stays in the store turns a competitor away. Once a
    request has taken the lease of a key (SET NX answered OK), another
    request for the same key, with the same key prefix and Redis answering
    each of its attempts, that makes its attempts on the store as the first
    has left it, nobody releasing the lease or letting it run out in
    between, spends its whole retry budget without acquiring it, and
    leaves the store as it is. (A lease that runs out during the retries is
    taken by the competitor: [release_removes_foreign_lease].) *)
Theorem lease_excludes env1 env2 attempt key (w : World) R1 :
  keyPrefix env1 = keyPrefix env2 →
  redisFault env1 (OpSetNX attempt) = false →
  (∀ n, redisFault env2 (OpSetNX n) = false) →
  RedisService.acquireLock env1 attempt key (redis w) = (R1, true) →
  Thread.run (RedisService.acquireLockWithRetry env2 key) (set_redis R1 w)
  = (set_redis R1 w, inr false).
Proof.
  intros Hp Hok1 Hok2 Hacq. unfold RedisService.acquireLockWithRetry.
  apply acquireLockLoop_held; [| done].
  unfold RedisService.acquireLock, Redis.set_nx in Hacq. rewrite Hok1 in Hacq.
  unfold Redis.get. cbn [redis set_redis]. rewrite <- Hp.
  destruct (redis w !! _) eqn:Hl; [done |].
  injection Hacq as <-. rewrite lookup_insert_eq. by eauto.
Qed.

Lemma lease_excludes_witness :
  Thread.run
    (RedisService.acquireLockWithRetry (Examples.env_ok Examples.id2) "t1")
    (set_redis {[ "wallet:lock:t1" := Text "1700000000000" ]} Examples.seeded)
  = (set_redis {[ "wallet:lock:t1" := Text "1700000000000" ]} Examples.seeded,
     inr false).
Proof.
  apply (lease_excludes (Examples.env_ok Examples.id1) (Examples.env_ok Examples.id2)
           0 "t1" Examples.seeded).
  - reflexivity.
  - reflexivity.
  - intros n. reflexivity.
  - vm_compute. reflexivity.
Defined.

(** X2. Taking a free lease and releasing it gives the store back as it
    was, when Redis answers both commands. *)
Theorem acquire_release_round_trip env attempt key (R : gmap string RedisValue) :
  Redis.get env (RedisService.lockKey key) R = None →
  redisFault env (OpSetNX attempt) = false →
  redisFault env OpDel = false →
  (RedisService.acquireLock env attempt key R).2 = true
  ∧ (RedisService.releaseLock env key
       (RedisService.acquireLock env attempt key R).1).1 = R.
Proof.
  intros Hfree Hset Hdel.
  unfold RedisService.acquireLock, RedisService.releaseLock, Redis.set_nx,
    Redis.del.
  unfold Redis.get in Hfree. rewrite Hset, Hdel, Hfree. cbn [fst snd].
  split; [done |]. by apply delete_insert_id.
Qed.

Lemma acquire_release_round_trip_witness :
  (RedisService.releaseLock (Examples.env_ok Examples.id1) "t1"
     (RedisService.acquireLock (Examples.env_ok Examples.id1) 0 "t1"
        (redis Examples.after_t1)).1).1
  = redis Examples.after_t1.
Proof.
  apply (acquire_release_round_trip (Examples.env_ok Examples.id1) 0 "t1").
  - vm_compute. reflexivity.
  - reflexivity.
  - reflexivity.
Defined.

Lemma acquireLockLoop_operations env key remaining attempt (w : World) :
  (operations (RedisService.acquireLockLoop env key remaining attempt) w
   ≤ 2 * remaining)%nat
  ∧ ((Thread.run (RedisService.acquireLockLoop env key remaining attempt) w).2
     = inr false →
     operations (RedisService.acquireLockLoop env key remaining attempt) w
     = (2 * remaining)%nat)
  ∧ ∃ b, (Thread.run (RedisService.acquireLockLoop env key remaining attempt) w).2
         = inr b.
Proof.
  revert attempt w. induction remaining as [| n IH]; intros attempt w.
  - simpl. repeat split; [lia | by exists false].
  - cbn [RedisService.acquireLockLoop]. unfold mbind, Thread_bind. simpl.
    destruct (Thread.on_redis _ w) as [w1 [|]]; simpl.
    + repeat split; [lia | done | by exists true].
    + destruct (IH (S attempt) w1) as (Hle & Heq & Hb).
      repeat split; [lia | | done].
      intros Hfalse. rewrite (Heq Hfalse). lia.
Qed.

(** X3. The wait for the lease is bounded: [acquireLockWithRetry] always
    ends with a boolean, never with an error, after at most 50 attempts
    (100 store operations, the sleeps counted); when it gives up it has
    made all 50. *)
Theorem acquireLockWithRetry_bounded env key (w : World) :
  (operations (RedisService.acquireLockWithRetry env key) w ≤ 100)%nat
  ∧ ((Thread.run (RedisService.acquireLockWithRetry env key) w).2 = inr false →
     operations (RedisService.acquireLockWithRetry env key) w = 100%nat)
  ∧ ∃ b, (Thread.run (RedisService.acquireLockWithRetry env key) w).2 = inr b.
Proof.
  unfold RedisService.acquireLockWithRetry.
  apply (acquireLockLoop_operations env key RedisService.LOCK_MAX_RETRIES 0 w).
Qed.

Lemma acquireLockWithRetry_bounded_witness :
  operations
    (RedisService.acquireLockWithRetry (Examples.env_ok Examples.id2) "c1")
    Examples.pending_and_held
  = 100%nat.
Proof.
  apply (acquireLockWithRetry_bounded (Examples.env_ok Examples.id2) "c1"
           Examples.pending_and_held).
  vm_compute. reflexivity.
Defined.

Lemma acquireLockLoop_free_run env key remaining attempt (w : World) :
  Redis.get env (RedisService.lockKey key) (redis w) = None →
  ∃ R, Thread.run (RedisService.acquireLockLoop env key (S remaining) attempt) w
       = (set_redis R w, inr true).
Proof.
  intros Hfree. cbn [RedisService.acquireLockLoop].
  unfold mbind, Thread_bind. rewrite run_bind, run_atomic.
  unfold Thread.on_redis, RedisService.acquireLock, Redis.set_nx.
  unfold Redis.get in Hfree.
  destruct (redisFault env (OpSetNX attempt)); cbn [fst snd].
  - by exists (redis w).
  - rewrite Hfree. cbn [fst snd]. by eexists.
Qed.

Lemma cacheResult_lock env key result (R : gmap string RedisValue) k :
  (RedisService.cacheResult env key result R).1
    !! (keyPrefix env +:+ RedisService.lockKey k)
  = R !! (keyPrefix env +:+ RedisService.lockKey k).
Proof.
  unfold RedisService.cacheResult, Redis.setex.
  destruct (redisFault env OpSetex); [done |]. simpl.
  apply lookup_insert_ne, cacheKey_ne_lockKey.
Qed.

(** X4. The lease is released on every way out: a call that finds the
    lease of its key free leaves it free, whether it returns or throws and
    whatever fails in between, as long as the DEL of [releaseLock] goes
    through. *)
Theorem lease_released_on_exit env request (w : World) :
  let key := idempotencyKey request in
  Redis.get env (RedisService.lockKey key) (redis w) = None →
  redisFault env OpDel = false →
  Redis.get env (RedisService.lockKey key)
    (redis (Thread.run (TransferService.executeTransfer env request) w).1)
  = None.
Proof.
  intros key Hfree Hdel. subst key. set (key := idempotencyKey request) in *.
  rewrite run_executeTransfer. fold key.
  destruct (TransferService.validateTransferRequest request); [done |].
  destruct (RedisService.getCachedResult _ _ _).2; [done |].
  unfold RedisService.acquireLockWithRetry, RedisService.LOCK_MAX_RETRIES.
  destruct (acquireLockLoop_free_run env key 49 0 w Hfree) as [R ->].
  rewrite run_lockAcquired.
  assert (∀ R' : gmap string RedisValue,
            Redis.get env (RedisService.lockKey key)
              (RedisService.releaseLock env key R').1 = None) as Hgone.
  { intros R'. unfold RedisService.releaseLock, Redis.get, Redis.del.
    rewrite Hdel. apply lookup_delete_eq. }
  destruct (Thread.run (TransferService.tryBlock env request) _) as [w1 [e | r]];
    cbn [fst redis set_redis]; apply Hgone.
Qed.

Lemma lease_released_on_exit_witness :
  Redis.get (Examples.env_ok Examples.id1) (RedisService.lockKey "i1")
    (redis (Thread.run
              (TransferService.executeTransfer (Examples.env_ok Examples.id1)
                 (mkRequest Examples.alice Examples.bob "2000.0000" "i1"))
              Examples.seeded).1)
  = None.
Proof.
  apply (lease_released_on_exit (Examples.env_ok Examples.id1)
           (mkRequest Examples.alice Examples.bob "2000.0000" "i1")
           Examples.seeded).
  - vm_compute. reflexivity.
  - reflexivity.
Defined.

(** X5. A request that did not get the lease does not release it: when
    another holder keeps the key through the whole retry budget (Redis
    answering each attempt), the lock entry is after the call what it was
    before it, whatever the call returns or throws. *)
Theorem foreign_lease_kept env request (w : World) :
  let key := idempotencyKey request in
  is_Some (Redis.get env (RedisService.lockKey key) (redis w)) →
  (∀ n, redisFault env (OpSetNX n) = false) →
  Redis.get env (RedisService.lockKey key)
    (redis (Thread.run (TransferService.executeTransfer env request) w).1)
  = Redis.get env (RedisService.lockKey key) (redis w).
Proof.
  intros key Hheld Hok. subst key. set (key := idempotencyKey request) in *.
  rewrite run_executeTransfer. fold key.
  destruct (TransferService.validateTransferRequest request); [done |].
  destruct (RedisService.getCachedResult _ _ _).2; [done |].
  unfold RedisService.acquireLockWithRetry.
  rewrite acquireLockLoop_held by done.
  rewrite run_lockNotAcquired.
  destruct (dbFault env OpFallbackLookup); [done |].
  destruct (Ledger.lookup_key _ _); [| done].
  rewrite run_replyFromLog. cbn [fst redis set_redis].
  unfold Redis.get. apply cacheResult_lock.
Qed.

Lemma foreign_lease_kept_witness :
  Redis.get (Examples.env_ok Examples.id2) (RedisService.lockKey "c1")
    (redis (Thread.run
              (TransferService.executeTransfer (Examples.env_ok Examples.id2)
                 (mkRequest Examples.alice Examples.bob "100.0000" "c1"))
              Examples.pending_and_held).1)
  = Some (Text "1699999999000").
Proof.
  refine (foreign_lease_kept (Examples.env_ok Examples.id2)
            (mkRequest Examples.alice Examples.bob "100.0000" "c1")
            Examples.pending_and_held _ _).
  - vm_compute. eauto.
  - intros n. reflexivity.
Defined.

(** ** The cache *)

(** X6. Round trip of the cache. When its SETEX goes through,
    [cacheResult] leaves the result under the key [idempotency:{key}] (with
    the prefix of the client), and [getCachedResult], its GET going
    through, reads it back under that key. Whether the write went through
    or not, the read of every other key is what it was before the write. *)
Theorem cache_round_trip env key result (R : gmap string RedisValue) :
  (redisFault env OpSetex = false →
   (RedisService.cacheResult env key result R).1
     !! (keyPrefix env +:+ "idempotency:" +:+ key) = Some (Json result)
   ∧ (redisFault env OpGet = false →
      (RedisService.getCachedResult env key
         (RedisService.cacheResult env key result R).1).2 = Some result))
  ∧ ∀ k, k ≠ key →
         (RedisService.getCachedResult env k
            (RedisService.cacheResult env key result R).1).2
         = (RedisService.getCachedResult env k R).2.
Proof.
  split.
  - intros Hset.
    unfold RedisService.getCachedResult, RedisService.cacheResult,
      Redis.get, Redis.setex, RedisService.cacheKey.
    rewrite Hset. cbn [fst]. rewrite lookup_insert_eq. split; [done |].
    by intros ->.
  - intros k Hk. unfold RedisService.getCachedResult, Redis.get.
    rewrite cacheResult_other by congruence.
    destruct (redisFault env OpGet); [done |].
    by destruct (R !! _) as [[s | r] |].
Qed.

Lemma cache_round_trip_witness :
  (RedisService.getCachedResult (Examples.env_ok Examples.id1) "t1"
     (RedisService.cacheResult (Examples.env_ok Examples.id1) "t1"
        Examples.t1_response ∅).1).2
  = Some Examples.t1_response.
Proof.
  exact (proj2 (proj1 (cache_round_trip (Examples.env_ok Examples.id1) "t1"
                         Examples.t1_response ∅) eq_refl) eq_refl).
Defined.

(** X7. [invalidateCache] forgets one key and nothing else: when its DEL
    goes through, the next read of the key is a miss; and in every case it
    leaves the cached result of every other key, and the lease of every
    key, as they were. *)
Theorem invalidateCache_forgets env key (R : gmap string RedisValue) :
  (redisFault env OpDel = false →
   (RedisService.getCachedResult env key (invalidateCache env key R).1).2 = None)
  ∧ (∀ k, k ≠ key →
          (RedisService.getCachedResult env k (invalidateCache env key R).1).2
          = (RedisService.getCachedResult env k R).2)
  ∧ (∀ k, Redis.get env (RedisService.lockKey k) (invalidateCache env key R).1
          = Redis.get env (RedisService.lockKey k) R).
Proof.
  unfold invalidateCache, RedisService.getCachedResult, Redis.get, Redis.del.
  split; [| split].
  - intros ->. cbn [fst]. rewrite lookup_delete_eq. by destruct (redisFault env OpGet).
  - intros k Hk. destruct (redisFault env OpDel); cbn [fst]; [done |].
    rewrite lookup_delete_ne by (apply cacheKey_ne_cacheKey; congruence).
    destruct (redisFault env OpGet); [done |].
    by destruct (R !! _) as [[s | r] |].
  - intros k. destruct (redisFault env OpDel); cbn [fst]; [done |].
    apply lookup_delete_ne, cacheKey_ne_lockKey.
Qed.

Lemma invalidateCache_forgets_witness :
  (RedisService.getCachedResult (Examples.env_ok Examples.id2) "t1"
     (invalidateCache (Examples.env_ok Examples.id2) "t1"
        (redis Examples.after_t1)).1).2 = None.
Proof.
  apply (invalidateCache_forgets (Examples.env_ok Examples.id2) "t1"
           (redis Examples.after_t1)).
  reflexivity.
Defined.

(** ** A key is processed at most once *)

Lemma quiet_quiet_where {A} P (t : Thread A) : quiet t → quiet_where P t.
Proof.
  induction t as [a | e | X op k IH]; simpl; try done.
  intros H w. destruct (H w) as [Hw Hk]. split; [done | by apply IH].
Qed.

Lemma quiet_where_bind {A B} P (t : Thread A) (k : A → Thread B) :
  quiet_where P t → (∀ a, quiet_where P (k a)) →
  quiet_where P (Thread.bind t k).
Proof.
  intros Ht Hk. induction t as [a | e | X op k' IH]; simpl; try done.
  intros w. destruct (Ht w) as [Hw Hrest]. split; [done | by apply IH].
Qed.

Lemma quiet_where_try_catch {A} P (t : Thread A) h :
  quiet_where P t → (∀ e, quiet_where P (h e)) →
  quiet_where P (Thread.try_catch t h).
Proof.
  intros Ht Hh. induction t as [a | e | X op k' IH]; simpl; try done.
  intros w. destruct (Ht w) as [Hw Hrest]. split; [done | by apply IH].
Qed.

Lemma quiet_where_finally {A} P (t : Thread A) c :
  quiet_where P t → quiet_where P c → quiet_where P (Thread.finally t c).
Proof.
  intros Ht Hc. induction t as [a | e | X op k' IH]; simpl.
  - by apply quiet_where_bind.
  - by apply quiet_where_bind.
  - intros w. destruct (Ht w) as [Hw Hrest]. split; [done | by apply IH].
Qed.

(** The unique index on [idempotencyKey] stops the callback at its first
    statement. *)
Lemma used_key_callback env request L :
  Ledger.has_log_key (idempotencyKey request) L = true →
  ∃ L' e, TransferService.transferCallback env request L = (L', inl e).
Proof.
  intros Hused.
  unfold TransferService.transferCallback, mbind, Tx_bind, Ledger.bind,
    Ledger.catch, TransactionLog_create.
  destruct (Validators.failures _ _).
  - unfold Ledger.insert_log, Ledger.bind, Ledger.fault.
    destruct (dbFault env OpInsertLog).
    { unfold Ledger.throw. destruct (String.eqb _ _); by eauto. }
    destruct (Utf8.has_nul _); [unfold Ledger.throw; simpl; by eauto |].
    destruct (JSNumber.numeric_in _).
    + destruct (255 <? Utf8.code_points _)%nat;
        [unfold Ledger.throw; simpl; by eauto |].
      rewrite Hused, orb_true_r. unfold Ledger.throw. simpl. by eauto.
    + unfold Ledger.throw. simpl. by eauto.
  - unfold Ledger.throw. destruct (String.eqb _ _); by eauto.
Qed.

Lemma used_key_transaction env request L :
  Ledger.has_log_key (idempotencyKey request) L = true →
  ∃ e, Ledger.transaction env (TransferService.transferCallback env request) L
       = (L, inl e).
Proof.
  intros Hused. unfold Ledger.transaction.
  destruct (dbFault env OpBegin); [by eauto |].
  destruct (used_key_callback env request L Hused) as (L' & e & ->). by eauto.
Qed.

(** X8. At most once, under any interleaving: an operation of a transfer
    request that starts while the ledger holds a log with the key of the
    request, written by whichever request, changes no wallet. The unique
    index turns the insert of the callback down and the transaction is
    rolled back, whether or not the request had seen the log before. *)
Theorem used_key_moves_no_money env request :
  quiet_where (key_used (idempotencyKey request))
              (TransferService.executeTransfer env request).
Proof.
  unfold TransferService.executeTransfer.
  destruct (TransferService.validateTransferRequest request); [done |].
  apply quiet_where_bind; [apply quiet_quiet_where, quiet_on_redis |].
  intros [cached |]; [done |].
  apply quiet_where_bind; [apply quiet_quiet_where, quiet_acquireLockLoop |].
  intros [|]; simpl negb; cbv iota.
  - apply quiet_where_finally; [| apply quiet_quiet_where, quiet_on_redis].
    apply quiet_where_try_catch;
      [| intros e; apply quiet_quiet_where, quiet_catchBlock].
    apply quiet_where_bind; [apply quiet_quiet_where, quiet_findOne |].
    intros [existing |]; [apply quiet_quiet_where, quiet_replyFromLog |].
    simpl. intros w. unfold Thread.on_ledger. split.
    + intros Hused.
      destruct (used_key_transaction env request (ledger w) Hused) as [e ->].
      by destruct w.
    + destruct (Ledger.transaction _ _ _) as [L [e | c]]; simpl; [done |].
      intros w'. unfold Thread.on_redis.
      by destruct (RedisService.cacheResult _ _ _ _).
  - apply quiet_quiet_where, quiet_lockNotAcquired.
Qed.

(** X9. A call whose key has a log already, run on its own: whatever the
    environment does (any fault of Redis or of the ledger), it changes no
    wallet, adds no row to the log table, and does not answer as the
    call that committed a transfer does. *)
Theorem used_key_never_processed_again env request (w w' : World) o :
  key_used (idempotencyKey request) w →
  Thread.run (TransferService.executeTransfer env request) w = (w', o) →
  wallets_of w' = wallets_of w
  ∧ length (logs_of w') = length (logs_of w)
  ∧ ∀ r, o = inr r → ¬ fresh_success r.
Proof.
  unfold key_used. intros Hused. rewrite run_executeTransfer.
  destruct (TransferService.validateTransferRequest request);
    [by intros [= <- <-] |].
  destruct (RedisService.getCachedResult _ _ _).2 as [cached |].
  { intros [= <- <-]. split; [done |]. split; [done |].
    intros r [= <-] [_ Hm]. discriminate Hm. }
  assert (∀ msg L, Ledger.wallets (TransferService.recordFailure env
                     (idempotencyKey request) msg L) = Ledger.wallets L
                   ∧ length (Ledger.logs (TransferService.recordFailure env
                               (idempotencyKey request) msg L))
                     = length (Ledger.logs L)) as Hrec.
  { intros msg L. unfold TransferService.recordFailure,
      Ledger.update_failed_where_key, Ledger.bind, Ledger.fault.
    destruct (dbFault env OpMarkFailed); [done |]. simpl.
    unfold Ledger.map_log_key. by rewrite length_map. }
  unfold RedisService.acquireLockWithRetry.
  destruct (acquireLockLoop_run env (idempotencyKey request)
              RedisService.LOCK_MAX_RETRIES 0 w) as (R & b & -> & _).
  destruct b.
  - rewrite run_lockAcquired, run_tryBlock.
    destruct (dbFault env OpLookup).
    { intros [= <- <-]. unfold wallets_of, logs_of.
      cbn [ledger set_redis set_ledger].
      destruct (Hrec (error_message e) (ledger w)) as [-> ->]. done. }
    cbn [ledger set_redis].
    destruct (Ledger.lookup_key (idempotencyKey request) (ledger w)) eqn:Hlog.
    + rewrite run_replyFromLog. intros [= <- <-].
      split; [done |]. split; [done |].
      intros r [= <-]. apply buildResponseFromLog_not_fresh.
    + apply lookup_key_None in Hlog. congruence.
  - rewrite run_lockNotAcquired.
    destruct (dbFault env OpFallbackLookup); [by intros [= <- <-] |].
    cbn [ledger set_redis].
    destruct (Ledger.lookup_key (idempotencyKey request) (ledger w)) eqn:Hlog.
    + rewrite run_replyFromLog. intros [= <- <-].
      split; [done |]. split; [done |].
      intros r [= <-]. apply buildResponseFromLog_not_fresh.
    + apply lookup_key_None in Hlog. congruence.
Qed.

Lemma used_key_never_processed_again_witness :
  wallets_of
    (Thread.run
       (TransferService.executeTransfer (Examples.env_no_redis Examples.id2)
          Examples.t1_request) Examples.after_t1).1
  = wallets_of Examples.after_t1.
Proof.
  exact (proj1 (used_key_never_processed_again
                  (Examples.env_no_redis Examples.id2) Examples.t1_request
                  Examples.after_t1
                  (Thread.run
                     (TransferService.executeTransfer
                        (Examples.env_no_redis Examples.id2)
                        Examples.t1_request) Examples.after_t1).1
                  (Thread.run
                     (TransferService.executeTransfer
                        (Examples.env_no_redis Examples.id2)
                        Examples.t1_request) Examples.after_t1).2
                  ltac:(vm_compute; reflexivity)
                  ltac:(vm_compute; reflexivity))).
Defined.

(** ** Invariants of the log table under interleaving *)

Section LedgerInvariant.

Variable J : Ledger.t → Prop.

Hypothesis J_recordFailure :
  ∀ env key msg L, J L → J (TransferService.recordFailure env key msg L).

Hypothesis J_commit :
  ∀ env request L L' c,
    Ledger.transaction env (TransferService.transferCallback env request) L
    = (L', inr c) →
    J L → J L'.

Let I (w : World) : Prop := J (ledger w).

Lemma keeps_ledger_on_redis {X}
    (f : gmap string RedisValue → gmap string RedisValue * X) :
  keeps I (Thread.atomic (Thread.on_redis f)).
Proof.
  intros w. unfold Thread.on_redis. by destruct (f (redis w)).
Qed.

Lemma keeps_ledger_acquireLockLoop env key remaining attempt :
  keeps I (RedisService.acquireLockLoop env key remaining attempt).
Proof.
  revert attempt. induction remaining as [| n IH]; intros attempt; simpl; [done |].
  intros w. unfold Thread.on_redis.
  destruct (RedisService.acquireLock env attempt key (redis w)) as [R [] ]; simpl.
  - done.
  - split; [done |]. intros w'. split; [done | apply IH].
Qed.

Lemma keeps_ledger_findOne env op key :
  keeps I (TransferService.findOne env op key).
Proof.
  intros w. unfold Thread.on_ledger, Ledger.findOne, Ledger.bind, Ledger.fault.
  destruct (dbFault env op); simpl; by rewrite set_ledger_same.
Qed.

Lemma executeTransfer_keeps_ledger env request :
  keeps I (TransferService.executeTransfer env request).
Proof.
  unfold TransferService.executeTransfer.
  destruct (TransferService.validateTransferRequest request); [done |].
  apply keeps_bind; [apply keeps_ledger_on_redis |].
  intros [cached |]; [done |].
  apply keeps_bind; [apply keeps_ledger_acquireLockLoop |].
  assert (∀ log, keeps I
                   (TransferService.replyFromLog env (idempotencyKey request) log))
    as Hreply.
  { intros log. apply keeps_bind; [apply keeps_ledger_on_redis | done]. }
  intros [|]; simpl negb; cbv iota.
  - apply keeps_finally; [| apply keeps_ledger_on_redis].
    apply keeps_try_catch.
    + apply keeps_bind; [apply keeps_ledger_findOne |].
      intros [existing |]; [apply Hreply |].
      simpl. intros w. unfold Thread.on_ledger.
      destruct (Ledger.transaction env _ (ledger w)) as [L' [e | c]] eqn:Htx;
        simpl.
      * apply transaction_rollback in Htx. subst L'. by rewrite set_ledger_same.
      * split; [intros Hw; by eapply J_commit |].
        apply (keeps_ledger_on_redis
                 (RedisService.cacheResult env (idempotencyKey request)
                    (TransferService.successResponse c))).
    + intros e. apply keeps_bind; [| done].
      intros w. split; [| done]. apply J_recordFailure.
  - apply keeps_bind; [apply keeps_ledger_findOne |].
    intros [existing |]; [apply Hreply | done].
Qed.

Lemma play_keeps_ledger {A} moves (w : World) (pool : list (Thread A)) :
  Forall (keeps I) pool → I w → I (Concurrent.play moves (w, pool)).1.
Proof.
  revert w pool. induction moves as [| m moves IH]; intros w pool Hpool Hw;
    [done |].
  simpl. destruct m as [i | key]; simpl.
  - destruct (pool !! i) as [t |] eqn:Hi; [| by apply IH].
    pose proof (advance_keeps I t w
                  (proj1 (Forall_lookup _ _) Hpool i t Hi) Hw) as [Hw' Ht'].
    destruct (Thread.advance t w) as [w' t']. simpl in *.
    apply IH; [| done]. by apply Forall_insert.
  - by apply IH.
Qed.

Lemma requests_keep_ledger calls moves (w : World) :
  J (ledger w) → J (ledger (Concurrent.play moves (w, requests calls)).1).
Proof.
  intros Hw. apply (play_keeps_ledger moves w (requests calls)); [| done].
  unfold requests. apply Forall_fmap, Forall_forall. intros [env request] _.
  apply executeTransfer_keeps_ledger.
Qed.

End LedgerInvariant.

Lemma has_log_key_false key (ls : list TransactionLog.t) :
  existsb (fun l => String.eqb (TransactionLog.idempotencyKey l) key) ls = false →
  key ∉ TransactionLog.idempotencyKey <$> ls.
Proof.
  induction ls as [| l ls IH]; simpl; [intros _; apply not_elem_of_nil |].
  destruct (String.eqb_spec (TransactionLog.idempotencyKey l) key) as [He | He];
    [done |].
  simpl. intros H. apply not_elem_of_cons. split; [congruence | by apply IH].
Qed.

(** X10. The idempotency keys of the log table stay distinct: from a table
    in which no two logs share a key, whatever requests run, with whatever
    environments (faults included), interleaved in whatever way and with
    whatever cache entries and leases expiring in between, no two logs
    ever share a key. *)
Theorem unique_keys_in_any_interleaving calls moves (w : World) :
  unique_keys w →
  unique_keys (Concurrent.play moves (w, requests calls)).1.
Proof.
  apply (requests_keep_ledger
           (fun L => NoDup (TransactionLog.idempotencyKey <$> Ledger.logs L))).
  - intros env key msg L HL.
    unfold TransferService.recordFailure, Ledger.update_failed_where_key,
      Ledger.bind, Ledger.fault.
    destruct (dbFault env OpMarkFailed); [done |]. simpl.
    unfold Ledger.map_log_key. rewrite <- list_fmap_compose.
    erewrite list_fmap_ext; [exact HL |].
    intros i l _. simpl. by destruct (String.eqb _ key).
  - intros env request L L' c Htx HL.
    apply transaction_inr, transferCallback_commit in Htx
      as (a & Hid & Hkey & _ & ->).
    rewrite committed_logs by done. rewrite fmap_app. simpl.
    apply NoDup_app. split; [done |]. split; [| apply NoDup_singleton].
    intros k Hk Hin. apply list_elem_of_singleton in Hin. subst k.
    by apply has_log_key_false in Hkey.
Qed.

Lemma unique_keys_in_any_interleaving_witness :
  unique_keys
    (Concurrent.play
       [Concurrent.Run 0; Concurrent.Run 1; Concurrent.Run 0; Concurrent.Run 1;
        Concurrent.Expire "wallet:lock:t1";
        Concurrent.Run 1; Concurrent.Run 0; Concurrent.Run 1; Concurrent.Run 0]
       (Examples.seeded,
        requests [(Examples.env_ok Examples.id1, Examples.t1_request);
                  (Examples.env_ok Examples.id2, Examples.t1_request)])).1.
Proof.
  apply (unique_keys_in_any_interleaving
           [(Examples.env_ok Examples.id1, Examples.t1_request);
            (Examples.env_ok Examples.id2, Examples.t1_request)]).
  vm_compute. apply NoDup_nil_2.
Defined.

(** X11. No PENDING row is ever visible: from a log table whose rows are
    all SUCCESS or FAILED, whatever requests run, with whatever
    environments, interleaved in whatever way, every row of the table is
    SUCCESS or FAILED after every operation. The PENDING row exists only
    inside its transaction. *)
Theorem no_pending_row_in_any_interleaving calls moves (w : World) :
  terminal_logs w →
  terminal_logs (Concurrent.play moves (w, requests calls)).1.
Proof.
  intros Hw. apply play_keeps_terminal; [| done].
  unfold requests. apply Forall_fmap, Forall_forall. intros [env request] _.
  apply executeTransfer_keeps_terminal.
Qed.

Lemma no_pending_row_in_any_interleaving_witness :
  terminal_logs
    (Concurrent.play
       [Concurrent.Run 0; Concurrent.Run 1; Concurrent.Run 0; Concurrent.Run 1;
        Concurrent.Run 0; Concurrent.Run 0; Concurrent.Run 1]
       (Examples.seeded,
        requests [(Examples.env_ok Examples.id1, Examples.t1_request);
                  (Examples.env_ok Examples.id2,
                   mkRequest Examples.bob Examples.alice "50.0000" "t2")])).1.
Proof.
  apply (no_pending_row_in_any_interleaving
           [(Examples.env_ok Examples.id1, Examples.t1_request);
            (Examples.env_ok Examples.id2,
             mkRequest Examples.bob Examples.alice "50.0000" "t2")]).
  vm_compute. apply Forall_nil_2.
Defined.

(** ** What a call does to the wallets *)

Lemma insert_log_wallets env id from to amount key md L L' row :
  Ledger.insert_log env id from to amount key md L = (L', inr row) →
  Ledger.wallets L' = Ledger.wallets L.
Proof.
  unfold Ledger.insert_log. intros H.
  apply bind_inr in H as (u & L1 & Hf & H). apply fault_inr in Hf. subst L1.
  destruct (Utf8.has_nul key); [done |].
  destruct (JSNumber.numeric_in amount) as [a |]; [| done].
  destruct (255 <? Utf8.code_points key)%nat; [done |].
  destruct (_ || _)%bool; [done |].
  destruct (negb _); [done |].
  by injection H as <- _.
Qed.

Lemma findByPk_value env op id L L' x :
  Ledger.findByPk env op id L = (L', inr x) →
  x = pair (Ledger.uuid_in id) <$> Ledger.wallets L !! Ledger.uuid_in id.
Proof.
  unfold Ledger.findByPk. intros H.
  apply bind_inr in H as (u & L1 & Hf & H). apply fault_inr in Hf. subst L1.
  by injection H as _ <-.
Qed.

Lemma update_wallet_wallets env op id balance version L L' u :
  Ledger.update_wallet env op id balance version L = (L', inr u) →
  ∃ b, JSNumber.numeric_in balance = Some b
       ∧ Ledger.wallets L'
         = alter (fun r => Wallet.mk (Wallet.userId r) b version) id
                 (Ledger.wallets L).
Proof.
  unfold Ledger.update_wallet. intros H.
  apply bind_inr in H as (u' & L1 & Hf & H). apply fault_inr in Hf. subst L1.
  destruct (JSNumber.numeric_in balance) as [b |]; [| done].
  destruct (2147483647 <? version); [done |].
  injection H as <-. by exists b.
Qed.

Lemma update_log_wallets env l s md L L' u :
  Ledger.update_log env l s md L = (L', inr u) →
  Ledger.wallets L' = Ledger.wallets L.
Proof.
  unfold Ledger.update_log. intros H.
  apply bind_inr in H as (u' & L1 & Hf & H). apply fault_inr in Hf. subst L1.
  by injection H as <-.
Qed.

(** Whichever of the two ids is locked first, each role gets the row read
    for its own id. *)
Lemma resolve_lockOrder {A} (row : string → A) (a b : string) :
  TransferService.resolve a (TransferService.lockOrder a b).1
    (row (TransferService.lockOrder a b).1)
    (row (TransferService.lockOrder a b).2) = row a
  ∧ TransferService.resolve b (TransferService.lockOrder a b).1
      (row (TransferService.lockOrder a b).1)
      (row (TransferService.lockOrder a b).2) = row b.
Proof.
  unfold TransferService.lockOrder, TransferService.resolve.
  destruct (String.ltb a b); simpl; rewrite String.eqb_refl.
  - split; [done |]. by destruct (String.eqb_spec b a) as [-> |].
  - split; [| done]. by destruct (String.eqb_spec a b) as [-> |].
Qed.

(** The wallets after a callback that has run to its end. *)
Lemma transferCallback_wallets env request L L' c :
  TransferService.transferCallback env request L = (L', inr c) →
  ∃ fw tw bf bt,
    Ledger.wallets L !! Ledger.uuid_in (fromWalletId request) = Some fw
    ∧ Ledger.wallets L !! Ledger.uuid_in (toWalletId request) = Some tw
    ∧ TransferService.c_fromBalance c
      = TransferService.newFromBalance
          (JSNumber.numeric_out (Wallet.balance fw)) (amount request)
    ∧ TransferService.c_toBalance c
      = TransferService.newToBalance
          (JSNumber.numeric_out (Wallet.balance tw)) (amount request)
    ∧ JSNumber.numeric_in (TransferService.c_fromBalance c) = Some bf
    ∧ JSNumber.numeric_in (TransferService.c_toBalance c) = Some bt
    ∧ JSNumber.lt (JSNumber.parseFloat (JSNumber.numeric_out (Wallet.balance fw)))
                  (JSNumber.parseFloat (amount request)) = false
    ∧ Ledger.wallets L'
      = alter (fun r => Wallet.mk (Wallet.userId r) bt (Wallet.version tw + 1))
              (Ledger.uuid_in (toWalletId request))
              (alter (fun r => Wallet.mk (Wallet.userId r) bf
                                         (Wallet.version fw + 1))
                     (Ledger.uuid_in (fromWalletId request))
                     (Ledger.wallets L)).
Proof.
  unfold TransferService.transferCallback, mbind, mret, Tx_bind, Tx_ret.
  intros H.
  apply bind_inr in H as (row & L1 & Hcreate & H).
  apply TransactionLog_create_inr, insert_log_wallets in Hcreate.
  pose proof (resolve_lockOrder
                (fun id => pair (Ledger.uuid_in id)
                             <$> Ledger.wallets L !! Ledger.uuid_in id)
                (fromWalletId request) (toWalletId request)) as [Hfrom Hto].
  destruct (TransferService.lockOrder _ _) as [firstLockId secondLockId].
  cbn [fst snd] in Hfrom, Hto.
  apply bind_inr in H as (firstWallet & L2 & Hfirst & H).
  pose proof (findByPk_value _ _ _ _ _ _ Hfirst) as ->.
  apply findByPk_inr in Hfirst. subst L2.
  apply bind_inr in H as (secondWallet & L2 & Hsecond & H).
  pose proof (findByPk_value _ _ _ _ _ _ Hsecond) as ->.
  apply findByPk_inr in Hsecond. subst L2.
  rewrite Hcreate, Hfrom, Hto in H.
  destruct (Ledger.wallets L !! Ledger.uuid_in (fromWalletId request))
    as [fw |]; [| done].
  destruct (Ledger.wallets L !! Ledger.uuid_in (toWalletId request))
    as [tw |]; [| by cbn in H].
  cbn [fmap option_fmap option_map] in H.
  destruct (JSNumber.lt _ _) eqn:Hlt; [done |].
  apply bind_inr in H as (u1 & L2 & Hupd1 & H).
  apply Wallet_update_inr, update_wallet_wallets in Hupd1 as (bf & Hbf & Hw2).
  apply bind_inr in H as (u2 & L3 & Hupd2 & H).
  apply Wallet_update_inr, update_wallet_wallets in Hupd2 as (bt & Hbt & Hw3).
  apply bind_inr in H as (u3 & L4 & Hlog & H).
  apply update_log_wallets in Hlog.
  unfold Ledger.ret in H. injection H as <- <-.
  exists fw, tw, bf, bt. cbn [TransferService.c_fromBalance
                              TransferService.c_toBalance].
  repeat split; try done.
  by rewrite Hlog, Hw3, Hw2, Hcreate.
Qed.

(** A call either leaves the wallets as they are and does not answer as a
    commit does, or its transaction has committed and it answers with the
    response of the commit. *)
Lemma run_wallets env request (w w' : World) o :
  Thread.run (TransferService.executeTransfer env request) w = (w', o) →
  (wallets_of w' = wallets_of w ∧ ∀ r, o = inr r → ¬ fresh_success r)
  ∨ ∃ L' c,
      TransferService.transferCallback env request (ledger w) = (L', inr c)
      ∧ wallets_of w' = Ledger.wallets L'
      ∧ o = inr (TransferService.successResponse c).
Proof.
  rewrite run_executeTransfer.
  destruct (TransferService.validateTransferRequest request);
    [intros [= <- <-]; by left |].
  destruct (RedisService.getCachedResult _ _ _).2 as [cached |].
  { intros [= <- <-]. left. split; [done |].
    intros r [= <-] [_ Hm]. discriminate Hm. }
  assert (∀ msg L, Ledger.wallets (TransferService.recordFailure env
                     (idempotencyKey request) msg L) = Ledger.wallets L)
    as Hrec.
  { intros msg L. unfold TransferService.recordFailure,
      Ledger.update_failed_where_key, Ledger.bind, Ledger.fault.
    by destruct (dbFault env OpMarkFailed). }
  unfold RedisService.acquireLockWithRetry.
  destruct (acquireLockLoop_run env (idempotencyKey request)
              RedisService.LOCK_MAX_RETRIES 0 w) as (R & b & -> & _).
  destruct b.
  - rewrite run_lockAcquired, run_tryBlock.
    destruct (dbFault env OpLookup).
    { intros [= <- <-]. left. unfold wallets_of.
      cbn [ledger set_redis set_ledger]. by rewrite Hrec. }
    cbn [ledger set_redis].
    destruct (Ledger.lookup_key (idempotencyKey request) (ledger w)).
    { rewrite run_replyFromLog. intros [= <- <-]. left. split; [done |].
      intros r [= <-]. apply buildResponseFromLog_not_fresh. }
    destruct (Ledger.transaction _ _ _) as [L [e | c]] eqn:Htx.
    + apply transaction_rollback in Htx. subst L.
      intros [= <- <-]. left. unfold wallets_of.
      cbn [ledger set_redis set_ledger]. by rewrite Hrec.
    + intros [= <- <-]. right. exists L, c.
      apply transaction_inr in Htx. done.
  - rewrite run_lockNotAcquired.
    destruct (dbFault env OpFallbackLookup); [intros [= <- <-]; by left |].
    cbn [ledger set_redis].
    destruct (Ledger.lookup_key (idempotencyKey request) (ledger w)).
    + rewrite run_replyFromLog. intros [= <- <-]. left. split; [done |].
      intros r [= <-]. apply buildResponseFromLog_not_fresh.
    + intros [= <- <-]. by left.
Qed.

Lemma userId_alter (f : Wallet.t → Wallet.t) k (m : gmap string Wallet.t) id :
  (∀ r, Wallet.userId (f r) = Wallet.userId r) →
  Wallet.userId <$> alter f k m !! id = Wallet.userId <$> m !! id.
Proof.
  intros Hf. destruct (decide (k = id)) as [-> | Hne].
  - rewrite lookup_alter_eq. destruct (m !! id); simpl; [| done].
    by rewrite Hf.
  - by rewrite lookup_alter_ne.
Qed.

(** X12. What a call can do to the wallet table, whatever its outcome: it
    changes no wallet other than the two its request names, it neither
    creates nor deletes a wallet, and it leaves the [userId] of every
    wallet as it is. *)
Theorem wallets_frame env request (w w' : World) o id :
  Thread.run (TransferService.executeTransfer env request) w = (w', o) →
  (id ≠ Ledger.uuid_in (fromWalletId request) →
   id ≠ Ledger.uuid_in (toWalletId request) →
   wallets_of w' !! id = wallets_of w !! id)
  ∧ Wallet.userId <$> wallets_of w' !! id = Wallet.userId <$> wallets_of w !! id.
Proof.
  intros Hrun.
  destruct (run_wallets env request w w' o Hrun)
    as [[-> _] | (L' & c & Hcb & -> & _)]; [done |].
  apply transferCallback_wallets in Hcb
    as (fw & tw & bf & bt & _ & _ & _ & _ & _ & _ & _ & ->).
  unfold wallets_of. split.
  - intros Hf Ht. by rewrite !lookup_alter_ne.
  - by rewrite !userId_alter.
Qed.

Lemma wallets_frame_witness :
  wallets_of
    (Thread.run
       (TransferService.executeTransfer (Examples.env_ok Examples.id1)
          Examples.t1_request) three_wallets).1 !! carol
  = Some (Wallet.mk "carol" 70000 0).
Proof.
  transitivity (wallets_of three_wallets !! carol); [| vm_compute; reflexivity].
  refine (proj1 (wallets_frame (Examples.env_ok Examples.id1)
                   Examples.t1_request three_wallets
                   (Thread.run
                      (TransferService.executeTransfer
                         (Examples.env_ok Examples.id1)
                         Examples.t1_request) three_wallets).1
                   (Thread.run
                      (TransferService.executeTransfer
                         (Examples.env_ok Examples.id1)
                         Examples.t1_request) three_wallets).2
                   carol
                   ltac:(vm_compute; reflexivity)) _ _);
    vm_compute; discriminate.
Defined.

(** X13. What a committed transfer writes to its two wallets, when they
    are two rows: the call that answers "Transfer completed successfully"
    found both wallets, did not find the source short of the amount (as
    the comparison of the two parsed numbers has it), and leaves each of
    them with the balance its response reports, as the column reads it,
    and with its version raised by one. *)
Theorem committed_transfer_wallets env request (w w' : World) r :
  Thread.run (TransferService.executeTransfer env request) w = (w', inr r) →
  fresh_success r →
  Ledger.uuid_in (fromWalletId request) ≠ Ledger.uuid_in (toWalletId request) →
  ∃ fw tw sf st bf bt,
    wallets_of w !! Ledger.uuid_in (fromWalletId request) = Some fw
    ∧ wallets_of w !! Ledger.uuid_in (toWalletId request) = Some tw
    ∧ JSNumber.lt (JSNumber.parseFloat (JSNumber.numeric_out (Wallet.balance fw)))
                  (JSNumber.parseFloat (amount request)) = false
    ∧ fromBalance r = Some sf ∧ toBalance r = Some st
    ∧ sf = TransferService.newFromBalance
             (JSNumber.numeric_out (Wallet.balance fw)) (amount request)
    ∧ st = TransferService.newToBalance
             (JSNumber.numeric_out (Wallet.balance tw)) (amount request)
    ∧ JSNumber.numeric_in sf = Some bf
    ∧ JSNumber.numeric_in st = Some bt
    ∧ wallets_of w' !! Ledger.uuid_in (fromWalletId request)
      = Some (Wallet.mk (Wallet.userId fw) bf (Wallet.version fw + 1))
    ∧ wallets_of w' !! Ledger.uuid_in (toWalletId request)
      = Some (Wallet.mk (Wallet.userId tw) bt (Wallet.version tw + 1)).
Proof.
  intros Hrun Hfresh Hne.
  destruct (run_wallets env request w w' (inr r) Hrun)
    as [[_ Hnot] | (L' & c & Hcb & Hw' & [= ->])];
    [by destruct (Hnot r eq_refl) |].
  apply transferCallback_wallets in Hcb
    as (fw & tw & bf & bt & Hfw & Htw & Hsf & Hst & Hbf & Hbt & Hlt & HL').
  exists fw, tw, (TransferService.c_fromBalance c),
    (TransferService.c_toBalance c), bf, bt.
  rewrite Hw', HL'. unfold wallets_of.
  repeat split; try done.
  - rewrite lookup_alter_ne by congruence.
    by rewrite lookup_alter_eq, Hfw.
  - by rewrite lookup_alter_eq, lookup_alter_ne, Htw by done.
Qed.

Lemma committed_transfer_wallets_witness :
  ∃ fw tw sf st bf bt,
    wallets_of Examples.seeded !! Ledger.uuid_in Examples.alice = Some fw
    ∧ wallets_of Examples.seeded !! Ledger.uuid_in Examples.bob = Some tw
    ∧ JSNumber.lt (JSNumber.parseFloat (JSNumber.numeric_out (Wallet.balance fw)))
                  (JSNumber.parseFloat "100.0000") = false
    ∧ Some "900.0000" = Some sf ∧ Some "600.0000" = Some st
    ∧ sf = TransferService.newFromBalance
             (JSNumber.numeric_out (Wallet.balance fw)) "100.0000"
    ∧ st = TransferService.newToBalance
             (JSNumber.numeric_out (Wallet.balance tw)) "100.0000"
    ∧ JSNumber.numeric_in sf = Some bf
    ∧ JSNumber.numeric_in st = Some bt
    ∧ wallets_of Examples.after_t1 !! Ledger.uuid_in Examples.alice
      = Some (Wallet.mk (Wallet.userId fw) bf (Wallet.version fw + 1))
    ∧ wallets_of Examples.after_t1 !! Ledger.uuid_in Examples.bob
      = Some (Wallet.mk (Wallet.userId tw) bt (Wallet.version tw + 1)).
Proof.
  apply (committed_transfer_wallets (Examples.env_ok Examples.id1)
           Examples.t1_request Examples.seeded Examples.after_t1
           Examples.t1_response).
  - vm_compute. reflexivity.
  - split; reflexivity.
  - vm_compute. discriminate.
Defined.

(** X14. A transfer from a wallet to itself gets past the check for equal
    ids when the two ids differ in the case of a letter, since the ledger
    reads both as the same [uuid]. The debit and the credit are then two
    updates of one row, each computed from the balance read before either:
    the credit, written last, stands. The call answers "Transfer completed
    successfully" and leaves the wallet with the balance reported for the
    destination, its version raised by one. *)
Theorem self_transfer_keeps_the_credit env request (w w' : World) r :
  Thread.run (TransferService.executeTransfer env request) w = (w', inr r) →
  fresh_success r →
  Ledger.uuid_in (fromWalletId request) = Ledger.uuid_in (toWalletId request) →
  ∃ fw st bt,
    wallets_of w !! Ledger.uuid_in (fromWalletId request) = Some fw
    ∧ toBalance r = Some st
    ∧ st = TransferService.newToBalance
             (JSNumber.numeric_out (Wallet.balance fw)) (amount request)
    ∧ JSNumber.numeric_in st = Some bt
    ∧ wallets_of w' !! Ledger.uuid_in (fromWalletId request)
      = Some (Wallet.mk (Wallet.userId fw) bt (Wallet.version fw + 1)).
Proof.
  intros Hrun Hfresh Heq.
  destruct (run_wallets env request w w' (inr r) Hrun)
    as [[_ Hnot] | (L' & c & Hcb & Hw' & [= ->])];
    [by destruct (Hnot r eq_refl) |].
  apply transferCallback_wallets in Hcb
    as (fw & tw & bf & bt & Hfw & Htw & Hsf & Hst & Hbf & Hbt & Hlt & HL').
  rewrite <- Heq in *. assert (tw = fw) as -> by congruence.
  exists fw, (TransferService.c_toBalance c), bt.
  rewrite Hw', HL'. unfold wallets_of.
  repeat split; try done.
  by rewrite !lookup_alter_eq, Hfw.
Qed.

Lemma self_transfer_keeps_the_credit_witness :
  let request := mkRequest CAROL carol "100.0000" "self" in
  let res := Thread.run
               (TransferService.executeTransfer (Examples.env_ok Examples.id1)
                  request) (one_wallet 10000000) in
  res.2 = inr (mkResponse true Examples.id1 "Transfer completed successfully"
                 (Some "900.0000") (Some "1100.0000"))
  ∧ wallets_of res.1 !! carol = Some (Wallet.mk "carol" 11000000 1).
Proof.
  intros request res. split; [vm_compute; reflexivity |].
  destruct (self_transfer_keeps_the_credit (Examples.env_ok Examples.id1)
              request (one_wallet 10000000) res.1
              (mkResponse true Examples.id1 "Transfer completed successfully"
                 (Some "900.0000") (Some "1100.0000"))
              ltac:(vm_compute; reflexivity)
              ltac:(split; reflexivity)
              ltac:(vm_compute; reflexivity))
    as (fw & st & bt & Hfw & Hst & _ & Hbt & Hafter).
  injection Hst as <-.
  assert (fw = Wallet.mk "carol" 10000000 0) as ->
    by (vm_compute in Hfw; congruence).
  assert (bt = 11000000) as -> by (vm_compute in Hbt; congruence).
  exact Hafter.
Defined.

(** ** The errors a call ends in *)

Lemma bind_inl {A B} (m : Ledger.Tx A) (k : A → Ledger.Tx B) L L' e :
  Ledger.bind m k L = (L', inl e) →
  m L = (L', inl e) ∨ ∃ a L1, m L = (L1, inr a) ∧ k a L1 = (L', inl e).
Proof.
  unfold Ledger.bind. destruct (m L) as [L1 [e1 | a]].
  - intros [= <- <-]. by left.
  - intros H. right. by eauto.
Qed.

Lemma fault_inl env op L L' e :
  raw_faults env → Ledger.fault env op L = (L', inl e) →
  ∃ n m, e = OtherError n m.
Proof.
  intros Hraw. unfold Ledger.fault.
  destruct (dbFault env op) as [e' |] eqn:Hf; [| done].
  intros [= _ <-]. by eapply Hraw.
Qed.

Lemma findByPk_inl env op id L L' e :
  raw_faults env → Ledger.findByPk env op id L = (L', inl e) →
  ∃ n m, e = OtherError n m.
Proof.
  intros Hraw H. unfold Ledger.findByPk in H.
  apply bind_inl in H as [H | (u & L1 & _ & H)]; [| done].
  by eapply fault_inl.
Qed.

Lemma update_wallet_inl env op id balance version L L' e :
  raw_faults env → Ledger.update_wallet env op id balance version L = (L', inl e) →
  ∃ n m, e = OtherError n m.
Proof.
  intros Hraw H. unfold Ledger.update_wallet in H.
  apply bind_inl in H as [H | (u & L1 & _ & H)]; [by eapply fault_inl |].
  destruct (JSNumber.numeric_in balance); [| injection H as _ <-; by eauto].
  destruct (2147483647 <? version); [| done].
  injection H as _ <-. by eauto.
Qed.

Lemma Wallet_update_inl env op id balance version L L' e :
  raw_faults env → Wallet_update env op id balance version L = (L', inl e) →
  ∃ n m, e = OtherError n m.
Proof.
  intros Hraw. unfold Wallet_update.
  destruct (Validators.wallet_failures balance).
  - by apply update_wallet_inl.
  - unfold Ledger.throw. intros [= _ <-]. by eauto.
Qed.

Lemma update_log_inl env l s md L L' e :
  raw_faults env → Ledger.update_log env l s md L = (L', inl e) →
  ∃ n m, e = OtherError n m.
Proof.
  intros Hraw H. unfold Ledger.update_log in H.
  apply bind_inl in H as [H | (u & L1 & _ & H)]; [| done].
  by eapply fault_inl.
Qed.

Lemma insert_log_inl env id from to amount key md L L' e :
  raw_faults env →
  Ledger.insert_log env id from to amount key md L = (L', inl e) →
  ∃ n m, e = OtherError n m.
Proof.
  intros Hraw H. unfold Ledger.insert_log in H.
  apply bind_inl in H as [H | (u & L1 & _ & H)]; [by eapply fault_inl |].
  destruct (Utf8.has_nul key); [injection H as _ <-; by eauto |].
  destruct (JSNumber.numeric_in amount); [| injection H as _ <-; by eauto].
  destruct (255 <? Utf8.code_points key)%nat; [injection H as _ <-; by eauto |].
  destruct (_ || _)%bool; [injection H as _ <-; by eauto |].
  destruct (negb _); [| done].
  injection H as _ <-. by eauto.
Qed.

(** The foreign keys of the log table: a row that has been inserted names
    two wallets that exist. *)
Lemma insert_log_has_wallets env id from to amount key md L L' row :
  Ledger.insert_log env id from to amount key md L = (L', inr row) →
  is_Some (Ledger.wallets L !! Ledger.uuid_in from)
  ∧ is_Some (Ledger.wallets L !! Ledger.uuid_in to).
Proof.
  unfold Ledger.insert_log. intros H.
  apply bind_inr in H as (u & L1 & Hf & H). apply fault_inr in Hf. subst L1.
  destruct (Utf8.has_nul key); [done |].
  destruct (JSNumber.numeric_in amount) as [a |]; [| done].
  destruct (255 <? Utf8.code_points key)%nat; [done |].
  destruct (_ || _)%bool; [done |].
  destruct (Ledger.has_wallet from L && Ledger.has_wallet to L)%bool eqn:Hfk;
    [| done].
  apply andb_true_iff in Hfk as [Hfrom Hto].
  unfold Ledger.has_wallet in *.
  by apply bool_decide_eq_true in Hfrom, Hto.
Qed.

(** The errors of the transaction callback, when the ledger connection
    fails with errors of its own only: an error of the driver or of the
    model, a duplicate key, or an insufficient balance. *)
Lemma transferCallback_error env request L L' e :
  raw_faults env →
  TransferService.transferCallback env request L = (L', inl e) →
  (∃ n m, e = OtherError n m)
  ∨ e = TransferError "Duplicate request detected" 409 "DUPLICATE_REQUEST"
  ∨ ∃ m, e = TransferError m 400 "INSUFFICIENT_BALANCE".
Proof.
  intros Hraw.
  unfold TransferService.transferCallback, mbind, mret, Tx_bind, Tx_ret.
  intros H. apply bind_inl in H as [H | (row & L1 & Hcreate & H)].
  { unfold Ledger.catch, TransactionLog_create in H.
    destruct (Validators.failures _ _).
    - destruct (Ledger.insert_log _ _ _ _ _ _ _ L) as [L1 [e0 | a]] eqn:Hins;
        [| done].
      apply insert_log_inl in Hins as (n & m & ->); [| done].
      unfold Ledger.throw in H. destruct (String.eqb _ _).
      + injection H as _ <-. by right; left.
      + injection H as _ <-. by left; eauto.
    - unfold Ledger.throw in H. simpl in H. injection H as _ <-.
      by left; eauto. }
  apply TransactionLog_create_inr in Hcreate.
  pose proof (insert_log_has_wallets _ _ _ _ _ _ _ _ _ _ Hcreate)
    as [[fw Hfw] [tw Htw]].
  apply insert_log_wallets in Hcreate.
  pose proof (resolve_lockOrder
                (fun id => pair (Ledger.uuid_in id)
                             <$> Ledger.wallets L !! Ledger.uuid_in id)
                (fromWalletId request) (toWalletId request)) as [Hfrom Hto].
  destruct (TransferService.lockOrder _ _) as [firstLockId secondLockId].
  cbn [fst snd] in Hfrom, Hto.
  apply bind_inl in H as [H | (firstWallet & L2 & Hfirst & H)];
    [left; by eapply findByPk_inl |].
  pose proof (findByPk_value _ _ _ _ _ _ Hfirst) as ->.
  apply findByPk_inr in Hfirst. subst L2.
  apply bind_inl in H as [H | (secondWallet & L2 & Hsecond & H)];
    [left; by eapply findByPk_inl |].
  pose proof (findByPk_value _ _ _ _ _ _ Hsecond) as ->.
  apply findByPk_inr in Hsecond. subst L2.
  rewrite Hcreate, Hfrom, Hto, Hfw, Htw in H.
  cbn [fmap option_fmap option_map] in H.
  destruct (JSNumber.lt _ _).
  { unfold Ledger.throw in H. injection H as _ <-. right; right. by eauto. }
  apply bind_inl in H as [H | (u1 & L2 & _ & H)];
    [left; by eapply Wallet_update_inl |].
  apply bind_inl in H as [H | (u2 & L3 & _ & H)];
    [left; by eapply Wallet_update_inl |].
  apply bind_inl in H as [H | (u3 & L4 & _ & H)];
    [left; by eapply update_log_inl |].
  done.
Qed.

Lemma transaction_error env request L L' e :
  raw_faults env →
  Ledger.transaction env (TransferService.transferCallback env request) L
  = (L', inl e) →
  (∃ n m, e = OtherError n m)
  ∨ e = TransferError "Duplicate request detected" 409 "DUPLICATE_REQUEST"
  ∨ ∃ m, e = TransferError m 400 "INSUFFICIENT_BALANCE".
Proof.
  intros Hraw. unfold Ledger.transaction.
  destruct (dbFault env OpBegin) as [e0 |] eqn:Hbegin.
  { intros [= _ <-]. left. by eapply Hraw. }
  destruct (TransferService.transferCallback env request L)
    as [L1 [e1 | c]] eqn:Hcb.
  - intros [= _ <-]. by eapply transferCallback_error.
  - destruct (dbFault env OpCommit) as [e0 |] eqn:Hcommit; [| done].
    intros [= _ <-]. left. by eapply Hraw.
Qed.

Ltac in_list := apply list_elem_of_In; simpl; auto 12.

Lemma validateTransferRequest_codes request e :
  TransferService.validateTransferRequest request = Some e →
  ∃ m s c, e = TransferError m s c ∧ (s, c) ∈ thrown_codes.
Proof.
  unfold TransferService.validateTransferRequest.
  repeat case_match; intros [= <-]; eexists _, _, _; (split; [done |]);
    in_list.
Qed.

Lemma rethrown_codes e :
  (∃ n m, e = OtherError n m)
  ∨ e = TransferError "Duplicate request detected" 409 "DUPLICATE_REQUEST"
  ∨ (∃ m, e = TransferError m 400 "INSUFFICIENT_BALANCE") →
  ∃ m s c, TransferService.rethrown e = TransferError m s c
           ∧ (s, c) ∈ thrown_codes.
Proof.
  intros [(n & m & ->) | [-> | (m & ->)]]; simpl;
    eexists _, _, _; (split; [done |]); in_list.
Qed.

Lemma executeTransfer_errors env request (w w' : World) e :
  raw_faults env →
  Thread.run (TransferService.executeTransfer env request) w = (w', inl e) →
  dbFault env OpFallbackLookup = Some e
  ∨ ∃ m s c, e = TransferError m s c ∧ (s, c) ∈ thrown_codes.
Proof.
  intros Hraw. rewrite run_executeTransfer.
  destruct (TransferService.validateTransferRequest request) as [e0 |] eqn:Hv.
  { intros [= _ <-]. right. by eapply validateTransferRequest_codes. }
  destruct (RedisService.getCachedResult _ _ _).2; [done |].
  unfold RedisService.acquireLockWithRetry.
  destruct (acquireLockLoop_run env (idempotencyKey request)
              RedisService.LOCK_MAX_RETRIES 0 w) as (R & b & -> & _).
  destruct b.
  - rewrite run_lockAcquired, run_tryBlock.
    destruct (dbFault env OpLookup) as [e0 |] eqn:Hlookup.
    { intros [= _ <-]. right. apply rethrown_codes. left. by eapply Hraw. }
    cbn [ledger set_redis].
    destruct (Ledger.lookup_key (idempotencyKey request) (ledger w)).
    { by rewrite run_replyFromLog. }
    destruct (Ledger.transaction _ _ _) as [L [e0 | c]] eqn:Htx; [| done].
    intros [= _ <-]. right. apply rethrown_codes.
    by eapply transaction_error.
  - rewrite run_lockNotAcquired.
    destruct (dbFault env OpFallbackLookup) as [e0 |] eqn:Hfb.
    { intros [= _ <-]. by left. }
    cbn [ledger set_redis].
    destruct (Ledger.lookup_key (idempotencyKey request) (ledger w)).
    { by rewrite run_replyFromLog. }
    intros [= _ <-]. right. eexists _, _, _. split; [done |]. in_list.
Qed.

(** X15. The errors of a call, when the ledger connection fails with errors
    of its own only. Every error a call ends in is a [TransferError] with
    one of nine pairs of status and code, except that a failure of the
    lookup made after the retry budget is spent, which is outside the
    [try], reaches the caller as it is. In particular no call ends in
    404 WALLET_NOT_FOUND: the foreign keys of the log table turn the
    insert down before the wallets are read. *)
Theorem thrown_errors env request (w w' : World) e :
  raw_faults env →
  Thread.run (TransferService.executeTransfer env request) w = (w', inl e) →
  dbFault env OpFallbackLookup = Some e
  ∨ ∃ m s c, e = TransferError m s c
             ∧ (s, c) ∈ thrown_codes
             ∧ c ≠ "WALLET_NOT_FOUND".
Proof.
  intros Hraw Hrun.
  destruct (executeTransfer_errors env request w w' e Hraw Hrun)
    as [H | (m & s & c & -> & Hin)]; [by left |].
  right. exists m, s, c. split; [done |]. split; [done |].
  intros ->. unfold thrown_codes in Hin.
  apply list_elem_of_In in Hin. simpl in Hin.
  repeat (destruct Hin as [Hin | Hin]; [discriminate Hin |]). done.
Qed.

Lemma thrown_errors_witness :
  let env := Examples.env_ok Examples.id1 in
  let request := mkRequest Examples.alice Examples.bob "2000.0000" "i1" in
  let e := TransferError
             "Insufficient balance. Available: 1000.0000, Required: 2000.0000"
             400 "INSUFFICIENT_BALANCE" in
  dbFault env OpFallbackLookup = Some e
  ∨ ∃ m s c, e = TransferError m s c
             ∧ (s, c) ∈ thrown_codes
             ∧ c ≠ "WALLET_NOT_FOUND".
Proof.
  intros env request e.
  apply (thrown_errors env request Examples.seeded
           (Thread.run (TransferService.executeTransfer env request)
              Examples.seeded).1 e).
  - intros op e' H. discriminate H.
  - vm_compute. reflexivity.
Defined.

(** ** The reply of the controller *)

Lemma run_transfer env NODE_ENV b (w : World) :
  Thread.run (Http.transfer env NODE_ENV b) w =
  match Thread.run (TransferService.executeTransfer env (Http.transferRequest b)) w
  with
  | (w', inr result) =>
      (w', inr (Http.mkHttp (if success result then 200 else 400)
                            (Http.Result result)))
  | (w', inl error) => (w', inr (Http.errorHandler NODE_ENV error))
  end.
Proof.
  unfold Http.transfer, mbind, Thread_bind.
  rewrite run_try_catch, run_bind.
  by destruct (Thread.run (TransferService.executeTransfer _ _) w)
    as [w' [e | r]].
Qed.

(** X16. The reply to POST /transfer, for a body whose fields are strings
    or absent and a ledger connection that fails with errors of its own
    only. The controller always replies; the status is 200, 400, 409 or
    500; it is 200 exactly when the body is a transfer response with
    [success: true], and 400 for a transfer response with [success: false],
    which is what a replayed FAILED or PENDING log gives. *)
Theorem transfer_reply env NODE_ENV b (w : World) :
  raw_faults env →
  ∃ resp,
    (Thread.run (Http.transfer env NODE_ENV b) w).2 = inr resp
    ∧ Http.status resp ∈ [200; 400; 409; 500]
    ∧ (Http.status resp = 200
       ↔ ∃ r, Http.body resp = Http.Result r ∧ success r = true)
    ∧ (∀ r, Http.body resp = Http.Result r → success r = false →
            Http.status resp = 400).
Proof.
  intros Hraw. rewrite run_transfer.
  destruct (Thread.run (TransferService.executeTransfer _ _) w)
    as [w' [e | r]] eqn:Hrun; cbn [snd]; eexists; (split; [done |]).
  - assert (∃ s c m, Http.errorHandler NODE_ENV e = Http.mkHttp s (Http.Failure c m)
                     ∧ (s = 400 ∨ s = 409 ∨ s = 500)) as (s & c & m & -> & Hs).
    { assert (∀ n m, ∃ s c m',
                Http.errorHandler NODE_ENV (OtherError n m)
                = Http.mkHttp s (Http.Failure c m')
                ∧ (s = 400 ∨ s = 409 ∨ s = 500))
        as Hother.
      { intros n m. unfold Http.errorHandler.
        repeat case_match; eexists _, _, _; (split; [done |]); auto. }
      destruct (executeTransfer_errors env _ w w' e Hraw Hrun)
        as [Hfb | (m & s & c & -> & Hin)].
      - destruct (Hraw _ _ Hfb) as (n & m & ->). apply Hother.
      - simpl. eexists _, _, _. split; [done |].
        unfold thrown_codes in Hin. apply list_elem_of_In in Hin. simpl in Hin.
        repeat (destruct Hin as [[= <- <-] | Hin]; [auto |]). done. }
    cbn [Http.status Http.body].
    split; [in_list; intuition |]. split; [| done].
    split.
    + intros ->. by destruct Hs as [Hs | [Hs | Hs]].
    + by intros (r & Hr & _).
  - cbn [Http.status Http.body]. destruct (success r) eqn:Hs.
    + split; [in_list |]. split; [| by intros r' [= <-]; congruence].
      split; [by eauto | done].
    + split; [in_list |]. split; [| done].
      split; [done |]. intros (r' & [= <-] & Hr'). congruence.
Qed.

Lemma transfer_reply_witness :
  ∃ resp,
    (Thread.run
       (Http.transfer (Examples.env_ok Examples.id1) "production"
          (Http.mkBody (Some Examples.alice) (Some Examples.bob)
                       (Some "100.0000") (Some "t1")))
       Examples.seeded).2 = inr resp
    ∧ Http.status resp ∈ [200; 400; 409; 500]
    ∧ (Http.status resp = 200
       ↔ ∃ r, Http.body resp = Http.Result r ∧ success r = true)
    ∧ (∀ r, Http.body resp = Http.Result r → success r = false →
            Http.status resp = 400).
Proof.
  apply (transfer_reply (Examples.env_ok Examples.id1) "production"
           (Http.mkBody (Some Examples.alice) (Some Examples.bob)
                        (Some "100.0000") (Some "t1"))
           Examples.seeded).
  intros op e H. discriminate H.
Defined.

(** X17. What [errorHandler] keeps from the client in production it has no
    chance to keep when the error comes from inside the [try] of
    [executeTransfer]: a failure of the ledger lookup with a message of the
    driver is rethrown as a [TransferError] that carries this message, and
    the reply is 500 TRANSFER_FAILED with the message of the driver in it,
    whatever NODE_ENV is. *)
Theorem driver_message_reaches_client env NODE_ENV b (w : World) n m :
  let request := Http.transferRequest b in
  TransferService.validateTransferRequest request = None →
  (RedisService.getCachedResult env (idempotencyKey request) (redis w)).2 = None →
  Redis.get env (RedisService.lockKey (idempotencyKey request)) (redis w) = None →
  dbFault env OpLookup = Some (OtherError n m) →
  JSNumber.is_empty m = false →
  (Thread.run (Http.transfer env NODE_ENV b) w).2
  = inr (Http.mkHttp 500 (Http.Failure "TRANSFER_FAILED" m)).
Proof.
  intros request Hvalid Hmiss Hfree Hfault Hm.
  rewrite run_transfer, run_executeTransfer. fold request.
  rewrite Hvalid, Hmiss.
  unfold RedisService.acquireLockWithRetry, RedisService.LOCK_MAX_RETRIES.
  destruct (acquireLockLoop_free_run env (idempotencyKey request) 49 0 w Hfree)
    as [R ->].
  rewrite run_lockAcquired, run_tryBlock, Hfault.
  cbn [snd TransferService.rethrown]. by rewrite Hm.
Qed.

Lemma driver_message_reaches_client_witness :
  (Thread.run
     (Http.transfer (Examples.env_lookup_fault Examples.id2) "production"
        (Http.mkBody (Some Examples.alice) (Some Examples.bob)
                     (Some "100.0000") (Some "t9")))
     Examples.seeded).2
  = inr (Http.mkHttp 500 (Http.Failure "TRANSFER_FAILED" "Operation timeout")).
Proof.
  apply (driver_message_reaches_client (Examples.env_lookup_fault Examples.id2)
           "production"
           (Http.mkBody (Some Examples.alice) (Some Examples.bob)
                        (Some "100.0000") (Some "t9"))
           Examples.seeded "SequelizeConnectionAcquireTimeoutError"
           "Operation timeout"); vm_compute; reflexivity.
Defined.

(** ** The validators of the model *)

Lemma transaction_invalid env request L m fs :
  Validators.failures (amount request) (idempotencyKey request) = m :: fs →
  dbFault env OpBegin = None →
  Ledger.transaction env (TransferService.transferCallback env request) L
  = (L, inl (OtherError "SequelizeValidationError" (Validators.join (m :: fs)))).
Proof.
  intros Hfs Hbegin. unfold Ledger.transaction. rewrite Hbegin.
  unfold TransferService.transferCallback, mbind, Tx_bind, Ledger.bind,
    Ledger.catch, TransactionLog_create.
  by rewrite Hfs.
Qed.

(** X18. A request that [validateTransferRequest] lets through and a
    validator of the [TransactionLog] model turns down (an amount that
    [parseFloat] reads by its leading digits and [isDecimal] refuses, such
    as "100abc" or "+100.0000"; a key of white space; a key of more than
    255 characters) is not answered as a bad request: when the call
    reaches its transaction, it fails with 500 TRANSFER_FAILED and the
    joined messages of the validators, and the ledger is left as it was. *)
Theorem model_validation_failure_is_500 env request (w : World) :
  let key := idempotencyKey request in
  Validators.failures (amount request) key ≠ [] →
  TransferService.validateTransferRequest request = None →
  (RedisService.getCachedResult env key (redis w)).2 = None →
  Redis.get env (RedisService.lockKey key) (redis w) = None →
  dbFault env OpLookup = None →
  dbFault env OpBegin = None →
  Ledger.lookup_key key (ledger w) = None →
  ∃ w',
    Thread.run (TransferService.executeTransfer env request) w
    = (w', inl (TransferError
                  (Validators.join (Validators.failures (amount request) key))
                  500 "TRANSFER_FAILED"))
    ∧ ledger w' = ledger w.
Proof.
  intros key Hfs Hvalid Hmiss Hfree Hlookup Hbegin Hnolog.
  destruct (Validators.failures (amount request) key) as [| m fs] eqn:Hfail;
    [done |].
  rewrite run_executeTransfer, Hvalid. fold key. rewrite Hmiss.
  unfold RedisService.acquireLockWithRetry, RedisService.LOCK_MAX_RETRIES.
  destruct (acquireLockLoop_free_run env key 49 0 w Hfree) as [R ->].
  rewrite run_lockAcquired, run_tryBlock, Hlookup. fold key.
  cbn [ledger set_redis]. rewrite Hnolog.
  rewrite (transaction_invalid env request (ledger w) m fs) by done.
  eexists. split.
  - unfold TransferService.rethrown. by rewrite join_not_empty.
  - cbn [ledger set_redis set_ledger]. by rewrite recordFailure_absent.
Qed.

Lemma model_validation_failure_is_500_witness :
  ∃ w',
    Thread.run
      (TransferService.executeTransfer (Examples.env_ok Examples.id1)
         (mkRequest Examples.alice Examples.bob "100abc" "t1")) Examples.seeded
    = (w', inl (TransferError
                  "Validation error: Validation isDecimal on amount failed"
                  500 "TRANSFER_FAILED"))
    ∧ ledger w' = ledger Examples.seeded.
Proof.
  apply (model_validation_failure_is_500 (Examples.env_ok Examples.id1)
           (mkRequest Examples.alice Examples.bob "100abc" "t1")
           Examples.seeded); vm_compute; (reflexivity || discriminate).
Defined.

(** ** What [validateTransferRequest] lets through *)

Lemma hex_run_length n s r :
  TransferService.hex_run n s = Some r →
  String.length s = (n + String.length r)%nat.
Proof.
  revert s. induction n as [| n IH]; intros s; simpl.
  - by intros [= ->].
  - destruct s as [| c s]; [done |].
    destruct (TransferService.is_hex c); [| done].
    intros H. simpl. by rewrite (IH _ H).
Qed.

Lemma dash_length s r :
  TransferService.dash s = Some r → String.length s = S (String.length r).
Proof.
  destruct s as [| c s]; [done |].
  destruct c as [[] [] [] [] [] [] [] []]; try done.
  by intros [= ->].
Qed.

Lemma uuidRegex_test_length s :
  TransferService.uuidRegex_test s = true → String.length s = 36%nat.
Proof.
  unfold TransferService.uuidRegex_test.
  destruct (TransferService.hex_run 8 s) as [s1 |] eqn:H1; cbn [mbind option_bind]; [| done].
  destruct (TransferService.dash s1) as [s2 |] eqn:H2; cbn [mbind option_bind]; [| done].
  destruct (TransferService.hex_run 4 s2) as [s3 |] eqn:H3; cbn [mbind option_bind]; [| done].
  destruct (TransferService.dash s3) as [s4 |] eqn:H4; cbn [mbind option_bind]; [| done].
  destruct (TransferService.hex_run 4 s4) as [s5 |] eqn:H5; cbn [mbind option_bind]; [| done].
  destruct (TransferService.dash s5) as [s6 |] eqn:H6; cbn [mbind option_bind]; [| done].
  destruct (TransferService.hex_run 4 s6) as [s7 |] eqn:H7; cbn [mbind option_bind]; [| done].
  destruct (TransferService.dash s7) as [s8 |] eqn:H8; cbn [mbind option_bind]; [| done].
  destruct (TransferService.hex_run 12 s8) as [[| c r] |] eqn:H9; [| done | done].
  intros _.
  apply hex_run_length in H1, H3, H5, H7, H9.
  apply dash_length in H2, H4, H6, H8.
  simpl in H9. lia.
Qed.

(** X19. What a request that passes [validateTransferRequest] is known to
    be: its two wallet ids are different strings of 36 characters each, and
    neither its amount nor its idempotency key is empty. Nothing bounds the
    length of the key or of the amount. *)
Theorem validateTransferRequest_sound request :
  TransferService.validateTransferRequest request = None →
  fromWalletId request ≠ toWalletId request
  ∧ String.length (fromWalletId request) = 36%nat
  ∧ String.length (toWalletId request) = 36%nat
  ∧ amount request ≠ ""
  ∧ idempotencyKey request ≠ "".
Proof.
  unfold TransferService.validateTransferRequest.
  destruct (JSNumber.is_empty (fromWalletId request)
            || JSNumber.is_empty (toWalletId request)
            || JSNumber.is_empty (amount request)
            || JSNumber.is_empty (idempotencyKey request))%bool eqn:Hempty;
    [done |].
  destruct (String.eqb_spec (fromWalletId request) (toWalletId request));
    [done |].
  destruct (JSNumber.isNaN _ || JSNumber.le _ _)%bool; [done |].
  destruct (JSNumber.lt _ _); [done |].
  destruct (negb (TransferService.uuidRegex_test (fromWalletId request))
            || negb (TransferService.uuidRegex_test (toWalletId request)))%bool
    eqn:Hre; [done |].
  intros _.
  apply orb_false_iff in Hre as [Hfrom Hto].
  apply negb_false_iff in Hfrom, Hto.
  apply orb_false_iff in Hempty as [Hempty Hkey].
  apply orb_false_iff in Hempty as [_ Hamount].
  repeat split; try done; try (by apply uuidRegex_test_length).
  - intros H. by rewrite H in Hamount.
  - intros H. by rewrite H in Hkey.
Qed.

Lemma validateTransferRequest_sound_witness :
  Examples.alice ≠ Examples.bob
  ∧ String.length Examples.alice = 36%nat
  ∧ String.length Examples.bob = 36%nat
  ∧ "100.0000" ≠ ""
  ∧ "t1" ≠ "".
Proof.
  apply (validateTransferRequest_sound Examples.t1_request).
  vm_compute. reflexivity.
Defined.

Lemma is_hex_lower c :
  TransferService.is_hex (Ledger.lower c) = TransferService.is_hex c.
Proof. by destruct c as [[] [] [] [] [] [] [] []]. Qed.

Lemma lower_lower c : Ledger.lower (Ledger.lower c) = Ledger.lower c.
Proof. by destruct c as [[] [] [] [] [] [] [] []]. Qed.

Lemma hex_run_uuid_in n s :
  TransferService.hex_run n (Ledger.uuid_in s)
  = Ledger.uuid_in <$> TransferService.hex_run n s.
Proof.
  revert s. induction n as [| n IH]; intros s; simpl; [done |].
  destruct s as [| c s]; simpl; [done |].
  rewrite is_hex_lower. destruct (TransferService.is_hex c); [apply IH | done].
Qed.

Lemma dash_uuid_in s :
  TransferService.dash (Ledger.uuid_in s)
  = Ledger.uuid_in <$> TransferService.dash s.
Proof.
  destruct s as [| c s]; [done |].
  by destruct c as [[] [] [] [] [] [] [] []].
Qed.

(** X20. The validator and the ledger agree on the case of a wallet id: the
    pattern of [validateTransferRequest], with its [i] flag, accepts an id
    exactly when it accepts the form the [uuid] column stores it in, and
    storing a stored form changes nothing. So two ids that differ in case
    only are both accepted, pass for different wallets in the validator,
    and are one wallet in the ledger. *)
Theorem uuidRegex_test_uuid_in s :
  TransferService.uuidRegex_test (Ledger.uuid_in s)
  = TransferService.uuidRegex_test s
  ∧ Ledger.uuid_in (Ledger.uuid_in s) = Ledger.uuid_in s.
Proof.
  split.
  - unfold TransferService.uuidRegex_test.
    rewrite hex_run_uuid_in.
    destruct (TransferService.hex_run 8 s) as [s1 |]; cbn [fmap option_fmap option_map mbind option_bind]; [| done].
    rewrite dash_uuid_in.
    destruct (TransferService.dash s1) as [s2 |]; cbn [fmap option_fmap option_map mbind option_bind]; [| done].
    rewrite hex_run_uuid_in.
    destruct (TransferService.hex_run 4 s2) as [s3 |]; cbn [fmap option_fmap option_map mbind option_bind]; [| done].
    rewrite dash_uuid_in.
    destruct (TransferService.dash s3) as [s4 |]; cbn [fmap option_fmap option_map mbind option_bind]; [| done].
    rewrite hex_run_uuid_in.
    destruct (TransferService.hex_run 4 s4) as [s5 |]; cbn [fmap option_fmap option_map mbind option_bind]; [| done].
    rewrite dash_uuid_in.
    destruct (TransferService.dash s5) as [s6 |]; cbn [fmap option_fmap option_map mbind option_bind]; [| done].
    rewrite hex_run_uuid_in.
    destruct (TransferService.hex_run 4 s6) as [s7 |]; cbn [fmap option_fmap option_map mbind option_bind]; [| done].
    rewrite dash_uuid_in.
    destruct (TransferService.dash s7) as [s8 |]; cbn [fmap option_fmap option_map mbind option_bind]; [| done].
    rewrite hex_run_uuid_in.
    by destruct (TransferService.hex_run 12 s8) as [[| c r] |].
  - induction s as [| c s IH]; simpl; [done |].
    by rewrite lower_lower, IH.
Qed.

(** ** Without Redis *)

Lemma acquireLockLoop_fault env key remaining attempt (w : World) :
  redisFault env (OpSetNX attempt) = true →
  Thread.run (RedisService.acquireLockLoop env key (S remaining) attempt) w
  = (w, inr true).
Proof.
  intros Hdown. cbn [RedisService.acquireLockLoop].
  unfold mbind, Thread_bind. rewrite run_bind, run_atomic.
  unfold Thread.on_redis, RedisService.acquireLock. rewrite Hdown.
  cbn [fst snd]. by rewrite set_redis_same.
Qed.

(** X21. Degradation to the ledger alone: with Redis failing every command,
    a call run on its own leaves the Redis store as it is, and does to the
    ledger, and answers, exactly what the same call does with Redis
    answering and nothing stored in it. *)
Theorem redis_down_is_ledger_only env request (w : World) :
  (∀ op, redisFault env op = true) →
  let down := Thread.run (TransferService.executeTransfer env request) w in
  let up := Thread.run (TransferService.executeTransfer (redis_up env) request)
                       (set_redis ∅ w) in
  redis down.1 = redis w
  ∧ ledger down.1 = ledger up.1
  ∧ down.2 = up.2.
Proof.
  intros Hdown down up. subst down up.
  rewrite !run_executeTransfer.
  destruct (TransferService.validateTransferRequest request); [done |].
  unfold RedisService.getCachedResult. rewrite Hdown.
  cbn [redisFault redis_up snd redis set_redis]. unfold Redis.get.
  rewrite lookup_empty. cbn [snd].
  unfold RedisService.acquireLockWithRetry, RedisService.LOCK_MAX_RETRIES.
  rewrite acquireLockLoop_fault by done.
  rewrite (acquireLockLoop_free (redis_up env)) by done.
  rewrite !run_lockAcquired, !run_tryBlock.
  change (dbFault (redis_up env)) with (dbFault env).
  change (Ledger.transaction (redis_up env)
            (TransferService.transferCallback (redis_up env) request))
    with (Ledger.transaction env (TransferService.transferCallback env request)).
  change (TransferService.recordFailure (redis_up env))
    with (TransferService.recordFailure env).
  unfold RedisService.releaseLock, RedisService.cacheResult.
  rewrite !Hdown. cbn [redisFault redis_up fst].
  destruct (dbFault env OpLookup); [done |].
  cbn [ledger set_redis].
  destruct (Ledger.lookup_key (idempotencyKey request) (ledger w)).
  { rewrite !run_replyFromLog. unfold RedisService.cacheResult.
    rewrite Hdown. done. }
  by destruct (Ledger.transaction _ _ _) as [L [e | c]].
Qed.

Lemma redis_down_is_ledger_only_witness :
  let down := Thread.run
                (TransferService.executeTransfer
                   (Examples.env_no_redis Examples.id1) Examples.t1_request)
                Examples.seeded in
  let up := Thread.run
              (TransferService.executeTransfer
                 (redis_up (Examples.env_no_redis Examples.id1))
                 Examples.t1_request)
              (set_redis ∅ Examples.seeded) in
  redis down.1 = redis Examples.seeded
  ∧ ledger down.1 = ledger up.1
  ∧ down.2 = up.2.
Proof.
  apply (redis_down_is_ledger_only (Examples.env_no_redis Examples.id1)
           Examples.t1_request Examples.seeded).
  intros op. reflexivity.
Defined.

(** ** The failure recorder *)

(** X22. What [markTransactionFailed] does. It never throws, and it changes
    neither a wallet nor the Redis store. It keeps every row of the log
    table in its place with its id, key, wallets and amount, and every row
    of another key as it is. When its UPDATE goes through, every row of the
    key ends FAILED with the given message, whatever its status was. *)
Theorem markTransactionFailed_effect env key msg (w : World) :
  let res := Thread.run (TransferService.markTransactionFailed env key msg) w in
  res.2 = inr tt
  ∧ wallets_of res.1 = wallets_of w
  ∧ redis res.1 = redis w
  ∧ Forall2
      (fun l l' =>
         TransactionLog.id l' = TransactionLog.id l
         ∧ TransactionLog.idempotencyKey l' = TransactionLog.idempotencyKey l
         ∧ TransactionLog.fromWalletId l' = TransactionLog.fromWalletId l
         ∧ TransactionLog.toWalletId l' = TransactionLog.toWalletId l
         ∧ TransactionLog.amount l' = TransactionLog.amount l
         ∧ (TransactionLog.idempotencyKey l ≠ key → l' = l)
         ∧ (TransactionLog.idempotencyKey l = key →
            dbFault env OpMarkFailed = None →
            TransactionLog.status l' = FAILED
            ∧ TransactionLog.errorMessage l' = Some msg))
      (logs_of w) (logs_of res.1).
Proof.
  intros res. subst res.
  unfold TransferService.markTransactionFailed. rewrite run_atomic.
  unfold Thread.on_ledger, logs_of, wallets_of. cbn [fst snd ledger redis set_ledger].
  unfold TransferService.recordFailure, Ledger.update_failed_where_key,
    Ledger.bind, Ledger.fault.
  destruct (dbFault env OpMarkFailed) as [e |] eqn:Hfault.
  - repeat split; try done.
    apply Forall2_same_length_lookup_2; [done |].
    intros i l l' Hl Hl'. assert (l' = l) as -> by congruence.
    repeat split; done.
  - cbn [Ledger.wallets Ledger.logs Ledger.set_logs]. repeat split; try done.
    unfold Ledger.map_log_key. apply Forall2_fmap_r, Forall_Forall2_diag.
    apply Forall_forall. intros l _. unfold compose.
    destruct (String.eqb_spec (TransactionLog.idempotencyKey l) key);
      repeat split; simpl; try done; intros; congruence.
Qed.

(** ** One commit for a key, under any interleaving *)

Lemma once_bind {A} key (t : Thread A) (k : A → Thread TransferResponse) :
  (∀ a, once key (k a)) → once key (Thread.bind t k).
Proof.
  intros Hk. induction t as [a | e | X op k' IH]; simpl; [done | done |].
  intros w. left. apply IH.
Qed.

Lemma once_try_catch key (t : Thread TransferResponse) h :
  once key t → (∀ e, once key (h e)) → once key (Thread.try_catch t h).
Proof.
  intros Ht Hh. induction t as [r | e | X op k IH]; simpl; [done | done |].
  intros w. destruct (Ht w) as [Hrest | (Hrest & Hno & Hyes)].
  - left. by apply IH.
  - right. split; [by apply settled_try_catch | done].
Qed.

Lemma once_finally key (t : Thread TransferResponse) (c : Thread unit) :
  once key t → harmless c → once key (Thread.finally t c).
Proof.
  intros Ht Hc. induction t as [r | e | X op k IH]; simpl.
  - by apply once_bind.
  - by apply once_bind.
  - intros w. destruct (Ht w) as [Hrest | (Hrest & Hno & Hyes)].
    + left. by apply IH.
    + right. split; [by apply settled_finally | done].
Qed.

Lemma has_log_key_app key L ls :
  Ledger.has_log_key key (Ledger.set_logs (Ledger.logs L ++ ls) L)
  = (Ledger.has_log_key key L
     || existsb (fun l => String.eqb (TransactionLog.idempotencyKey l) key) ls)%bool.
Proof. unfold Ledger.has_log_key. simpl. apply existsb_app. Qed.

Lemma committed_key_used env request L L' c :
  Ledger.transaction env (TransferService.transferCallback env request) L
  = (L', inr c) →
  Ledger.has_log_key (idempotencyKey request) L = false
  ∧ Ledger.has_log_key (idempotencyKey request) L' = true.
Proof.
  intros Htx. apply transaction_inr, transferCallback_commit in Htx
    as (a & Hid & Hkey & _ & Hlogs).
  split; [done |]. unfold Ledger.has_log_key.
  rewrite Hlogs, committed_logs by done.
  rewrite existsb_app. simpl. rewrite String.eqb_refl.
  by rewrite orb_true_r.
Qed.

Lemma executeTransfer_once env request :
  once (idempotencyKey request) (TransferService.executeTransfer env request).
Proof.
  unfold TransferService.executeTransfer.
  destruct (TransferService.validateTransferRequest request); [done |].
  apply once_bind. intros [cached |].
  { simpl. unfold fresh_success. simpl. by intros [_ ?]. }
  apply once_bind.
  assert (∀ log, once (idempotencyKey request)
                   (TransferService.replyFromLog env (idempotencyKey request) log))
    as Hreply.
  { intros log. apply once_bind. intros _. simpl.
    apply buildResponseFromLog_not_fresh. }
  intros [|]; simpl negb; cbv iota.
  - apply once_finally; [| apply harmless_on_redis].
    apply once_try_catch; [| intros e; by apply once_bind].
    apply once_bind. intros [existing |]; [apply Hreply |].
    simpl. intros w. unfold Thread.on_ledger.
    destruct (Ledger.transaction env _ (ledger w)) as [L' [e | c]] eqn:Htx;
      simpl; [by left |].
    right. apply committed_key_used in Htx as [Hno Hyes]. split.
    + apply (settled_bind
               (Thread.atomic (Thread.on_redis
                  (RedisService.cacheResult env (idempotencyKey request)
                     (TransferService.successResponse c))))
               (fun _ => Ret (TransferService.successResponse c)));
        [apply harmless_on_redis |].
      intros _. by split.
    + unfold key_used. simpl. split; [by rewrite Hno | done].
  - apply once_bind. intros [existing |]; [apply Hreply | done].
Qed.

Lemma existsb_map_log_key key key' msg at_ ls :
  existsb (fun l => String.eqb (TransactionLog.idempotencyKey l) key)
          (Ledger.map_log_key key' (Ledger.mark_failed msg at_) ls)
  = existsb (fun l => String.eqb (TransactionLog.idempotencyKey l) key) ls.
Proof.
  unfold Ledger.map_log_key.
  induction ls as [| l ls IH]; simpl; [done |].
  rewrite IH. by destruct (String.eqb _ key').
Qed.

Lemma executeTransfer_keeps_key_used key env request :
  keeps (key_used key) (TransferService.executeTransfer env request).
Proof.
  apply (executeTransfer_keeps_ledger
           (fun L => Ledger.has_log_key key L = true)).
  - intros env' key' msg L HL.
    unfold TransferService.recordFailure, Ledger.update_failed_where_key,
      Ledger.bind, Ledger.fault.
    destruct (dbFault env' OpMarkFailed); [done |].
    unfold Ledger.has_log_key in *. simpl.
    by rewrite existsb_map_log_key.
  - intros env' request' L L' c Htx HL.
    apply transaction_inr, transferCallback_commit in Htx
      as (a & Hid & _ & _ & Hlogs).
    unfold Ledger.has_log_key in *.
    rewrite Hlogs, committed_logs by done.
    rewrite existsb_app, HL. done.
Qed.

Lemma advance_keeps_rest {A} I (t : Thread A) (w : World) :
  keeps I t → keeps I (Thread.advance t w).2.
Proof.
  destruct t as [a | e | X op k]; simpl; try done.
  intros H. destruct (H w) as [_ Hk]. by destruct (op w).
Qed.

Lemma advance_once key (t : Thread TransferResponse) (w : World) :
  once key t →
  once key (Thread.advance t w).2
  ∨ (settled (Thread.advance t w).2
     ∧ ¬ key_used key w ∧ key_used key (Thread.advance t w).1).
Proof.
  destruct t as [r | e | X op k]; simpl; [by left | by left |].
  intros H. destruct (H w) as [Hk | Hk]; destruct (op w); [by left | by right].
Qed.

Lemma move_one_commit key keys c m (s : Concurrent.State TransferResponse) :
  one_commit key keys c s →
  ∃ c', one_commit key keys c' (Concurrent.move m s) ∧ (is_Some c → c' = c).
Proof.
  destruct s as [w pool]. intros (Hkeeps & Hthreads & Hused).
  destruct m as [n | k]; simpl in *.
  2: { exists c. by repeat split. }
  destruct (pool !! n) as [t |] eqn:Hn; [| exists c; by repeat split].
  assert (n < length pool)%nat as Hlen by (by eapply lookup_lt_Some).
  pose proof (proj1 (Forall_lookup _ _) Hkeeps n t Hn) as Ht.
  pose proof (advance_keeps_rest _ t w Ht) as Ht'.
  assert (key_used key w → key_used key (Thread.advance t w).1) as Hmono.
  { intros Hw. by apply (advance_keeps _ t w Ht Hw). }
  assert (∀ c', (if decide (c' = Some n)
                 then settled (Thread.advance t w).2
                 else once key (Thread.advance t w).2) →
                (∀ i, i ≠ n → c' = Some i ↔ c = Some i) →
                (is_Some c' → key_used key (Thread.advance t w).1) →
                keys !! n = Some key →
                one_commit key keys c'
                  (let '(w', t') := Thread.advance t w in (w', <[n := t']> pool)))
    as Hstep.
  { intros c' Hn' Hothers Hused' Hkey.
    destruct (Thread.advance t w) as [w' t']. simpl in *.
    split; [by apply Forall_insert |]. split; [| done].
    intros i ti Hi Hki. cbn [snd] in Hi.
    destruct (decide (i = n)) as [-> | Hne].
    - rewrite list_lookup_insert_eq in Hi by done. by injection Hi as <-.
    - rewrite list_lookup_insert_ne in Hi by done.
      pose proof (Hthreads i ti Hi Hki) as Hold.
      specialize (Hothers i Hne).
      destruct (decide (c' = Some i)), (decide (c = Some i)); try done;
        by destruct Hothers; tauto. }
  destruct (decide (keys !! n = Some key)) as [Hkey | Hkey].
  - pose proof (Hthreads n t Hn Hkey) as Hnt.
    destruct (decide (c = Some n)) as [Hc | Hc].
    + exists c. split; [| done]. apply Hstep; try done.
      * rewrite decide_True by done. by apply advance_settled.
      * intros Hsome. by apply Hmono, Hused.
    + destruct (advance_once key t w Hnt) as [Honce | (Hset & Hno & Hyes)].
      * exists c. split; [| done]. apply Hstep; try done.
        -- by rewrite decide_False.
        -- intros Hsome. by apply Hmono, Hused.
      * assert (c = None) as ->.
        { destruct c as [i |]; [| done]. destruct Hno. apply Hused. by eauto. }
        exists (Some n). split; [| by intros [? ?]]. apply Hstep; try done.
        -- by rewrite decide_True.
        -- intros i Hi. split; congruence.
  - exists c. split; [| done].
    destruct (Thread.advance t w) as [w' t']. simpl in *.
    split; [by apply Forall_insert |]. split; [| by auto].
    intros i ti Hi Hki. cbn [snd] in Hi.
    destruct (decide (i = n)) as [-> | Hne]; [done |].
    rewrite list_lookup_insert_ne in Hi by done. by apply Hthreads.
Qed.

Lemma play_one_commit key keys c moves (s : Concurrent.State TransferResponse) :
  one_commit key keys c s →
  ∃ c', one_commit key keys c' (Concurrent.play moves s) ∧ (is_Some c → c' = c).
Proof.
  revert c s. induction moves as [| m moves IH]; intros c s Hs; [by eauto |].
  simpl. destruct (move_one_commit key keys c m s Hs) as (c1 & Hs1 & Hc1).
  destruct (IH c1 (Concurrent.move m s) Hs1) as (c2 & Hs2 & Hc2).
  exists c2. split; [done |]. intros Hc.
  rewrite <- (Hc1 Hc). apply Hc2. by rewrite (Hc1 Hc).
Qed.

Lemma requests_one_commit key calls c (w : World) :
  (∀ n, c = Some n → (length calls ≤ n)%nat) →
  (is_Some c → key_used key w) →
  one_commit key (keys_of calls) c (w, requests calls).
Proof.
  intros Hc Hused. split; [| split; [| done]].
  - unfold requests. apply Forall_fmap, Forall_forall. intros [env request] _.
    apply executeTransfer_keeps_key_used.
  - intros n t Ht Hkey. simpl in Ht.
    assert (n < length calls)%nat as Hlen.
    { apply lookup_lt_Some in Ht. unfold requests in Ht.
      by rewrite length_fmap in Ht. }
    rewrite decide_False by (intros H; apply Hc in H; lia).
    unfold requests in Ht. unfold keys_of in Hkey.
    rewrite list_lookup_fmap in Ht. rewrite list_lookup_fmap in Hkey.
    destruct (calls !! n) as [[env request] |]; [| done].
    simpl in *. injection Ht as <-. injection Hkey as <-.
    apply executeTransfer_once.
Qed.

Lemma outcome_fresh key keys c (s : Concurrent.State TransferResponse) i r :
  one_commit key keys c s →
  keys !! i = Some key →
  Concurrent.outcomes s !! i = Some (Some (inr r)) →
  fresh_success r →
  c = Some i.
Proof.
  intros (_ & Hthreads & _) Hkey Hout Hfresh.
  unfold Concurrent.outcomes in Hout. rewrite list_lookup_fmap in Hout.
  destruct (s.2 !! i) as [t |] eqn:Hi; [| done].
  simpl in Hout. destruct t as [r' | e | X op k]; try done.
  injection Hout as <-.
  pose proof (Hthreads i (Ret r') Hi Hkey) as H.
  by destruct (decide (c = Some i)).
Qed.

(** X23. One commit for a key, under any interleaving. Whatever requests
    run, with whatever environments (any fault of Redis or of the ledger,
    so also with no lease at all), interleaved in whatever way and with
    whatever cache entries and leases expiring in between: if a request
    answers "Transfer completed successfully", then the ledger it started
    from had no log of its key, and no other request with the same key
    gives this answer. *)
Theorem at_most_one_commit_per_key calls moves (w : World) key i ri :
  let s := Concurrent.play moves (w, requests calls) in
  keys_of calls !! i = Some key →
  Concurrent.outcomes s !! i = Some (Some (inr ri)) →
  fresh_success ri →
  ¬ key_used key w
  ∧ ∀ j rj, keys_of calls !! j = Some key →
            Concurrent.outcomes s !! j = Some (Some (inr rj)) →
            fresh_success rj →
            j = i.
Proof.
  intros s Hkey Hout Hfresh. subst s.
  assert (i < length calls)%nat as Hlen.
  { apply lookup_lt_Some in Hkey. unfold keys_of in Hkey.
    by rewrite length_fmap in Hkey. }
  split.
  - intros Hused.
    destruct (play_one_commit key (keys_of calls) (Some (length calls)) moves
                (w, requests calls)) as (c' & Hinv & Hc').
    { apply requests_one_commit; [| done]. intros n [= <-]. done. }
    rewrite Hc' in Hinv by eauto.
    pose proof (outcome_fresh _ _ _ _ _ _ Hinv Hkey Hout Hfresh) as [= H].
    lia.
  - intros j rj Hkeyj Houtj Hfreshj.
    destruct (play_one_commit key (keys_of calls) None moves
                (w, requests calls)) as (c' & Hinv & _).
    { apply requests_one_commit; [done | by intros [? ?]]. }
    pose proof (outcome_fresh _ _ _ _ _ _ Hinv Hkey Hout Hfresh) as Hi.
    pose proof (outcome_fresh _ _ _ _ _ _ Hinv Hkeyj Houtj Hfreshj) as Hj.
    congruence.
Qed.

Lemma at_most_one_commit_per_key_witness :
  let calls := [(Examples.env_ok Examples.id1, Examples.t1_request);
                (Examples.env_no_redis Examples.id2, Examples.t1_request)] in
  let moves := [Concurrent.Run 0; Concurrent.Run 1; Concurrent.Run 0;
                Concurrent.Run 1; Concurrent.Run 0; Concurrent.Run 1;
                Concurrent.Run 0; Concurrent.Run 1; Concurrent.Run 0;
                Concurrent.Run 1; Concurrent.Run 0; Concurrent.Run 1] in
  let s := Concurrent.play moves (Examples.seeded, requests calls) in
  ¬ key_used "t1" Examples.seeded
  ∧ ∀ j rj, keys_of calls !! j = Some "t1" →
            Concurrent.outcomes s !! j = Some (Some (inr rj)) →
            fresh_success rj →
            j = 0%nat.
Proof.
  intros calls moves s.
  apply (at_most_one_commit_per_key calls moves Examples.seeded "t1" 0
           Examples.t1_response).
  - reflexivity.
  - vm_compute. reflexivity.
  - split; reflexivity.
Defined.
